(** * GPEP data processing: distribution transforms

    A shallow embedding of [src/data_processing.py] (the transformation
    half of the file: power transform, empirical CDF builder, sparse
    station pooling, quantile-normal transform and its inverse, gamma
    inverse transform, dispatcher) together with the properties stated
    for it.

    Number model.  A NumPy [float64] cell is modelled by [fl]: either
    [NaN] (the missing marker) or [Num r] with [r] a real number.  The
    arithmetic is the exact one of the reals: rounding, overflow and the
    two infinities of IEEE 754 are outside the model, and so are arrays
    of integers, where an assignment in place truncates.  Comparisons
    follow NumPy: every comparison with [NaN] is false.  What depends on
    rounding (how close the round trip of the power transform comes) is
    stated over rounded arithmetic and over binary64 itself, see
    [Rounded] and [Binary64].

    Arrays are nested lists read row by row; array objects that a
    function can write into live in a store (see [world]).  A pandas
    frame indexed by time is a list of labelled columns whose rows are
    addressed by position: time stamps are taken to be distinct, and of a
    time stamp only the calendar month is kept.

    Library functions of SciPy ([norm.ppf], [norm.cdf], [gamma.cdf],
    [gamma.ppf], the extrapolating [interp1d]) are the fields of the class
    [Libs]: nothing is assumed about them beyond what a statement lists
    as a hypothesis.  Python exceptions are results [Raise e].

    The file has two parts: the embedding of the code with the vocabulary
    of the statements, then the lemmas and theorems. *)

From Stdlib Require Import Reals Lra Lia ZArith List Sorted Permutation.
From Stdlib Require Floats.
From stdpp Require Import base option list gmap strings.

Open Scope R_scope.

(* ===================================================================== *)
(** * Part I: the embedding *)
(* ===================================================================== *)

(** ** Floating point cells *)

Module Float.

Inductive fl : Type :=
| NaN
| Num (r : R).

Definition isnan (a : fl) : bool :=
  match a with NaN => true | Num _ => false end.

(** [a < b] of NumPy: false as soon as one side is [NaN]. *)
Definition ltb (a b : fl) : bool :=
  match a, b with
  | Num x, Num y => if Rlt_dec x y then true else false
  | _, _ => false
  end.

Definition gtb (a b : fl) : bool := ltb b a.

Definition eqb (a b : fl) : bool :=
  match a, b with
  | Num x, Num y => if Req_dec_T x y then true else false
  | _, _ => false
  end.

(** The order [np.sort] uses: numbers ascending, [NaN] last. *)
Definition sort_leb (a b : fl) : bool :=
  match a, b with
  | Num x, Num y => if Rle_dec x y then true else false
  | _, NaN => true
  | NaN, Num _ => false
  end.

(** [np.nan_to_num(a, nan=v)] on one cell. *)
Definition nan_to_num (v a : fl) : fl :=
  match a with NaN => v | Num _ => a end.

(** [np.clip(a, lo, hi)] on one cell, that is
    [minimum(maximum(a, lo), hi)]; [NaN] goes through. *)
Definition clip (a : fl) (lo hi : R) : fl :=
  match a with
  | NaN => NaN
  | Num x => Num (Rmin (Rmax x lo) hi)
  end.

Definition sub (a b : fl) : fl :=
  match a, b with Num x, Num y => Num (x - y) | _, _ => NaN end.

Definition add (a b : fl) : fl :=
  match a, b with Num x, Num y => Num (x + y) | _, _ => NaN end.

Definition mul (a b : fl) : fl :=
  match a, b with Num x, Num y => Num (x * y) | _, _ => NaN end.

(** Division; a zero divisor gives an infinity or [NaN] in IEEE 754, both
    outside the numbers of the model. *)
Definition div (a b : fl) : fl :=
  match a, b with
  | Num x, Num y => if Req_dec_T y 0 then NaN else Num (x / y)
  | _, _ => NaN
  end.

(** [x ** p] on floats.  As in C's [pow]: exponent 0 gives 1 and base 1
    gives 1, even against [NaN].  A positive base is [exp (p * ln x)]; a
    zero base gives 0 for a positive exponent (an infinity, outside the
    model, for a negative one); a negative base is defined for integral
    exponents only. *)
Definition power (a p : fl) : fl :=
  match a, p with
  | Num x, Num q =>
      if Req_dec_T q 0 then Num 1
      else if Rlt_dec 0 x then Num (Rpower x q)
      else if Req_dec_T x 0 then (if Rlt_dec 0 q then Num 0 else NaN)
      else if Req_dec_T q (IZR (Int_part q))
        then Num (powerRZ x (Int_part q)) else NaN
  | NaN, Num q => if Req_dec_T q 0 then Num 1 else NaN
  | Num x, NaN => if Req_dec_T x 1 then Num 1 else NaN
  | NaN, NaN => NaN
  end.

End Float.

Import Float.

(** Resolve the comparisons of concrete reals in a goal. *)
Ltac rcmp :=
  repeat match goal with
  | |- context [Rlt_dec ?a ?b] => destruct (Rlt_dec a b); try lra
  | |- context [Rle_dec ?a ?b] => destruct (Rle_dec a b); try lra
  | |- context [Req_dec_T ?a ?b] => destruct (Req_dec_T a b); try lra
  end.

(** ** Python outcomes *)

(** The exceptions the modelled code can raise.  [SystemExit] is what
    [sys.exit()] raises: it is not an [Exception], no ordinary handler
    catches it, and the interpreter ends the process when it reaches the
    top.  [DanglingRef] is not a Python exception: it marks a reference
    that is not in the store, which no Python program can build. *)
Inductive exn : Type :=
| KeyError | IndexError | ValueError | NameError | TypeError
| AttributeError | ZeroDivisionError | SystemExit | DanglingRef.

Inductive result (A : Type) : Type :=
| Ok (a : A)
| Raise (e : exn).
Arguments Ok {A} a.
Arguments Raise {A} e.

#[global] Instance result_ret : MRet result := @Ok.
#[global] Instance result_bind : MBind result := fun A B f m =>
  match m with Ok a => f a | Raise e => Raise e end.

(** [d[k]] on a dict and [a[i]] on a sequence. *)
Definition getitem `{Lookup K V D} (d : D) (k : K) : result V :=
  match d !! k with Some v => Ok v | None => Raise KeyError end.

Definition index {A} (a : list A) (i : nat) : result A :=
  match a !! i with Some v => Ok v | None => Raise IndexError end.

(** A [for] loop whose body can raise. *)
Fixpoint for_each {A S} (l : list A) (body : S -> A -> result S) (s : S)
  : result S :=
  match l with
  | [] => Ok s
  | a :: l' => s' ← body s a; for_each l' body s'
  end.

(** ** Arrays and the store *)

(** An [np.ndarray] of floats of one, two or three dimensions; a nested
    list is read row by row. *)
Inductive ndarray : Type :=
| Array1 (a : list fl)
| Array2 (a : list (list fl))
| Array3 (a : list (list (list fl))).

Definition ndim (a : ndarray) : nat :=
  match a with Array1 _ => 1 | Array2 _ => 2 | Array3 _ => 3 end.

(** An elementwise operation. *)
Definition ndmap (f : fl -> fl) (a : ndarray) : ndarray :=
  match a with
  | Array1 a => Array1 (map f a)
  | Array2 a => Array2 (map (map f) a)
  | Array3 a => Array3 (map (map (map f)) a)
  end.

(** Array objects live in a store; two names can hold the same object.
    What a caller passes as [data] is an array object, or another
    array-like value (a nested list) that [np.array] converts. *)
Abbreviation loc := positive.

Inductive pyobj : Type :=
| Ref (l : loc)
| PyList (a : ndarray).

Record world : Type := mkWorld {
  heap : gmap loc ndarray;
  stdout : list string
}.

(** Computations that read and write the store and can raise; the store
    survives an exception. *)
Definition M (A : Type) : Type := world -> result A * world.

#[global] Instance M_ret : MRet M := fun A a w => (Ok a, w).
#[global] Instance M_bind : MBind M := fun A B f m w =>
  match m w with
  | (Ok a, w') => f a w'
  | (Raise e, w') => (Raise e, w')
  end.

Definition raise {A} (e : exn) : M A := fun w => (Raise e, w).

Definition lift {A} (r : result A) : M A := fun w => (r, w).

(** A new array object. *)
Definition alloc (a : ndarray) : M loc := fun w =>
  let l := fresh (dom (heap w)) in
  (Ok l, mkWorld (<[l := a]> (heap w)) (stdout w)).

Definition load (l : loc) : M ndarray := fun w =>
  match heap w !! l with
  | Some a => (Ok a, w)
  | None => (Raise DanglingRef, w)
  end.

(** Writing into an existing array object. *)
Definition store (l : loc) (a : ndarray) : M unit := fun w =>
  match heap w !! l with
  | Some _ => (Ok tt, mkWorld (<[l := a]> (heap w)) (stdout w))
  | None => (Raise DanglingRef, w)
  end.

Definition print (line : string) : M unit := fun w =>
  (Ok tt, mkWorld (heap w) (stdout w ++ [line])).

(** [np.array(data)] when [data] is not an array object already. *)
Definition as_ndarray (data : pyobj) : M loc :=
  match data with
  | Ref l => mret l
  | PyList a => alloc a
  end.

(** [data.copy()] *)
Definition copy (data : loc) : M loc :=
  a ← load data; alloc a.

(** [data[data < bound] = bound] *)
Definition clamp_below (bound : R) (x : fl) : fl :=
  if ltb x (Num bound) then Num bound else x.

(** ** The power transform *)

(** [1 / texp] on Python numbers. *)
Definition py_inv (texp : R) : result R :=
  if Req_dec_T texp 0 then Raise ZeroDivisionError else Ok (1 / texp).

Definition boxcox_transform (data : pyobj) (texp : R) : M loc :=
  data ← as_ndarray data;
  data ← copy data;
  a ← load data;
  _ ← store data (ndmap (clamp_below 0) a);
  inv ← lift (py_inv texp);
  a ← load data;
  alloc (ndmap (fun x => div (sub (power x (Num inv)) (Num 1)) (Num inv)) a).

Definition boxcox_back_transform (data : pyobj) (texp : R) : M loc :=
  data ← as_ndarray data;
  data ← copy data;
  a ← load data;
  _ ← store data (ndmap (clamp_below (- texp)) a);
  a ← load data;
  alloc (ndmap (fun x => power (add (div x (Num texp)) (Num 1)) (Num texp)) a).

(** ** The empirical CDF builder *)

(** The [pd.DataFrame] with columns ['Value'] and ['CDF']: its rows. *)
Definition cdf_df : Type := list (fl * fl).

Definition Value (df : cdf_df) : list fl := map fst df.
Definition CDF (df : cdf_df) : list fl := map snd df.

(** [DataFrame.empty]: no row. *)
Definition empty (df : cdf_df) : bool :=
  match df with [] => true | _ :: _ => false end.

(** [np.sort] on a one-dimensional array: insertion into a sorted list. *)
Fixpoint insert_sorted (a : fl) (l : list fl) : list fl :=
  match l with
  | [] => [a]
  | b :: l' => if sort_leb a b then a :: b :: l' else b :: insert_sorted a l'
  end.

Definition np_sort (l : list fl) : list fl :=
  fold_right insert_sorted [] l.

(** [np.arange(1, n + 1) / n] *)
Definition arange_div (n : nat) : list fl :=
  map (fun k => Num (INR k / INR n)) (seq 1 n).

Definition create_cdf_df (data : list fl) : cdf_df :=
  let valid_data := List.filter (fun x => gtb x (Num 0)) data in
  let sorted_data := np_sort valid_data in
  let cdf_values := arange_div (length sorted_data) in
  combine sorted_data cdf_values.

(** ** Pooling the neighbours of a sparse station *)

(** [cdfs]: station index, then month, to table. *)
Abbreviation station_cdfs := (gmap Z (gmap nat cdf_df)).

(** The variables of the [while] loop. *)
Record pool_state : Type := mkPool {
  station_cdf : list fl;
  num_obs : nat;
  iteration : nat
}.

(** One turn of the [while] loop for station [stn_index] and month [i]. *)
Definition pool_body (cdfs : station_cdfs) (nearby_stations : list (list Z))
    (stn_index i : nat) (st : pool_state) : result pool_state :=
  row ← index nearby_stations stn_index;
  near ← index row (iteration st);
  near_months ← getitem cdfs near;
  near_station_cdf ← getitem near_months i;
  station_cdf0 ←
    (if (iteration st =? 0)%nat
     then own ← getitem cdfs (Z.of_nat stn_index);
          own_cdf ← getitem own i;
          Ok (Value own_cdf)
     else Ok (station_cdf st));
  let near_station_cdf_values := Value near_station_cdf in
  let station_cdf' := station_cdf0 ++ near_station_cdf_values in
  Ok (mkPool station_cdf' (length station_cdf') (S (iteration st))).

(** [while num_obs < min_obs and iteration < 5]; [fuel] bounds the number
    of turns and 5 is always enough. *)
Fixpoint pool_while (fuel : nat) (cdfs : station_cdfs)
    (nearby_stations : list (list Z)) (min_obs : Z) (stn_index i : nat)
    (st : pool_state) : result pool_state :=
  match fuel with
  | O => Ok st
  | S fuel' =>
      if (Z.of_nat (num_obs st) <? min_obs)%Z && (iteration st <? 5)%nat
      then st' ← pool_body cdfs nearby_stations stn_index i st;
           pool_while fuel' cdfs nearby_stations min_obs stn_index i st'
      else Ok st
  end.

(** The body of the two [for] loops: station [stn_index], month [i]. *)
Definition pool_station (nearby_stations : list (list Z)) (min_obs : Z)
    (i : nat) (cdfs : station_cdfs) (stn_index : nat) : result station_cdfs :=
  own ← getitem cdfs (Z.of_nat stn_index);
  own_cdf ← getitem own i;
  let num_obs := length (Value own_cdf) in
  if (Z.of_nat num_obs <? min_obs)%Z
  then st ← pool_while 5 cdfs nearby_stations min_obs stn_index i
              (mkPool [] num_obs 0);
       own ← getitem cdfs (Z.of_nat stn_index);
       Ok (<[Z.of_nat stn_index := <[i := create_cdf_df (station_cdf st)]> own]> cdfs)
  else Ok cdfs.

(** Stations with at least one value that is not [NaN]. *)
Definition stations_with_values (measured_var : list (list fl)) : list nat :=
  List.filter
    (fun stn_index => existsb (fun x => negb (isnan x))
                        (nth stn_index measured_var []))
    (seq 0 (length measured_var)).

(** [measured_var] is [all_station_data_ds[var]], one row per station;
    [nearby_stations] is the ['nearIndex_InStn_prcp'] table. *)
Definition add_nearby_stations_to_cdfs (cdfs : station_cdfs)
    (measured_var : list (list fl)) (nearby_stations : list (list Z))
    (min_obs : Z) : result station_cdfs :=
  for_each (seq 1 12)
    (fun cdfs i =>
       for_each (stations_with_values measured_var)
         (pool_station nearby_stations min_obs i) cdfs)
    cdfs.

(** ** Settings and library functions *)

(** The settings dict; [None] is an absent key. *)
Record Settings : Type := mkSettings {
  pooled : option bool;
  min_num_obs : option Z;
  add_noise : option bool;
  min_z_value : option fl;
  min_est_value : option fl;
  exponent : option R;
  interp_method : option string
}.

(** [settings[key]] and [settings.get(key, d)]; the latter is stdpp's
    [default d]. *)
Definition setting {A} (v : option A) : result A :=
  match v with Some x => Ok x | None => Raise KeyError end.

(** The library functions the code calls, uninterpreted:
    [gamma_cdf x a loc scale], [gamma_ppf q a loc scale], and
    [interp1d_extrapolate x y] for
    [interp1d(x, y, kind='linear', bounds_error=False, fill_value='extrapolate')].
    The last field is a behaviour of pandas that the source relies on
    without fixing it. *)
Class Libs : Type := {
  norm_ppf : fl -> fl;
  norm_cdf : fl -> fl;
  gamma_cdf : fl -> fl -> fl -> fl -> fl;
  gamma_ppf : fl -> fl -> fl -> fl -> fl;
  interp1d_extrapolate : list fl -> list fl -> fl -> fl;
  (** whether pandas accepts a one-dimensional value of length [k] in
      [fr.loc[rows, :] = value] for [k] rows and [n] columns *)
  loc_accepts_1d : nat -> nat -> bool
}.

(** ** Linear interpolation without extrapolation *)

Definition geb (a b : fl) : bool :=
  match a, b with
  | Num x, Num y => if Rle_dec y x then true else false
  | _, _ => false
  end.

(** The stable sort by [x] that [interp1d] does when it is built. *)
Fixpoint insert_row (r : fl * fl) (l : list (fl * fl)) : list (fl * fl) :=
  match l with
  | [] => [r]
  | b :: l' =>
      if sort_leb (fst r) (fst b) then r :: b :: l' else b :: insert_row r l'
  end.

Definition sort_rows (l : list (fl * fl)) : list (fl * fl) :=
  fold_right insert_row [] l.

(** Index search of [np.interp]: [arr] is the part of the array from
    index [i] on; the answer is the first index whose entry is not below
    or equal to [key]. *)
Fixpoint search_from (key : fl) (arr : list fl) (i : nat) : nat :=
  match arr with
  | [] => i
  | a :: arr' => if geb key a then search_from key arr' (S i) else i
  end.

(** [np.interp(x, xp, fp)] on one value, for [xp] not empty. *)
Definition np_interp (xp fp : list fl) (x : fl) : fl :=
  let lval := hd NaN fp in
  let rval := List.last fp NaN in
  if (length xp =? 1)%nat then
    (if ltb x (hd NaN xp) then lval
     else if gtb x (hd NaN xp) then rval else hd NaN fp)
  else
    match x with
    | NaN => NaN
    | Num _ =>
        if gtb x (List.last xp NaN) then rval
        else if ltb x (hd NaN xp) then lval
        else
          let j := (search_from x (tl xp) 1 - 1)%nat in
          if (j =? length xp - 1)%nat then nth j fp NaN
          else if eqb (nth j xp NaN) x then nth j fp NaN
          else
            let slope := div (sub (nth (S j) fp NaN) (nth j fp NaN))
                             (sub (nth (S j) xp NaN) (nth j xp NaN)) in
            let r := add (mul slope (sub x (nth j xp NaN))) (nth j fp NaN) in
            if isnan r then
              let r' := add (mul slope (sub x (nth (S j) xp NaN)))
                            (nth (S j) fp NaN) in
              if isnan r' && eqb (nth j fp NaN) (nth (S j) fp NaN)
              then nth j fp NaN else r'
            else r
    end.

(** [interp1d(x, y, bounds_error=False)] applied to one value: outside
    the range of [x] the answer is the fill value [NaN]. *)
Definition interp1d (x y : list fl) (x_new : fl) : fl :=
  let rows := sort_rows (combine x y) in
  let xs := map fst rows in
  let ys := map snd rows in
  let y_new := np_interp xs ys x_new in
  if ltb x_new (hd NaN xs) || gtb x_new (List.last xs NaN) then NaN else y_new.

(** ** Data frames of the transforms *)

(** [pd.DataFrame(data=data.T, index=times)]: column [s] is row [s] of
    [data] and carries the label [s]; the lengths must agree. *)
Definition make_df (data : list (list fl)) (times : list nat)
  : result (list (list fl)) :=
  if forallb (fun row => (length row =? length times)%nat) data
  then Ok data else Raise ValueError.

(** A frame under construction: labelled columns, in the order in which
    they were created.  Rows are addressed by position in [times]; time
    stamps are taken to be distinct. *)
Definition frame : Type := list (nat * list fl).

(** [pd.DataFrame(index=times, columns=labels)]: every cell missing. *)
Definition nan_frame (ntime : nat) (labels : list nat) : frame :=
  map (fun l => (l, repeat NaN ntime)) labels.

(** Of a time stamp only the calendar month is used: a stamp is modelled
    by the number of months since a January, and its month is between 1
    and 12. *)
Definition month_of (stamp : nat) : nat := S (stamp mod 12).

(** The rows whose time stamp falls in [month]. *)
Definition month_rows (times : list nat) (month : nat) : list nat :=
  List.filter (fun t => (month_of (nth t times 0) =? month)%nat)
              (seq 0 (length times)).

Definition set_cells (col : list fl) (upd : list (nat * fl)) : list fl :=
  fold_left (fun c tv => <[tv.1 := tv.2]> c) upd col.

Definition has_column (fr : frame) (station : nat) : bool :=
  existsb (fun lc => (lc.1 =? station)%nat) fr.

(** [fr.loc[rows, station] = values]; a label that is not a column yet
    adds the column (pandas' setting with enlargement). *)
Definition loc_set_column (ntime : nat) (fr : frame) (station : nat)
    (upd : list (nat * fl)) : frame :=
  if has_column fr station
  then map (fun lc => if (lc.1 =? station)%nat
                      then (lc.1, set_cells lc.2 upd) else lc) fr
  else fr ++ [(station, set_cells (repeat NaN ntime) upd)].

(** [fr.loc[rows, :] = values] with one row of values per row label. *)
Definition loc_set_rows (fr : frame) (upd : list (nat * list fl)) : frame :=
  imap (fun j lc => (lc.1, set_cells lc.2 (map (fun tr => (tr.1, nth j tr.2 NaN)) upd)))
       fr.

(** [fr.astype(float).to_numpy()]: one row per time stamp. *)
Definition to_numpy (ntime : nat) (fr : frame) : list (list fl) :=
  map (fun t => map (fun lc => nth t lc.2 NaN) fr) (seq 0 ntime).

(** [a[:, col_index] = v] on an array with [width] columns. *)
Definition set_column (width : nat) (a : list (list fl)) (col_index : nat)
    (v : fl) : result (list (list fl)) :=
  if (col_index <? width)%nat
  then Ok (map (fun row => <[col_index := v]> row) a)
  else Raise IndexError.

(** The tables handed to the quantile transforms: one per month, or one
    per station and month. *)
Inductive monthly_cdfs_t : Type :=
| ByMonth (m : gmap nat cdf_df)
| ByStation (m : station_cdfs).

(** [monthly_cdfs.get(month) if pooled else monthly_cdfs[station][month]];
    [station] is [None] in the pooled loop. *)
Definition lookup_cdf (monthly_cdfs : monthly_cdfs_t) (station : option nat)
    (month : nat) : result (option cdf_df) :=
  match station, monthly_cdfs with
  | None, ByMonth m => Ok (m !! month)
  | None, ByStation m =>
      match m !! Z.of_nat month with
      | None => Ok None
      | Some _ => Raise AttributeError
      end
  | Some s, ByStation m =>
      months ← getitem m (Z.of_nat s); cdf ← getitem months month; Ok (Some cdf)
  | Some s, ByMonth m => Raise KeyError
  end.

(** [empirical_cdf is not None and not empirical_cdf.empty] *)
Definition usable (empirical_cdf : option cdf_df) : option cdf_df :=
  match empirical_cdf with
  | Some e => if empty e then None else Some e
  | None => None
  end.

(** ** The quantile-normal transform *)

Section Transforms.
Context {libs : Libs}.

(** Lines 163 to 165 on one value. *)
Definition z_score (empirical_cdf : cdf_df) (v : fl) : fl :=
  let cdf_interp := interp1d (Value empirical_cdf) (CDF empirical_cdf) in
  let cum_probs := clip (cdf_interp v) 0 0.99999 in
  norm_ppf cum_probs.

(** [month_data[month_data > 0]] on a frame: the other cells turn [NaN]. *)
Definition mask_positive (v : fl) : fl :=
  if gtb v (Num 0) then v else NaN.

(** The body of the station loop of the forward transform. *)
Definition nqt_body (df : list (list fl)) (times : list nat)
    (monthly_cdfs : monthly_cdfs_t) (month : nat)
    (transformed_data : frame) (station : option nat) : result frame :=
  let rows := month_rows times month in
  match station with
  | None =>
      let month_data :=
        map (fun t => (t, map (fun col => mask_positive (nth t col NaN)) df)) rows in
      empirical_cdf ← lookup_cdf monthly_cdfs None month;
      match usable empirical_cdf with
      | Some e =>
          let z_scores := map (fun tr => (tr.1, map (z_score e) tr.2)) month_data in
          Ok (loc_set_rows transformed_data z_scores)
      | None =>
          Ok (loc_set_rows transformed_data
                (map (fun tr => (tr.1, map (fun _ => NaN) tr.2)) month_data))
      end
  | Some s =>
      let col := nth s df [] in
      let month_data :=
        List.filter (fun tv => gtb tv.2 (Num 0))
                    (map (fun t => (t, nth t col NaN)) rows) in
      empirical_cdf ← lookup_cdf monthly_cdfs (Some s) month;
      match usable empirical_cdf with
      | Some e =>
          let z_scores := map (fun tv => (tv.1, z_score e tv.2)) month_data in
          Ok (loc_set_column (length times) transformed_data s z_scores)
      | None =>
          (* a scalar cannot open a column in a frame without rows *)
          if (length times =? 0)%nat && negb (has_column transformed_data s)
          then Raise ValueError
          else Ok (loc_set_column (length times) transformed_data s
                     (map (fun tv => (tv.1, NaN)) month_data))
      end
  end.

(** The end of the month loop body: convert, fill, blank the stations
    that had no value at all. *)
Definition nqt_fill (ncols ntime : nat) (nan_columns : list nat)
    (min_z_value : fl) (transformed_data : frame) : result (list (list fl)) :=
  let transformed_data_array := to_numpy ntime transformed_data in
  let transformed_data_filled :=
    map (map (nan_to_num min_z_value)) transformed_data_array in
  for_each (seq 0 ncols)
    (fun filled col_index =>
       if bool_decide (col_index ∈ nan_columns)
       then set_column (length transformed_data) filled col_index NaN
       else Ok filled)
    transformed_data_filled.

(** [data] has one row per station; the result has one row per time
    stamp. *)
Definition normal_quantile_transform (data : list (list fl))
    (times : list nat) (monthly_cdfs : monthly_cdfs_t) (settings : Settings)
  : result (list (list fl)) :=
  let pooled := default true (pooled settings) in
  let min_z_value := default (Num (-4)) (min_z_value settings) in
  df ← make_df data times;
  let columns := seq 0 (length df) in
  let transformed_data :=
    nan_frame (length times) (if pooled then columns else []) in
  let nan_columns :=
    List.filter (fun col => forallb isnan (nth col df [])) columns in
  st ← for_each (seq 1 12)
         (fun (st : frame * option (list (list fl))) month =>
            transformed_data ←
              for_each (if pooled then [None] else map Some columns)
                (nqt_body df times monthly_cdfs month) st.1;
            transformed_data_filled ←
              nqt_fill (length df) (length times) nan_columns min_z_value
                transformed_data;
            Ok (transformed_data, Some transformed_data_filled))
         (transformed_data, None);
  match st.2 with
  | Some transformed_data_filled => Ok transformed_data_filled
  | None => Raise NameError
  end.

(** ** The inverse quantile-normal transform *)

(** [data.reshape(-1, len(data[0,0,]))] *)
Definition flatten3 (a : list (list (list fl))) : result (list (list fl)) :=
  plane ← index a 0;
  series ← index plane 0;
  if (length series =? 0)%nat then Raise ValueError else Ok (concat a).

(** [a.T] for a two-dimensional array *)
Definition transpose (a : list (list fl)) : list (list fl) :=
  map (fun j => map (fun row => nth j row NaN) a) (seq 0 (length (hd [] a))).

(** [a.reshape(nrows, ncols, -1)] for a two-dimensional array of
    [nrows * ncols] rows *)
Fixpoint reshape3 (nrows ncols : nat) (a : list (list fl))
  : list (list (list fl)) :=
  match nrows with
  | O => []
  | S nrows' => take ncols a :: reshape3 nrows' ncols (drop ncols a)
  end.

(** The frame [transformed_data] of the two inverse transforms; with
    another number of dimensions the name is never bound. *)
Definition frame_of_data (data : ndarray) (time : list nat)
  : result (list (list fl)) :=
  match data with
  | Array3 a => flattened_data ← flatten3 a; make_df flattened_data time
  | Array2 a => make_df a time
  | Array1 _ => Raise NameError
  end.

(** [back_transform_array], and for a grid its transpose reshaped to the
    shape of [data]. *)
Definition array_of_frame (data : ndarray) (ntime : nat) (fr : frame)
  : ndarray :=
  let back_transform_array := to_numpy ntime fr in
  match data with
  | Array3 a =>
      Array3 (reshape3 (length a) (length (hd [] a))
                (transpose back_transform_array))
  | _ => Array2 back_transform_array
  end.

(** Lines 227 to 230 and 358 to 362 on one value:
    [v[v < min_est_value] = np.nan] then [np.nan_to_num(v)]. *)
Definition filter_small (min_est_value : fl) (v : fl) : fl :=
  let v := if ltb v min_est_value then NaN else v in
  nan_to_num (Num 0) v.

(** The body of the station loop of the inverse transform. *)
Definition inqt_body (df : list (list fl)) (time : list nat)
    (monthly_cdfs : monthly_cdfs_t) (interp_method : string)
    (min_est_value : fl) (month : nat)
    (back_transformed_data : frame) (station : option nat) : result frame :=
  let rows := month_rows time month in
  empirical_cdf ← lookup_cdf monthly_cdfs station month;
  match usable empirical_cdf with
  | Some e =>
      if String.eqb interp_method "interp1d" then
        let value_interp := interp1d_extrapolate (CDF e) (Value e) in
        let back z := filter_small min_est_value (value_interp (norm_cdf z)) in
        match station with
        | None =>
            Ok (loc_set_rows back_transformed_data
                  (map (fun t => (t, map (fun col => back (nth t col NaN)) df)) rows))
        | Some s =>
            Ok (loc_set_column (length time) back_transformed_data s
                  (map (fun t => (t, back (nth t (nth s df []) NaN))) rows))
        end
      else Raise NameError
  | None =>
      match station with
      | None =>
          if loc_accepts_1d (length rows) (length df)
          then Ok (loc_set_rows back_transformed_data
                     (map (fun t => (t, map (fun _ => Num 0) df)) rows))
          else Raise ValueError
      | Some s =>
          Ok (loc_set_column (length time) back_transformed_data s
                (map (fun t => (t, Num 0)) rows))
      end
  end.

Definition inverse_normal_quantile_transform (data : ndarray)
    (time : list nat) (monthly_cdfs : monthly_cdfs_t) (settings : Settings)
  : result ndarray :=
  let pooled := default true (pooled settings) in
  let interp_method := default "interp1d"%string (interp_method settings) in
  let min_est_value := default (Num 0.01) (min_est_value settings) in
  transformed_data ← frame_of_data data time;
  let columns := seq 0 (length transformed_data) in
  let back_transformed_data := nan_frame (length time) columns in
  back_transformed_data ←
    for_each (seq 1 12)
      (fun back month =>
         for_each (if pooled then [None] else map Some columns)
           (inqt_body transformed_data time monthly_cdfs interp_method
              min_est_value month) back)
      back_transformed_data;
  Ok (array_of_frame data (length time) back_transformed_data).

(** ** The gamma transform and its inverse *)

(** The ['gamma_shape'] and ['gamma_scale'] variables of the station
    dataset, by station and month, and of the gridded dataset, by month
    (a two-dimensional array each). *)
Record gamma_station : Type := mkGammaStation {
  gamma_shape : gmap (nat * nat) fl;
  gamma_scale : gmap (nat * nat) fl
}.

Record gamma_gridded : Type := mkGammaGridded {
  grid_shape : gmap nat (list (list fl));
  grid_scale : gmap nat (list (list fl))
}.

(** The body of the station loop of [gamma_transform]. *)
Definition gamma_body (df : list (list fl)) (times : list nat)
    (gamma_stations_ds : gamma_station) (month : nat)
    (transformed_data : frame) (station : nat) : result frame :=
  let rows := month_rows times month in
  let month_data :=
    List.filter (fun tv => gtb tv.2 (Num 0))
                (map (fun t => (t, nth t (nth station df []) NaN)) rows) in
  if forallb (fun tv => isnan tv.2) month_data
  then Ok (loc_set_column (length times) transformed_data station
             (map (fun tv => (tv.1, NaN)) month_data))
  else
    a ← getitem (gamma_shape gamma_stations_ds) (station, month);
    scale ← getitem (gamma_scale gamma_stations_ds) (station, month);
    let loc := Num 0 in
    let z_scores :=
      map (fun tv => (tv.1, norm_ppf (gamma_cdf tv.2 a loc scale))) month_data in
    Ok (loc_set_column (length times) transformed_data station z_scores).

Definition gamma_transform (data : list (list fl)) (times : list nat)
    (settings : Settings) (gamma_stations_ds : gamma_station)
  : result (list (list fl)) :=
  let min_z_value := default (Num (-4)) (min_z_value settings) in
  df ← make_df data times;
  let stations := seq 0 (length df) in
  let transformed_data := nan_frame (length times) stations in
  transformed_data ←
    for_each (seq 1 12)
      (fun td month =>
         for_each stations (gamma_body df times gamma_stations_ds month) td)
      transformed_data;
  let transformed_data_array := to_numpy (length times) transformed_data in
  Ok (map (map (nan_to_num min_z_value)) transformed_data_array).

(** NumPy broadcasting of a one-dimensional array against length [n]. *)
Definition broadcast_to (n : nat) (a : list fl) : result (list fl) :=
  if (length a =? n)%nat then Ok a
  else match a with
       | [x] => Ok (repeat x n)
       | _ => Raise ValueError
       end.

(** The probabilities handed to [gamma.ppf], lines 336 to 337 (stations)
    and 349 to 351 (grid). *)
Definition cum_probs_station (z : fl) : fl := norm_cdf z.

Definition cum_probs_grid (z : fl) : fl := clip (norm_cdf z) 0 0.99999.

(** The body of the month loop of [gamma_back_transform]; the station
    loop has a single turn, over all columns at once. *)
Definition gamma_back_body (data : ndarray) (df : list (list fl))
    (time : list nat) (min_est_value : fl)
    (gamma_station_ds : gamma_station) (gamma_gridded_ds : option gamma_gridded)
    (back_transformed_data : frame) (month : nat) : result frame :=
  let rows := month_rows time month in
  let stations := seq 0 (length df) in
  let z_scores := map (fun t => (t, map (fun col => nth t col NaN) df)) rows in
  if ((length rows =? 0) || (length df =? 0))%nat
  then Ok back_transformed_data
  else
    original_values ←
      match data with
      | Array3 _ =>
          ds ← match gamma_gridded_ds with
               | Some ds => Ok ds
               | None => Raise TypeError
               end;
          a ← getitem (grid_shape ds) month;
          scale ← getitem (grid_scale ds) month;
          let loc := map (map (fun _ => Num 0)) scale in
          a_flat ← broadcast_to (length df) (concat a);
          loc_flat ← broadcast_to (length df) (concat loc);
          scale_flat ← broadcast_to (length df) (concat scale);
          Ok (map (fun tr =>
                     (tr.1, imap (fun j z =>
                                    gamma_ppf (cum_probs_grid z) (nth j a_flat NaN)
                                      (nth j loc_flat NaN) (nth j scale_flat NaN))
                                 tr.2))
                  z_scores)
      | _ =>
          gamma_shape ←
            mapM (fun s => getitem (gamma_shape gamma_station_ds) (s, month))
                 stations;
          gamma_scale ←
            mapM (fun s => getitem (gamma_scale gamma_station_ds) (s, month))
                 stations;
          Ok (map (fun tr =>
                     (tr.1, imap (fun j z =>
                                    gamma_ppf (cum_probs_station z)
                                      (nth j gamma_shape NaN) (Num 0)
                                      (nth j gamma_scale NaN))
                                 tr.2))
                  z_scores)
      end;
    Ok (loc_set_rows back_transformed_data
          (map (fun tr => (tr.1, map (filter_small min_est_value) tr.2))
               original_values)).

Definition gamma_back_transform (data : ndarray) (time : list nat)
    (settings : Settings) (gamma_station_ds : gamma_station)
    (gamma_gridded_ds : option gamma_gridded) : result ndarray :=
  let min_est_value := default (Num 0.01) (min_est_value settings) in
  transformed_data ← frame_of_data data time;
  let back_transformed_data :=
    nan_frame (length time) (seq 0 (length transformed_data)) in
  back_transformed_data ←
    for_each (seq 1 12)
      (gamma_back_body data transformed_data time min_est_value
         gamma_station_ds gamma_gridded_ds)
      back_transformed_data;
  Ok (array_of_frame data (length time) back_transformed_data).

(** ** The dispatcher *)

(** The array behind [data]; a value that is not an array object has no
    attribute [T]. *)
Definition deref (data : pyobj) : M ndarray :=
  match data with
  | Ref l => load l
  | PyList _ => raise AttributeError
  end.

(** The columns of [pd.DataFrame(data=data.T, index=times)] before the
    length check: a one-dimensional array is a single column, a
    three-dimensional one is refused. *)
Definition station_rows (a : ndarray) : result (list (list fl)) :=
  match a with
  | Array1 a => Ok [a]
  | Array2 a => Ok a
  | Array3 _ => Raise ValueError
  end.

(** [data.T if data.ndim == 2 else data] *)
Definition transpose_if_2d (a : ndarray) : ndarray :=
  match a with
  | Array2 a => Array2 (transpose a)
  | _ => a
  end.

(** [print(...); sys.exit()] *)
Definition print_and_exit {A} (line : string) : M A :=
  _ ← print line; raise SystemExit.

(** The optional arguments are taken as given: [times] is the index of
    time stamps (their months), [cdfs] the tables of the quantile
    transforms. *)
Definition data_transformation (data : pyobj) (method : string)
    (settings : Settings) (mode : string) (times : list nat)
    (cdfs : monthly_cdfs_t) (gamma_stations_ds : gamma_station)
    (gamma_gridded_ds : option gamma_gridded) : M loc :=
  if String.eqb method "boxcox" then
    if String.eqb mode "transform" then
      texp ← lift (setting (exponent settings));
      boxcox_transform data texp
    else if String.eqb mode "back_transform" then
      texp ← lift (setting (exponent settings));
      boxcox_back_transform data texp
    else print_and_exit ("Unknown transformation mode: entry= " +:+ mode)
  else if String.eqb method "ecdf" then
    if String.eqb mode "transform" then
      a ← deref data;
      rows ← lift (station_rows a);
      out ← lift (normal_quantile_transform rows times cdfs settings);
      alloc (Array2 (transpose out))
    else if String.eqb mode "back_transform" then
      a ← deref data;
      out ← lift (inverse_normal_quantile_transform a times cdfs settings);
      alloc (transpose_if_2d out)
    else print_and_exit ("Unknown transformation mode: entry= " +:+ mode)
  else if String.eqb method "gamma_monthly" then
    if String.eqb mode "transform" then
      a ← deref data;
      rows ← lift (station_rows a);
      out ← lift (gamma_transform rows times settings gamma_stations_ds);
      alloc (Array2 (transpose out))
    else if String.eqb mode "back_transform" then
      a ← deref data;
      out ← lift (gamma_back_transform a times settings gamma_stations_ds
                    gamma_gridded_ds);
      alloc (transpose_if_2d out)
    else print_and_exit ("Unknown transformation mode: entry= " +:+ mode)
  else print_and_exit ("Unknown transformation method: entry= " +:+ method).

End Transforms.

(** ** Vocabulary of the statements *)

(** Order on cells that are numbers. *)
Definition fl_le (a b : fl) : Prop :=
  match a, b with Num x, Num y => x <= y | _, _ => False end.

Definition fl_lt (a b : fl) : Prop :=
  match a, b with Num x, Num y => x < y | _, _ => False end.

(** The order of [np.sort] as a relation. *)
Definition sort_le (a b : fl) : Prop := sort_leb a b = true.

(** A positive number. *)
Definition positive_cell (a : fl) : Prop :=
  match a with Num x => 0 < x | NaN => False end.

(** A number in (0, 1]. *)
Definition probability_cell (a : fl) : Prop :=
  match a with Num x => 0 < x <= 1 | NaN => False end.

(** The cells of an array, row by row. *)
Definition cells (a : ndarray) : list fl :=
  match a with
  | Array1 a => a
  | Array2 a => concat a
  | Array3 a => concat (concat a)
  end.


(** What the two power transforms compute on one cell, [inv] being
    [1 / texp]. *)
Definition boxcox_cell (inv : R) (x : fl) : fl :=
  div (sub (power (clamp_below 0 x) (Num inv)) (Num 1)) (Num inv).

Definition back_cell (texp : R) (x : fl) : fl :=
  power (add (div (clamp_below (- texp) x) (Num texp)) (Num 1)) (Num texp).

(** Sample stores. *)
Definition sample_world : world :=
  mkWorld {[1%positive := Array1 [Num (-1); Num 2]]} [].

Definition sample_world_nonneg : world :=
  mkWorld {[1%positive := Array2 [[Num 0; Num 2]; [Num 5; Num 1]]]} [].

(** For the examples, stand-ins for the library functions: the uniform
    distribution on [[-5, 5]] in place of the normal one, the uniform
    distribution on [[0, scale]] in place of the gamma one.  A value of
    one dimension is never accepted for a block of rows and columns, so
    no example goes through line 238. *)
Definition sample_libs : Libs := {|
  norm_ppf p :=
    match p with
    | Num p => if Rle_dec 0 p then if Rle_dec p 1 then Num (10 * p - 5) else NaN
               else NaN
    | NaN => NaN
    end;
  norm_cdf z :=
    match z with
    | Num z => Num (Rmin (Rmax ((z + 5) / 10) 0) 1)
    | NaN => NaN
    end;
  gamma_cdf x a loc scale := clip (div (sub x loc) scale) 0 1;
  gamma_ppf q a loc scale := add loc (mul q scale);
  interp1d_extrapolate x y x_new := x_new;
  loc_accepts_1d k n := false
|}.

(** The empty settings dict: every option takes its default. *)
Definition sample_settings : Settings :=
  mkSettings None None None None None None None.

(** ** Vocabulary for the pooling of sparse stations *)

(** [cdfs[key][i]] when both keys are present. *)
Definition table_at (cdfs : station_cdfs) (key : Z) (i : nat) : option cdf_df :=
  months ← cdfs !! key; months !! i.

(** The values a neighbour contributes in month [i]. *)
Definition neighbour_values (cdfs : station_cdfs) (i : nat) (near : Z) : list fl :=
  match table_at cdfs near i with Some t => Value t | None => [] end.

(** The pool after [k] neighbours of [row]: the own values, then the
    values of each neighbour in turn. *)
Definition pooled_values (cdfs : station_cdfs) (row : list Z) (i : nat)
    (own : list fl) (k : nat) : list fl :=
  own ++ concat (map (neighbour_values cdfs i) (take k row)).

(** [k] neighbours are consulted when the pool sizes are [size]: at least
    one, at most five, stopping at the first size that reaches [min_obs]. *)
Definition consulted (min_obs : Z) (size : nat -> nat) (k : nat) : Prop :=
  (1 <= k <= 5)%nat /\
  (forall j, (j < k)%nat -> (Z.of_nat (size j) < min_obs)%Z) /\
  (k = 5%nat \/ (min_obs <= Z.of_nat (size k))%Z).

(** The row names five neighbours that have a table for month [i]. *)
Definition neighbours_ok (cdfs : station_cdfs) (row : list Z) (i : nat) : Prop :=
  (5 <= length row)%nat /\
  forall j near, (j < 5)%nat -> row !! j = Some near -> is_Some (table_at cdfs near i).

(** The outcome for one station and month. *)
Definition pooled_table (cdfs0 : station_cdfs) (nearby : list (list Z))
    (min_obs : Z) (s i : nat) (own_t new_t : cdf_df) : Prop :=
  if (Z.of_nat (length (Value own_t)) <? min_obs)%Z
  then exists row k,
         nearby !! s = Some row /\
         consulted min_obs
           (fun j => length (pooled_values cdfs0 row i (Value own_t) j)) k /\
         new_t = create_cdf_df (pooled_values cdfs0 row i (Value own_t) k)
  else new_t = own_t.

(** What the loop needs for month [p.1] and station [p.2]: the station's
    own table, and a row of neighbours with tables. *)
Definition pair_ok (cdfs : station_cdfs) (nearby : list (list Z)) (p : nat * nat) : Prop :=
  is_Some (table_at cdfs (Z.of_nat p.2) p.1) /\
  exists row, nearby !! p.2 = Some row /\ neighbours_ok cdfs row p.1.

(** The same with neighbours for a sparse table only: the station has
    its own table, and if that table has fewer than [min_obs] rows its
    row names five neighbours with tables.  A table that is large enough
    needs no neighbour. *)
Definition pair_ready (cdfs : station_cdfs) (nearby : list (list Z))
    (min_obs : Z) (p : nat * nat) : Prop :=
  exists own_t,
    table_at cdfs (Z.of_nat p.2) p.1 = Some own_t /\
    ((Z.of_nat (length (Value own_t)) < min_obs)%Z ->
     exists row, nearby !! p.2 = Some row /\ neighbours_ok cdfs row p.1).

(** Two dicts with the same keys. *)
Definition same_shape (c c' : station_cdfs) : Prop :=
  forall key j, is_Some (table_at c key j) <-> is_Some (table_at c' key j).

(** The two nested loops as one loop over (month, station) pairs. *)
Definition pool_step (nearby : list (list Z)) (min_obs : Z)
    (cdfs : station_cdfs) (p : nat * nat) : result station_cdfs :=
  pool_station nearby min_obs p.1 cdfs p.2.

Definition pool_pairs (measured_var : list (list fl)) : list (nat * nat) :=
  i ← seq 1 12; map (pair i) (stations_with_values measured_var).

(** A sample: station 0 has no value at all, station 1 has the single
    observation 3 in every month; each is the other's neighbour. *)
Definition sample_months (t : cdf_df) : gmap nat cdf_df :=
  list_to_map (map (fun i => (i, t)) (seq 1 12)).

Definition sample_cdfs : station_cdfs :=
  {[ 0%Z := sample_months []; 1%Z := sample_months [(Num 3, Num 1)] ]}.

Definition sample_measured_var : list (list fl) := [[NaN]; [Num 3]].

Definition sample_nearby : list (list Z) :=
  [[1; 1; 1; 1; 1]; [0; 0; 0; 0; 0]]%Z.

(** ** Closed forms of the frames and of the forward transform *)

Section ForwardVocabulary.
Context {libs : Libs}.

(** The frame whose column [j] holds [c j t] in row [t]. *)
Definition frame_of_cells (n ntime : nat) (c : nat -> nat -> fl) : frame :=
  map (fun j => (j, map (c j) (seq 0 ntime))) (seq 0 n).

(** The array with [c j t] in row [t], column [j]. *)
Definition matrix_of_cells (n ntime : nat) (c : nat -> nat -> fl) : list (list fl) :=
  map (fun t => map (fun j => c j t) (seq 0 n)) (seq 0 ntime).

(** The usable table for a station (or the pooled one) and a month. *)
Definition table_for (monthly_cdfs : monthly_cdfs_t) (station : option nat)
    (month : nat) : option cdf_df :=
  match lookup_cdf monthly_cdfs station month with
  | Ok o => usable o
  | Raise _ => None
  end.

(** The cell the forward transform computes for station [j] at time [t],
    before filling. *)
Definition forward_cell (pooled : bool) (data : list (list fl))
    (times : list nat) (monthly_cdfs : monthly_cdfs_t) (j t : nat) : fl :=
  let v := nth t (nth j data []) NaN in
  let month := month_of (nth t times 0%nat) in
  if pooled then
    match table_for monthly_cdfs None month with
    | Some e => z_score e (mask_positive v)
    | None => NaN
    end
  else if gtb v (Num 0) then
    match table_for monthly_cdfs (Some j) month with
    | Some e => z_score e v
    | None => NaN
    end
  else NaN.

(** Every table the loops ask for can be looked up. *)
Definition tables_ok (pooled : bool) (monthly_cdfs : monthly_cdfs_t)
    (n : nat) : Prop :=
  forall month, (1 <= month <= 12)%nat ->
    if pooled then exists o, lookup_cdf monthly_cdfs None month = Ok o
    else forall s, (s < n)%nat -> exists o, lookup_cdf monthly_cdfs (Some s) month = Ok o.

(** The cells after the months before [k]. *)
Definition forward_cells_upto (pooled : bool) (data : list (list fl))
    (times : list nat) (tbl : monthly_cdfs_t) (k : nat) (j t : nat) : fl :=
  if (month_of (nth t times 0%nat) <? k)%nat
  then forward_cell pooled data times tbl j t else NaN.

(** The array the forward transform returns, cell by cell. *)
Definition forward_output (pooled : bool) (min_z_value : fl)
    (data : list (list fl)) (times : list nat) (tbl : monthly_cdfs_t)
  : list (list fl) :=
  matrix_of_cells (length data) (length times)
    (fun j t => if forallb isnan (nth j data []) then NaN
                else nan_to_num min_z_value (forward_cell pooled data times tbl j t)).

End ForwardVocabulary.

(** A sample input of the quantile transforms: station 0 has no value,
    station 1 has the value 4, the largest of the table of January. *)
Definition sample_data : list (list fl) := [[NaN; NaN]; [Num 4; NaN]].
Definition sample_times : list nat := [0%nat; 1%nat].
Definition sample_table : cdf_df := [(Num 2, Num 0.5); (Num 4, Num 1)].
Definition sample_tables : monthly_cdfs_t := ByMonth {[ 1%nat := sample_table ]}.

(** The same table in every month, and per station: station 0 has the
    table in every month but February, where its table has no row. *)
Definition sample_tables_all : monthly_cdfs_t :=
  ByMonth (list_to_map (map (fun i => (i, sample_table)) (seq 1 12))).

Definition sample_tables_station : monthly_cdfs_t :=
  ByStation
    {[ 0%Z := <[2%nat := []]>
                (list_to_map (map (fun i => (i, sample_table)) (seq 1 12))) ]}.

Definition sample_settings_unpooled : Settings :=
  mkSettings (Some false) None None None None None None.

(** ** Closed forms of the inverse transforms *)

Section InverseVocabulary.
Context {libs : Libs}.

(** The stations of the loop of the two quantile transforms. *)
Definition loop_stations (pooled : bool) (n : nat) : list (option nat) :=
  if pooled then [None] else map Some (seq 0 n).

(** The inverse transform raises nothing: each table can be looked up, a
    usable table goes with the interpolation method ['interp1d'], and
    where the pooled table is not usable pandas accepts the zeros. *)
Definition inverse_ok (pooled : bool) (interp_method : string)
    (tbl : monthly_cdfs_t) (time : list nat) (n : nat) : Prop :=
  forall month station,
    (1 <= month <= 12)%nat -> station ∈ loop_stations pooled n ->
    exists o, lookup_cdf tbl station month = Ok o /\
      match usable o with
      | Some _ => interp_method = "interp1d"%string
      | None => station = None ->
                loc_accepts_1d (length (month_rows time month)) n = true
      end.

(** The cell the inverse transform computes for column [j] at time [t]. *)
Definition inverse_cell (pooled : bool) (df : list (list fl)) (time : list nat)
    (tbl : monthly_cdfs_t) (min_est_value : fl) (j t : nat) : fl :=
  match table_for tbl (if pooled then None else Some j)
          (month_of (nth t time 0%nat)) with
  | Some e =>
      filter_small min_est_value
        (interp1d_extrapolate (CDF e) (Value e) (norm_cdf (nth t (nth j df []) NaN)))
  | None => Num 0
  end.

Definition inverse_cells_upto (pooled : bool) (df : list (list fl))
    (time : list nat) (tbl : monthly_cdfs_t) (min_est_value : fl)
    (k : nat) (j t : nat) : fl :=
  if (month_of (nth t time 0%nat) <? k)%nat
  then inverse_cell pooled df time tbl min_est_value j t else NaN.

(** The shape, location and scale of each column in [month], as the
    body of the month loop fetches them: from the gridded dataset for a
    three-dimensional [data], from the station dataset otherwise. *)
Definition gamma_params (data : ndarray) (n : nat)
    (gamma_station_ds : gamma_station) (gamma_gridded_ds : option gamma_gridded)
    (month : nat) : result (list fl * list fl * list fl) :=
  match data with
  | Array3 _ =>
      ds ← match gamma_gridded_ds with
           | Some ds => Ok ds
           | None => Raise TypeError
           end;
      a ← getitem (grid_shape ds) month;
      scale ← getitem (grid_scale ds) month;
      a_flat ← broadcast_to n (concat a);
      loc_flat ← broadcast_to n (concat (map (map (fun _ => Num 0)) scale));
      scale_flat ← broadcast_to n (concat scale);
      Ok (a_flat, loc_flat, scale_flat)
  | _ =>
      gamma_shape ←
        mapM (fun s => getitem (gamma_shape gamma_station_ds) (s, month)) (seq 0 n);
      gamma_scale ←
        mapM (fun s => getitem (gamma_scale gamma_station_ds) (s, month)) (seq 0 n);
      Ok (gamma_shape, repeat (Num 0) n, gamma_scale)
  end.

(** The probability handed to [gamma.ppf] for the z-score [z]. *)
Definition cum_probs_of (data : ndarray) (z : fl) : fl :=
  match data with
  | Array3 _ => cum_probs_grid z
  | _ => cum_probs_station z
  end.

(** The cell the gamma inverse transform computes for column [j] at time
    [t]. *)
Definition gamma_back_cell (data : ndarray) (df : list (list fl))
    (time : list nat) (min_est_value : fl) (gamma_station_ds : gamma_station)
    (gamma_gridded_ds : option gamma_gridded) (j t : nat) : fl :=
  match gamma_params data (length df) gamma_station_ds gamma_gridded_ds
          (month_of (nth t time 0%nat)) with
  | Ok (a, loc, scale) =>
      filter_small min_est_value
        (gamma_ppf (cum_probs_of data (nth t (nth j df []) NaN))
           (nth j a NaN) (nth j loc NaN) (nth j scale NaN))
  | Raise _ => NaN
  end.

(** The gamma inverse transform raises nothing: the parameters of every
    month that has a row can be fetched. *)
Definition gamma_back_ok (data : ndarray) (df : list (list fl)) (time : list nat)
    (gamma_station_ds : gamma_station) (gamma_gridded_ds : option gamma_gridded)
  : Prop :=
  forall month, (1 <= month <= 12)%nat ->
    month_rows time month <> [] -> df <> [] ->
    exists ps,
      gamma_params data (length df) gamma_station_ds gamma_gridded_ds month = Ok ps.

Definition gamma_back_cells_upto (data : ndarray) (df : list (list fl))
    (time : list nat) (min_est_value : fl) (gamma_station_ds : gamma_station)
    (gamma_gridded_ds : option gamma_gridded) (k : nat) (j t : nat) : fl :=
  if (month_of (nth t time 0%nat) <? k)%nat
  then gamma_back_cell data df time min_est_value gamma_station_ds
         gamma_gridded_ds j t
  else NaN.

(** A number that is exactly 0 or not below [min_est_value]: neither
    missing nor a small value that escaped the filter. *)
Definition settled (min_est_value : fl) (v : fl) : Prop :=
  exists x, v = Num x /\ (x = 0 \/ ltb v min_est_value = false).

End InverseVocabulary.

(** Sample inputs of the inverse transforms: z-scores of one station at
    two time stamps, gamma parameters (shape 2, scale 3) for station 0 and
    for a grid of one cell, in every month. *)
Definition sample_z_scores : list (list fl) := [[Num 0.5; NaN]].

Definition sample_gamma_station : gamma_station :=
  mkGammaStation
    (list_to_map (map (fun m => ((0%nat, m), Num 2)) (seq 1 12)))
    (list_to_map (map (fun m => ((0%nat, m), Num 3)) (seq 1 12))).

Definition sample_gamma_gridded : gamma_gridded :=
  mkGammaGridded
    (list_to_map (map (fun m => (m, [[Num 2]])) (seq 1 12)))
    (list_to_map (map (fun m => (m, [[Num 3]])) (seq 1 12))).

Definition sample_grid : list (list (list fl)) := [[[Num 5; NaN]]].

(* ===================================================================== *)
(** * Part I, continued: the rest of the transformation code *)
(* ===================================================================== *)
(** ** The bias-adjusted inverse power transform *)

(** [b[mask(a)] = v] for two arrays of one shape. *)
Definition ndmask (mask : fl -> bool) (v : fl) (a b : ndarray) : ndarray :=
  let set x y := if mask x then v else y in
  match a, b with
  | Array1 a, Array1 b => Array1 (zip_with set a b)
  | Array2 a, Array2 b => Array2 (zip_with (zip_with set) a b)
  | Array3 a, Array3 b => Array3 (zip_with (zip_with (zip_with set)) a b)
  | _, _ => b
  end.

(** [sigma_square] and [texp] are Python numbers.  The copy is taken
    before the conversion to an array. *)
Definition boxcox_back_transform_biasadjustment (data : pyobj)
    (sigma_square texp : R) : M loc :=
  data ← match data with
         | Ref l => copy l
         | PyList a => alloc a
         end;
  a ← load data;
  _ ← store data (ndmap (clamp_below (- texp)) a);
  a ← load data;
  inv ← lift (py_inv texp);
  datat ← alloc (ndmap (fun x =>
                          mul (power (add (div x (Num texp)) (Num 1)) (Num texp))
                              (add (Num 1)
                                   (div (Num (sigma_square * (1 - inv)))
                                        (mul (Num 2)
                                             (power (add (div x (Num texp)) (Num 1))
                                                    (Num 2))))))
                       a);
  d ← load datat;
  _ ← store datat (ndmask (fun x => eqb x (Num (- texp))) (Num 0) a d);
  mret datat.

(** What the bias-adjusted transform computes on one cell. *)
Definition biasadjustment_cell (sigma_square texp : R) (x : fl) : fl :=
  let d := clamp_below (- texp) x in
  if eqb d (Num (- texp)) then Num 0
  else
    mul (power (add (div d (Num texp)) (Num 1)) (Num texp))
        (add (Num 1)
             (div (Num (sigma_square * (1 - 1 / texp)))
                  (mul (Num 2) (power (add (div d (Num texp)) (Num 1)) (Num 2))))).

(** ** Vocabulary for the tables *)

(** The observations a table is built from: the positive ones. *)
Definition positive_obs (data : list fl) : list fl :=
  List.filter (fun x => gtb x (Num 0)) data.


(** ** Noise on the values of the tables *)

(** NumPy's global random generator, as the stream of standard uniform
    draws (numbers in [[0, 1)]) it is going to deliver. *)
Definition rng : Type := nat -> R.

(** [np.random.uniform(low, high, n)]: [n] draws, each scaled to
    [low + (high - low) * u]; the generator moves on by [n]. *)
Definition uniform (low high : R) (n : nat) (g : rng) : list fl * rng :=
  (map (fun k => Num (low + (high - low) * g k)) (seq 0 n),
   fun k => g (n + k)%nat).

(** A Python dict as the list of its items in insertion order; the keys
    are distinct. *)
Definition odict (K V : Type) : Type := list (K * V).

(** A loop that rebinds every value of a dict, threading a state. *)
Fixpoint map_items {K V St} (f : V -> St -> V * St) (d : odict K V) (s : St)
  : odict K V * St :=
  match d with
  | [] => ([], s)
  | (k, v) :: d' =>
      let (v', s1) := f v s in
      let (d'', s2) := map_items f d' s1 in
      ((k, v') :: d'', s2)
  end.

(** The body of the loops of [interpolate_with_noise]: noise on the
    ['Value'] column, then the rows sorted by that column (whole rows
    move; [NaN] last).  Rows of equal value keep their order here; pandas'
    default sort does not promise an order for them. *)
Definition add_noise_to_table (noise_level : R) (cdf : cdf_df) (g : rng)
  : cdf_df * rng :=
  let (noise, g') := uniform (- noise_level) noise_level (length cdf) g in
  let cdf := combine (zip_with add (Value cdf) noise) (CDF cdf) in
  (sort_rows cdf, g').

(** The dict is updated in place and returned; the model returns the
    updated dict. *)
Definition interpolate_with_noise (cdfs : odict Z (odict nat cdf_df))
    (noise_level : R) (g : rng) : odict Z (odict nat cdf_df) * rng :=
  map_items (map_items (add_noise_to_table noise_level)) cdfs g.

(** ** Building the monthly tables *)

(** [month_frame.values.flatten()]: the rows of the month, one after the
    other. *)
Definition month_values (df : list (list fl)) (times : list nat) (month : nat)
  : list fl :=
  concat (map (fun t => map (fun col => nth t col NaN) df) (month_rows times month)).

(** [df[station][df.index.month == month].dropna()] *)
Definition station_month_values (df : list (list fl)) (times : list nat)
    (station month : nat) : list fl :=
  List.filter (fun x => negb (isnan x))
    (map (fun t => nth t (nth station df []) NaN) (month_rows times month)).

(** The dict of dicts as the map the later lookups use. *)
Definition dict_of (cdfs : odict Z (odict nat cdf_df)) : station_cdfs :=
  list_to_map (map (fun sm => (sm.1, list_to_map sm.2)) cdfs).

(** [stn_var] is [stn_ds[var_name]], one row per station, [time] the
    index [stn_ds['time']]; [nearby_stn_ds], when given, is its
    ['nearIndex_InStn_prcp'] table.  In the pooled branch neither the
    noise nor the neighbours are looked at. *)
Definition calculate_monthly_cdfs (stn_var : list (list fl)) (time : list nat)
    (settings : Settings) (nearby_stn_ds : option (list (list Z))) (g : rng)
  : result monthly_cdfs_t * rng :=
  let pooled := default true (pooled settings) in
  let min_num_obs := default 20%Z (min_num_obs settings) in
  let add_noise := default true (add_noise settings) in
  match make_df stn_var time with
  | Raise e => (Raise e, g)
  | Ok df =>
      if pooled then
        let cdfs : odict nat cdf_df :=
          map (fun month => (month, create_cdf_df (month_values df time month)))
              (seq 1 12) in
        (Ok (ByMonth (list_to_map cdfs)), g)
      else
        let cdfs : odict Z (odict nat cdf_df) :=
          map (fun station =>
                 (Z.of_nat station,
                  map (fun month =>
                         (month,
                          create_cdf_df (station_month_values df time station month)))
                      (seq 1 12)))
              (seq 0 (length df)) in
        let (cdfs, g) :=
          if add_noise then interpolate_with_noise cdfs 0.000001 g else (cdfs, g) in
        match nearby_stn_ds with
        | Some nearby =>
            (cdfs ← add_nearby_stations_to_cdfs (dict_of cdfs) stn_var nearby
                      min_num_obs;
             Ok (ByStation cdfs), g)
        | None => (Ok (ByStation (dict_of cdfs)), g)
        end
  end.

(** ** Vocabulary for the noise and for the tables of a data set *)

(** Every draw of the generator is in [[0, 1)]. *)
Definition unit_draws (g : rng) : Prop := forall k, 0 <= g k < 1.

(** Two dicts with the same keys in the same order and related values. *)
Definition same_keys {K V} (Rel : V -> V -> Prop) (d d' : odict K V) : Prop :=
  Forall2 (fun kv kv' => kv.1 = kv'.1 /\ Rel kv.2 kv'.2) d d'.

(** [t'] is [t] after noise of size at most [level]: its rows are the
    rows of [t] with a number between [-level] and [level] added to each
    value, probabilities untouched, in the order of the new values. *)
Definition noisy_table (level : R) (t t' : cdf_df) : Prop :=
  exists noise : list R,
    length noise = length t /\
    Forall (fun d => - level <= d <= level) noise /\
    Permutation t' (combine (zip_with add (Value t) (map Num noise)) (CDF t)) /\
    StronglySorted sort_le (Value t').


(** ** Vocabulary for the inverse transforms *)

Section InverseExtras.
Context {libs : Libs}.

(** Every table the loops of the inverse transform ask for can be looked
    up, and where the pooled table is not usable pandas accepts the
    zeros; nothing is said about the interpolation method. *)
Definition inverse_lookups_ok (pooled : bool) (tbl : monthly_cdfs_t)
    (time : list nat) (n : nat) : Prop :=
  forall month station,
    (1 <= month <= 12)%nat -> station ∈ loop_stations pooled n ->
    exists o, lookup_cdf tbl station month = Ok o /\
      (usable o = None -> station = None ->
       loc_accepts_1d (length (month_rows time month)) n = true).

End InverseExtras.

(** A grid of [ny] rows of [nx] series of [nt] values each. *)
Definition grid_shape_is (ny nx nt : nat) (a : list (list (list fl))) : Prop :=
  length a = ny /\
  Forall (fun plane => length plane = nx) a /\
  Forall (Forall (fun series : list fl => length series = nt)) a.

(** ** Vocabulary for the gamma transform *)

Section GammaForwardVocabulary.
Context {libs : Libs}.

(** The shape and the scale of a station in a month, when the station
    dataset has both. *)
Definition gamma_station_params (gamma_stations_ds : gamma_station)
    (j month : nat) : option (fl * fl) :=
  a ← gamma_shape gamma_stations_ds !! (j, month);
  scale ← gamma_scale gamma_stations_ds !! (j, month);
  Some (a, scale).

(** Station [j] has a positive observation in [month]. *)
Definition has_positive (data : list (list fl)) (times : list nat)
    (j month : nat) : Prop :=
  exists t, t ∈ month_rows times month /\
            gtb (nth t (nth j data []) NaN) (Num 0) = true.




End GammaForwardVocabulary.

(** The gridded dataset has, for every month with a time stamp, a shape
    and a scale array of [ny] rows of [nx] cells. *)
Definition grid_params_ok (gamma_gridded_ds : gamma_gridded) (time : list nat)
    (ny nx : nat) : Prop :=
  forall month, month_rows time month <> [] ->
    exists A S,
      grid_shape gamma_gridded_ds !! month = Some A /\
      grid_scale gamma_gridded_ds !! month = Some S /\
      length A = ny /\ Forall (fun row => length row = nx) A /\
      length S = ny /\ Forall (fun row => length row = nx) S.

(** ** A sample store *)

(** A store with one array of one station and two time stamps. *)
Definition sample_world_station : world :=
  mkWorld {[1%positive := Array2 [[Num 2; NaN]]]} [].

(** The table of month [p.1] and station [p.2] is there and has at least
    [min_obs] rows. *)
Definition enough_obs (cdfs : station_cdfs) (min_obs : Z) (p : nat * nat) : Prop :=
  exists t, table_at cdfs (Z.of_nat p.2) p.1 = Some t /\
            (min_obs <= Z.of_nat (length t))%Z.

(** ** The power transform in floating point *)

(** The exact reals of [Float] cannot say how far the round trip of the
    power transform is from its input, nor where it breaks down.  Two
    further readings of the same two functions do: [Rounded], where
    every operation returns the rounding of its exact result, for the
    error bound; and [Binary64], on the binary64 numbers themselves, for
    runs at concrete inputs.  Both leave the store aside (the transforms
    work on a copy, see [boxcox_transform]) and take the array as the
    list of its cells. *)

(** *** Rounded arithmetic *)

(** A cell is a finite float, or [None] for a value that is not finite
    (an infinity or [NaN]), which this arithmetic does not follow
    further. *)
Module Rounded.

Record arith : Type := mkArith {
  (** rounding to the nearest float, were the exponent unbounded above *)
  rnd : R -> R;
  (** the library's [pow] on finite arguments *)
  fpow : R -> R -> option R;
  (** the largest finite float *)
  max_float : R
}.

Section Operations.
Variable A : arith.

(** The float for the exact result [z]: [rnd A z], unless it overflows. *)
Definition round (z : R) : option R :=
  if Rle_dec (Rabs (rnd A z)) (max_float A) then Some (rnd A z) else None.

Definition sub (x y : R) : option R := round (x - y).
Definition add (x y : R) : option R := round (x + y).

(** NumPy's division: a zero divisor gives an infinity or [NaN]. *)
Definition div (x y : R) : option R :=
  if Req_dec_T y 0 then None else round (x / y).

(** [data[data < bound] = bound] *)
Definition clamp_below (bound x : R) : R :=
  if Rlt_dec x bound then bound else x.

(** [1 / texp] on Python floats. *)
Definition py_inv (texp : R) : result (option R) :=
  if Req_dec_T texp 0 then Raise ZeroDivisionError else Ok (round (1 / texp)).

(** [(x ** inv - 1) / inv] on one cell. *)
Definition boxcox_cell (inv x : option R) : option R :=
  x ← x; inv ← inv; p ← fpow A x inv; s ← sub p 1; div s inv.

Definition boxcox_transform (data : list (option R)) (texp : R)
  : result (list (option R)) :=
  let data := map (fmap (clamp_below 0)) data in
  inv ← py_inv texp;
  Ok (map (boxcox_cell inv) data).

(** [(x / texp + 1) ** texp] on one cell. *)
Definition boxcox_back_cell (texp : R) (x : option R) : option R :=
  x ← x; q ← div x texp; b ← add q 1; fpow A b texp.

Definition boxcox_back_transform (data : list (option R)) (texp : R)
  : result (list (option R)) :=
  let data := map (fmap (clamp_below (- texp))) data in
  Ok (map (boxcox_back_cell texp) data).

End Operations.

(** What IEEE 754 gives for binary64 with [u = 2^-53] and
    [eta = 2^-1075]: an operation is correctly rounded (the error is at
    most [u] times the exact value, or [eta] where the result is
    subnormal), rounding is monotone and leaves 0 and -1 as they are.
    Of [pow]: a finite result accurate to one unit in the last place
    where the exact power is well inside the range, and [pow(0, y) = 0]
    for [y > 0]. *)
Record ieee (u eta : R) (A : arith) : Prop := mkIeee {
  rnd_error : forall z, Rabs (rnd A z - z) <= u * Rabs z + eta;
  rnd_monotone : forall x y, x <= y -> rnd A x <= rnd A y;
  rnd_zero : rnd A 0 = 0;
  rnd_minus_one : rnd A (-1) = -1;
  fpow_error : forall x y, 0 < x -> 2 * Rpower x y <= max_float A ->
    exists p, fpow A x y = Some p /\
              Rabs (p - Rpower x y) <= 2 * (u * Rpower x y + eta);
  fpow_zero : forall y, 0 < y -> fpow A 0 y = Some 0
}.

(** [pow] does not reverse the order of two bases under a positive
    exponent. *)
Definition fpow_monotone (A : arith) : Prop :=
  forall a a' b p p',
    0 <= a <= a' -> 0 < b ->
    fpow A a b = Some p -> fpow A a' b = Some p' -> p <= p'.

(** The exact power [x ** inv] for the rounded exponent [inv]. *)
Definition pivot (x inv : R) : R :=
  if Req_dec_T x 0 then 0 else Rpower x inv.

(** Exact arithmetic is an instance, with no error at all. *)
Definition exact : arith :=
  mkArith (fun z => z)
          (fun x y => Some (if Req_dec_T x 0 then 0 else Rpower x y))
          (10 ^ 308).

End Rounded.

(** *** Binary64 *)

(** The two transforms on binary64 numbers, with the operations of IEEE
    754 ([PrimFloat]); [pow] is the library's and is a parameter. *)
Module Binary64.
Import Floats.

Definition clamp_below (bound x : float) : float :=
  if PrimFloat.ltb x bound then bound else x.

Definition py_inv (texp : float) : result float :=
  if PrimFloat.eqb texp 0%float then Raise ZeroDivisionError
  else Ok (PrimFloat.div 1%float texp).

Definition boxcox_transform (pow : float -> float -> float)
    (data : list float) (texp : float) : result (list float) :=
  let data := map (clamp_below 0%float) data in
  inv ← py_inv texp;
  Ok (map (fun x => PrimFloat.div (PrimFloat.sub (pow x inv) 1%float) inv) data).

Definition boxcox_back_transform (pow : float -> float -> float)
    (data : list float) (texp : float) : result (list float) :=
  let data := map (clamp_below (PrimFloat.opp texp)) data in
  Ok (map (fun x => pow (PrimFloat.add (PrimFloat.div x texp) 1%float) texp) data).

(** [np.isclose(a, b)] with its default tolerances: [|a - b|] at most
    [1e-8 + 1e-5 * |b|]. *)
Definition isclose (a b : float) : bool :=
  PrimFloat.leb (PrimFloat.abs (PrimFloat.sub a b))
    (PrimFloat.add (PrimFloat.div 1%float 1e8%float)
       (PrimFloat.mul (PrimFloat.div 1%float 1e5%float) (PrimFloat.abs b))).

(** For the examples, a stand-in for [pow] that knows the values the
    examples need: the special cases of C99 ([pow(x, 0) = 1],
    [pow(1, y) = 1], an infinite base), the overflow of [2 ** 1024] and
    [5 ** 1e-17], which rounds to 1. *)
Definition sample_pow (x y : float) : float :=
  if PrimFloat.eqb y 0%float then 1%float
  else if PrimFloat.eqb x 1%float then 1%float
  else if PrimFloat.eqb x infinity then
         (if PrimFloat.ltb 0%float y then infinity else 0%float)
  else if PrimFloat.eqb x 2%float && PrimFloat.eqb y 1024%float then infinity
  else if PrimFloat.eqb x 5%float
          && PrimFloat.eqb y (PrimFloat.div 1%float 1e17%float) then 1%float
  else nan.

End Binary64.
(* ===================================================================== *)
(** * Part II: properties *)
(* ===================================================================== *)

(** ** Comparisons *)

Lemma ltb_true x y : x < y -> ltb (Num x) (Num y) = true.
Proof. intros. unfold ltb. destruct (Rlt_dec x y); [reflexivity | lra]. Qed.

Lemma ltb_false x y : y <= x -> ltb (Num x) (Num y) = false.
Proof. intros. unfold ltb. destruct (Rlt_dec x y); [lra | reflexivity]. Qed.

Lemma gtb_true x y : y < x -> gtb (Num x) (Num y) = true.
Proof. intros. unfold gtb. now apply ltb_true. Qed.

Lemma gtb_false x y : x <= y -> gtb (Num x) (Num y) = false.
Proof. intros. unfold gtb. now apply ltb_false. Qed.

Lemma gtb_positive a : gtb a (Num 0) = true <-> positive_cell a.
Proof.
  destruct a as [|x]; cbn; [split; [discriminate | tauto] |].
  destruct (Rlt_dec 0 x); split; intros; try reflexivity; try lra; discriminate.
Qed.

Lemma sort_leb_total a b : sort_leb a b = false -> sort_leb b a = true.
Proof.
  destruct a as [|x], b as [|y]; cbn; try reflexivity; try discriminate.
  destruct (Rle_dec x y), (Rle_dec y x); intros; try reflexivity; try discriminate; lra.
Qed.

Lemma sort_leb_trans a b c :
  sort_leb a b = true -> sort_leb b c = true -> sort_leb a c = true.
Proof.
  destruct a as [|x], b as [|y], c as [|z]; cbn; try reflexivity; try discriminate.
  destruct (Rle_dec x y), (Rle_dec y z), (Rle_dec x z);
    intros; try reflexivity; try discriminate; lra.
Qed.

Lemma sort_leb_num x y : sort_leb (Num x) (Num y) = true <-> x <= y.
Proof. cbn. destruct (Rle_dec x y); split; intros; try reflexivity; try lra; discriminate. Qed.

(** ** [np.sort] *)

Lemma insert_sorted_perm a l : Permutation (insert_sorted a l) (a :: l).
Proof.
  induction l as [|b l IH]; cbn; [reflexivity |].
  destruct (sort_leb a b); [reflexivity |].
  rewrite IH. apply perm_swap.
Qed.

Lemma np_sort_perm l : Permutation (np_sort l) l.
Proof.
  induction l as [|a l IH]; cbn; [reflexivity |].
  rewrite insert_sorted_perm. now constructor.
Qed.

Lemma np_sort_length l : length (np_sort l) = length l.
Proof. apply Permutation_length, np_sort_perm. Qed.

Lemma insert_sorted_sorted a l :
  Sorted sort_le l -> Sorted sort_le (insert_sorted a l).
Proof.
  induction 1 as [|b l Hs IH Hhd]; cbn; [repeat constructor |].
  destruct (sort_leb a b) eqn:E.
  - repeat constructor; assumption.
  - constructor; [assumption |].
    apply sort_leb_total in E.
    destruct Hhd as [|c l Hbc]; cbn; [repeat constructor; exact E |].
    destruct (sort_leb a c); constructor; assumption.
Qed.

Lemma np_sort_sorted l : StronglySorted sort_le (np_sort l).
Proof.
  apply Sorted_StronglySorted.
  - intros a b c. apply sort_leb_trans.
  - induction l; cbn; [constructor | now apply insert_sorted_sorted].
Qed.

(** A sorted list has one sorted arrangement only, so any correct sort
    stands for [np.sort]. *)
Lemma sorted_perm_unique l1 l2 :
  Forall (fun a => isnan a = false) l1 ->
  StronglySorted sort_le l1 -> StronglySorted sort_le l2 ->
  Permutation l1 l2 -> l1 = l2.
Proof.
  revert l2. induction l1 as [|a l1 IH]; intros l2 Hn S1 S2 P.
  - apply Permutation_nil in P. now subst.
  - destruct l2 as [|b l2]; [apply Permutation_sym, Permutation_nil in P; discriminate |].
    inversion Hn as [|? ? Ha Hn']; subst.
    inversion S1 as [|? ? S1' H1]; subst. inversion S2 as [|? ? S2' H2]; subst.
    assert (Hnb : isnan b = false).
    { assert (Hin : In b (a :: l1)) by (eapply Permutation_in; [symmetry; exact P | now left]).
      rewrite Forall_forall in Hn. apply Hn. apply list_elem_of_In. exact Hin. }
    assert (a = b).
    { assert (Hab : In a (b :: l2)) by (eapply Permutation_in; [exact P | now left]).
      assert (Hba : In b (a :: l1)) by (eapply Permutation_in; [symmetry; exact P | now left]).
      destruct Hab as [->|Hab]; [reflexivity |].
      destruct Hba as [->|Hba]; [reflexivity |].
      rewrite Forall_forall in H1, H2.
      apply list_elem_of_In in Hab, Hba.
      specialize (H1 _ Hba). specialize (H2 _ Hab). unfold sort_le in *.
      destruct a as [|x], b as [|y]; try discriminate.
      apply sort_leb_num in H1, H2. f_equal. lra. }
    subst b. f_equal. apply IH; try assumption.
    eapply Permutation_cons_inv; exact P.
Qed.

(** ** The empirical CDF builder *)

Lemma arange_div_length n : length (arange_div n) = n.
Proof. unfold arange_div. now rewrite length_map, length_seq. Qed.

Lemma Value_combine (l k : list fl) : length l = length k -> Value (combine l k) = l.
Proof.
  unfold Value. revert k. induction l as [|a l IH]; intros [|b k] H; cbn in *;
    try reflexivity; try discriminate.
  f_equal. apply IH. lia.
Qed.

Lemma CDF_combine (l k : list fl) : length l = length k -> CDF (combine l k) = k.
Proof.
  unfold CDF. revert k. induction l as [|a l IH]; intros [|b k] H; cbn in *;
    try reflexivity; try discriminate.
  f_equal. apply IH. lia.
Qed.

Lemma create_cdf_df_Value data :
  Value (create_cdf_df data)
  = np_sort (List.filter (fun x => gtb x (Num 0)) data).
Proof. unfold create_cdf_df. apply Value_combine. now rewrite arange_div_length. Qed.

Lemma create_cdf_df_CDF data :
  CDF (create_cdf_df data)
  = arange_div (length (List.filter (fun x => gtb x (Num 0)) data)).
Proof.
  unfold create_cdf_df. rewrite CDF_combine by now rewrite arange_div_length.
  now rewrite np_sort_length.
Qed.

Lemma create_cdf_df_length data :
  length (create_cdf_df data)
  = length (List.filter (fun x => gtb x (Num 0)) data).
Proof.
  rewrite <- (length_map fst). fold (Value (create_cdf_df data)).
  now rewrite create_cdf_df_Value, np_sort_length.
Qed.

Lemma filter_positive data :
  Forall positive_cell (List.filter (fun x => gtb x (Num 0)) data).
Proof.
  apply Forall_forall. intros x Hx. apply list_elem_of_In, filter_In in Hx.
  now apply gtb_positive.
Qed.

Lemma create_cdf_df_positive data : Forall positive_cell (Value (create_cdf_df data)).
Proof.
  rewrite create_cdf_df_Value.
  eapply Permutation_Forall; [symmetry; apply np_sort_perm | apply filter_positive].
Qed.

Lemma sorted_numbers l :
  Forall positive_cell l -> StronglySorted sort_le l -> StronglySorted fl_le l.
Proof.
  intros Hp. induction 1 as [|a l Hs IH Ha]; [constructor |].
  inversion Hp as [|? ? Hpa Hpl]; subst.
  constructor; [now apply IH |].
  rewrite Forall_forall in *. intros b Hb.
  specialize (Ha b Hb). specialize (Hpl b Hb).
  destruct a, b; cbn in *; try contradiction.
  now apply sort_leb_num.
Qed.

Lemma arange_div_probability n : Forall probability_cell (arange_div n).
Proof.
  unfold arange_div. apply Forall_forall. intros p Hp.
  apply list_elem_of_In, in_map_iff in Hp. destruct Hp as (k & <- & Hk).
  apply in_seq in Hk. cbn.
  assert (0 < INR k) by (apply lt_0_INR; lia).
  assert (INR k <= INR n) by (apply le_INR; lia).
  split.
  - apply Rdiv_lt_0_compat; lra.
  - apply Rmult_le_reg_r with (INR n); [lra |].
    unfold Rdiv. rewrite Rmult_assoc, Rinv_l by lra. lra.
Qed.

(** The probabilities are the ranks over the count, strictly increasing. *)
Lemma arange_div_lookup n k :
  (k < n)%nat -> arange_div n !! k = Some (Num (INR (S k) / INR n)).
Proof.
  intros H. unfold arange_div.
  rewrite list_lookup_fmap, lookup_seq_lt by lia. reflexivity.
Qed.

Lemma empty_length (table : cdf_df) : empty table = (length table =? 0)%nat.
Proof. now destruct table. Qed.

Lemma forallb_negb_filter {A} (f : A -> bool) (l : list A) :
  forallb (fun x => negb (f x)) l = (length (List.filter f l) =? 0)%nat.
Proof.
  induction l as [|a l IH]; cbn; [reflexivity |].
  destruct (f a); cbn; [reflexivity | exact IH].
Qed.

(** C4.  The observations [0, 0, 2, 4, 4, 6] of one month give the table
    with values [2, 4, 4, 6] and probabilities [0.25, 0.5, 0.75, 1.0]:
    the zeros are left out and the rank over the count, from rank 1, is
    the probability. *)
Theorem create_cdf_df_example :
  let table := create_cdf_df [Num 0; Num 0; Num 2; Num 4; Num 4; Num 6] in
  Value table = [Num 2; Num 4; Num 4; Num 6] /\
  CDF table = [Num 0.25; Num 0.5; Num 0.75; Num 1].
Proof.
  cbv zeta. rewrite create_cdf_df_Value, create_cdf_df_CDF.
  assert (E : List.filter (fun x => gtb x (Num 0))
                [Num 0; Num 0; Num 2; Num 4; Num 4; Num 6]
              = [Num 2; Num 4; Num 4; Num 6]).
  { cbn [List.filter].
    rewrite (gtb_false 0 0), (gtb_true 2 0), (gtb_true 4 0), (gtb_true 6 0) by lra.
    reflexivity. }
  rewrite E. split.
  - unfold np_sort. repeat (cbn [fold_right insert_sorted sort_leb]; rcmp).
    reflexivity.
  - unfold arange_div. cbn [length seq map INR].
    repeat (f_equal; try lra).
Qed.

(** C5, the claim as stated fails: with a repeated positive observation
    the value column repeats it and is not strictly increasing. *)
Lemma create_cdf_df_duplicates_not_strict :
  Value (create_cdf_df [Num 4; Num 4]) = [Num 4; Num 4] /\
  ~ StronglySorted fl_lt (Value (create_cdf_df [Num 4; Num 4])).
Proof.
  assert (E : Value (create_cdf_df [Num 4; Num 4]) = [Num 4; Num 4]).
  { rewrite create_cdf_df_Value. cbn [List.filter].
    rewrite (gtb_true 4 0) by lra.
    unfold np_sort. repeat (cbn [fold_right insert_sorted sort_leb]; rcmp).
    reflexivity. }
  split; [exact E |].
  rewrite E. intros H. inversion H as [|? ? _ Hall]; subst.
  inversion Hall as [|? ? Hlt _]; subst. cbn in Hlt. lra.
Qed.

(** C5 as amended.  For every observation series the value column of the
    table is non-decreasing and made of the positive observations (in
    sorted order, repetitions kept), the probability column lies in
    (0, 1], the two columns have the length of the positive observations,
    and the table is empty exactly when no observation is positive. *)
Theorem create_cdf_df_invariant (data : list fl) :
  let table := create_cdf_df data in
  StronglySorted fl_le (Value table) /\
  Permutation (Value table) (List.filter (fun x => gtb x (Num 0)) data) /\
  Forall positive_cell (Value table) /\
  Forall probability_cell (CDF table) /\
  empty table = forallb (fun x => negb (gtb x (Num 0))) data.
Proof.
  cbv zeta. repeat split.
  - apply sorted_numbers; [apply create_cdf_df_positive |].
    rewrite create_cdf_df_Value. apply np_sort_sorted.
  - rewrite create_cdf_df_Value. apply np_sort_perm.
  - apply create_cdf_df_positive.
  - rewrite create_cdf_df_CDF. apply arange_div_probability.
  - rewrite empty_length, create_cdf_df_length. symmetry.
    apply forallb_negb_filter.
Qed.

(** ** The power transform *)

Lemma fresh_lookup (h : gmap loc ndarray) : h !! fresh (dom h) = None.
Proof. apply not_elem_of_dom, is_fresh. Qed.

Lemma fresh_ne (h : gmap loc ndarray) l a : h !! l = Some a -> l <> fresh (dom h).
Proof. intros H ->. rewrite fresh_lookup in H. discriminate. Qed.

Lemma bind_run {A B} (m : M A) (f : A -> M B) w :
  (m ≫= f) w = match m w with (Ok a, w') => f a w' | (Raise e, w') => (Raise e, w') end.
Proof. reflexivity. Qed.

Lemma load_run l a w : heap w !! l = Some a -> load l w = (Ok a, w).
Proof. intros H. unfold load. now rewrite H. Qed.

Lemma store_run l a b w :
  heap w !! l = Some b ->
  store l a w = (Ok tt, mkWorld (<[l := a]> (heap w)) (stdout w)).
Proof. intros H. unfold store. now rewrite H. Qed.

Lemma copy_run l a w :
  heap w !! l = Some a ->
  copy l w = (Ok (fresh (dom (heap w))),
              mkWorld (<[fresh (dom (heap w)) := a]> (heap w)) (stdout w)).
Proof. intros H. unfold copy. rewrite bind_run, (load_run l a) by exact H. reflexivity. Qed.

Lemma boxcox_from_array l a texp w :
  heap w !! l = Some a ->
  let l1 := fresh (dom (heap w)) in
  let h1 := <[l1 := ndmap (clamp_below 0) a]> (heap w) in
  (data ← copy l;
   a ← load data;
   _ ← store data (ndmap (clamp_below 0) a);
   inv ← lift (py_inv texp);
   a ← load data;
   alloc (ndmap (fun x => div (sub (power x (Num inv)) (Num 1)) (Num inv)) a)) w
  = match py_inv texp with
    | Ok inv => (Ok (fresh (dom h1)),
                 mkWorld (<[fresh (dom h1) := ndmap (fun x => div (sub (power x (Num inv)) (Num 1)) (Num inv)) (ndmap (clamp_below 0) a)]> h1) (stdout w))
    | Raise e => (Raise e, mkWorld h1 (stdout w))
    end.
Proof.
  intros H l1 h1.
  rewrite bind_run, (copy_run l a) by exact H. fold l1.
  rewrite bind_run, (load_run l1 a) by (cbn; apply lookup_insert_eq).
  rewrite bind_run, (store_run l1 _ a) by (cbn; apply lookup_insert_eq).
  cbn [heap stdout]. rewrite insert_insert_eq. fold h1.
  rewrite bind_run. unfold lift at 1.
  destruct (py_inv texp) as [inv|e]; [|reflexivity].
  rewrite bind_run, (load_run l1 (ndmap (clamp_below 0) a)) by (cbn; apply lookup_insert_eq).
  reflexivity.
Qed.

Lemma ndmap_ndmap f g a : ndmap f (ndmap g a) = ndmap (fun x => f (g x)) a.
Proof.
  destruct a; cbn; f_equal; rewrite map_map; try reflexivity.
  - apply map_ext. intros. now rewrite map_map.
  - apply map_ext. intros. rewrite map_map. apply map_ext. intros. now rewrite map_map.
Qed.

Lemma ndmap_id f a : Forall (fun c => f c = c) (cells a) -> ndmap f a = a.
Proof.
  assert (M1 : forall l : list fl, Forall (fun c => f c = c) l -> map f l = l).
  { induction 1; cbn; congruence. }
  assert (M2 : forall l : list (list fl),
             Forall (fun c => f c = c) (concat l) -> map (map f) l = l).
  { induction l as [|r l IH]; cbn; [reflexivity |].
    intros H. apply Forall_app in H. destruct H. f_equal; auto. }
  destruct a as [a|a|a]; cbn; intros H; f_equal; auto.
  induction a as [|r a IH]; cbn in *; [reflexivity |].
  rewrite concat_app in H. apply Forall_app in H. destruct H. f_equal; auto.
Qed.

Lemma boxcox_transform_run l a texp w :
  heap w !! l = Some a -> texp <> 0 ->
  let h1 := <[fresh (dom (heap w)) := ndmap (clamp_below 0) a]> (heap w) in
  boxcox_transform (Ref l) texp w
  = (Ok (fresh (dom h1)),
     mkWorld (<[fresh (dom h1) := ndmap (boxcox_cell (1 / texp)) a]> h1) (stdout w)).
Proof.
  intros H He h1. unfold boxcox_transform, as_ndarray.
  rewrite bind_run. unfold mret at 1, M_ret at 1.
  rewrite (boxcox_from_array l a texp w H).
  unfold py_inv. destruct (Req_dec_T texp 0); [contradiction |].
  fold h1. now rewrite ndmap_ndmap.
Qed.

Lemma boxcox_back_transform_run l a texp w :
  heap w !! l = Some a ->
  let h1 := <[fresh (dom (heap w)) := ndmap (clamp_below (- texp)) a]> (heap w) in
  boxcox_back_transform (Ref l) texp w
  = (Ok (fresh (dom h1)),
     mkWorld (<[fresh (dom h1) := ndmap (back_cell texp) a]> h1) (stdout w)).
Proof.
  intros H h1. unfold boxcox_back_transform, as_ndarray.
  rewrite bind_run. unfold mret at 1, M_ret at 1.
  rewrite bind_run, (copy_run l a) by exact H.
  set (l1 := fresh (dom (heap w))) in *.
  rewrite bind_run, (load_run l1 a) by (cbn; apply lookup_insert_eq).
  rewrite bind_run, (store_run l1 _ a) by (cbn; apply lookup_insert_eq).
  cbn [heap stdout]. rewrite insert_insert_eq. fold h1.
  rewrite bind_run, (load_run l1 (ndmap (clamp_below (- texp)) a))
    by (cbn; apply lookup_insert_eq).
  unfold alloc. cbn [heap stdout]. now rewrite ndmap_ndmap.
Qed.

Lemma boxcox_back_from_array l a texp w :
  heap w !! l = Some a ->
  let h1 := <[fresh (dom (heap w)) := ndmap (clamp_below (- texp)) a]> (heap w) in
  (data ← copy l;
   a ← load data;
   _ ← store data (ndmap (clamp_below (- texp)) a);
   a ← load data;
   alloc (ndmap (fun x => power (add (div x (Num texp)) (Num 1)) (Num texp)) a)) w
  = (Ok (fresh (dom h1)),
     mkWorld (<[fresh (dom h1) := ndmap (back_cell texp) a]> h1) (stdout w)).
Proof.
  intros H h1.
  rewrite bind_run, (copy_run l a) by exact H.
  set (l1 := fresh (dom (heap w))) in *.
  rewrite bind_run, (load_run l1 a) by (cbn; apply lookup_insert_eq).
  rewrite bind_run, (store_run l1 _ a) by (cbn; apply lookup_insert_eq).
  cbn [heap stdout]. rewrite insert_insert_eq. fold h1.
  rewrite bind_run, (load_run l1 (ndmap (clamp_below (- texp)) a))
    by (cbn; apply lookup_insert_eq).
  unfold alloc. cbn [heap stdout]. now rewrite ndmap_ndmap.
Qed.

Lemma copy_dangling l w : heap w !! l = None -> copy l w = (Raise DanglingRef, w).
Proof. intros H. unfold copy. rewrite bind_run. unfold load. now rewrite H. Qed.

Lemma insert_fresh_lookup (h : gmap loc ndarray) l a b :
  h !! l = Some a -> <[fresh (dom h) := b]> h !! l = Some a.
Proof. intros H. rewrite lookup_insert_ne; [exact H | symmetry; eapply fresh_ne, H]. Qed.

(** C9.  Neither power transform writes into an array object of the
    caller: whatever [data] and [texp] are, and whether the call returns
    or raises, every array that was in the store before the call (the one
    passed as [data] among them) holds the same cells after it.  The
    clamping is done on the copy. *)
Theorem boxcox_input_unchanged (w : world) (data : pyobj) (texp : R)
    (l : loc) (a : ndarray) :
  heap w !! l = Some a ->
  heap (boxcox_transform data texp w).2 !! l = Some a /\
  heap (boxcox_back_transform data texp w).2 !! l = Some a.
Proof.
  intros H. split.
  - unfold boxcox_transform. rewrite bind_run.
    destruct data as [l0|a0]; cbn [as_ndarray].
    + unfold mret at 1, M_ret at 1.
      destruct (heap w !! l0) as [a0|] eqn:E0.
      * rewrite (boxcox_from_array l0 a0 texp w E0).
        destruct (py_inv texp); cbn [snd heap];
          repeat (apply insert_fresh_lookup); exact H.
      * rewrite bind_run, copy_dangling by exact E0. exact H.
    + unfold alloc at 1.
      rewrite (boxcox_from_array _ a0 texp) by (cbn; apply lookup_insert_eq).
      destruct (py_inv texp); cbn [snd heap];
        repeat (apply insert_fresh_lookup); exact H.
  - unfold boxcox_back_transform. rewrite bind_run.
    destruct data as [l0|a0]; cbn [as_ndarray].
    + unfold mret at 1, M_ret at 1.
      destruct (heap w !! l0) as [a0|] eqn:E0.
      * rewrite (boxcox_back_from_array l0 a0 texp w E0).
        cbn [snd heap]. repeat (apply insert_fresh_lookup); exact H.
      * rewrite bind_run, copy_dangling by exact E0. exact H.
    + unfold alloc at 1.
      rewrite (boxcox_back_from_array _ a0 texp) by (cbn; apply lookup_insert_eq).
      cbn [snd heap]. repeat (apply insert_fresh_lookup); exact H.
Qed.

(** C9 on a store whose array holds a negative value. *)
Lemma boxcox_input_unchanged_witness :
  heap (boxcox_transform (Ref 1%positive) 4 sample_world).2 !! 1%positive
    = Some (Array1 [Num (-1); Num 2]) /\
  heap (boxcox_back_transform (Ref 1%positive) 4 sample_world).2 !! 1%positive
    = Some (Array1 [Num (-1); Num 2]).
Proof.
  apply (boxcox_input_unchanged sample_world (Ref 1%positive) 4 1%positive).
  reflexivity.
Defined.

(** ** The round trip of the power transform in floating point *)

(** *** Real analysis behind the error bound *)

Lemma exp_near_1 t : Rabs t <= / 2 -> Rabs (exp t - 1) <= 2 * Rabs t.
Proof.
  intros Ht. pose proof (exp_ineq1_le t) as Hlo.
  pose proof (exp_ineq1_le (- t)) as Hup. rewrite exp_Ropp in Hup.
  pose proof (exp_pos t) as Hpos.
  destruct (Rle_dec 0 t) as [H0|H0].
  - rewrite (Rabs_pos_eq t) in * by lra.
    rewrite Rabs_pos_eq by lra.
    assert (H1 : exp t * (1 - t) <= 1).
    { apply Rmult_le_reg_l with (/ exp t); [now apply Rinv_0_lt_compat |].
      rewrite <- Rmult_assoc, Rinv_l by lra. lra. }
    nra.
  - assert (H1 : exp t < 1).
    { rewrite <- exp_0. apply exp_increasing. lra. }
    rewrite (Rabs_left t) in * by lra.
    rewrite Rabs_left1 by lra. lra.
Qed.

Lemma exp_le a b : a <= b -> exp a <= exp b.
Proof. intros [H|H]; [left; now apply exp_increasing | subst; lra]. Qed.

Lemma exp_half : 3 / 2 <= exp (/ 2).
Proof. pose proof (exp_ineq1_le (/ 2)). lra. Qed.

Lemma ln_le x y : 0 < x -> x <= y -> ln x <= ln y.
Proof.
  intros Hx [H|H]; [left; now apply ln_increasing | subst; lra].
Qed.

Lemma ln_10 : ln 10 <= 3.
Proof.
  assert (H : 10 <= exp 3).
  { replace 3 with (/2 + /2 + /2 + /2 + /2 + /2) by lra.
    rewrite !exp_plus. pose proof exp_half as H.
    assert (H2 : 9 / 4 <= exp (/2) * exp (/2)) by nra.
    assert (H3 : 81 / 16 <= exp (/2) * exp (/2) * exp (/2) * exp (/2)) by nra.
    nra. }
  rewrite <- (ln_exp 3). apply ln_le; lra.
Qed.

Lemma ln_nonneg x : 1 <= x -> 0 <= ln x.
Proof. intros H. rewrite <- ln_1. apply ln_le; lra. Qed.

Lemma ln_bound x : 1 <= x <= 10 ^ 300 -> 0 <= ln x <= 900.
Proof.
  intros [H1 H2]. split; [now apply ln_nonneg |].
  apply Rle_trans with (ln (10 ^ 300)); [apply ln_le; lra |].
  rewrite ln_pow by lra.
  replace (INR 300) with 300 by (rewrite INR_IZR_INZ; reflexivity).
  pose proof ln_10. lra.
Qed.

(** [c * |ln c| <= 1] below 1. *)
Lemma x_ln_x c : 0 < c <= 1 -> c * (- ln c) <= 1.
Proof.
  intros Hc.
  assert (H : - ln c <= / c - 1).
  { rewrite <- ln_Rinv by lra.
    pose proof (exp_ineq1_le (ln (/ c))) as H.
    rewrite exp_ln in H by (apply Rinv_0_lt_compat; lra). lra. }
  assert (c * (- ln c) <= c * (/ c - 1)) by (apply Rmult_le_compat_l; lra).
  replace (c * (/ c - 1)) with (1 - c) in * by (field; lra). lra.
Qed.

Lemma ln_1_plus t : -1 < t -> ln (1 + t) <= t.
Proof.
  intros Ht. pose proof (exp_ineq1_le t) as H.
  apply Rle_trans with (ln (exp t)); [apply ln_le; lra | rewrite ln_exp; lra].
Qed.

Lemma Rabs_bounds a b : Rabs a <= b -> - b <= a <= b.
Proof.
  intros H. pose proof (Rle_abs a). pose proof (Rle_abs (- a)) as H2.
  rewrite Rabs_Ropp in H2. lra.
Qed.

(** Products of bounded numbers, for the arithmetic of the error terms. *)
Lemma mul_bounds a b a' b' :
  0 <= a <= a' -> 0 <= b <= b' -> 0 <= a * b <= a' * b'.
Proof. intros Ha Hb. split; [apply Rmult_le_pos; lra | apply Rmult_le_compat; lra]. Qed.

(** The unit roundoff of binary64 is below [10^-15]. *)
Lemma roundoff_small : / 2 ^ 53 <= / 10 ^ 15.
Proof. apply Rinv_le_contravar; lra. Qed.

Lemma Rpower_1_plus x d : 0 < x -> Rpower x (1 + d) = x * exp (d * ln x).
Proof. intros Hx. rewrite Rpower_plus, Rpower_1 by exact Hx. reflexivity. Qed.

(** The power with a perturbed exponent. *)
Lemma pow_pert x d L :
  0 < x -> 1 <= L -> (1 <= x -> ln x <= L) -> Rabs d * L <= / 2 ->
  Rabs (Rpower x (1 + d) - x) <= 2 * Rabs d * L * Rmax 1 x.
Proof.
  intros Hx HL Hln Hd.
  pose proof (Rabs_pos d) as Hd0.
  assert (Hd2 : Rabs d <= / 2) by nra.
  rewrite Rpower_1_plus by exact Hx.
  replace (x * exp (d * ln x) - x) with (x * (exp (d * ln x) - 1)) by ring.
  rewrite Rabs_mult, (Rabs_pos_eq x) by lra.
  destruct (Rle_dec 1 x) as [H1|H1].
  - rewrite Rmax_right by exact H1.
    pose proof (ln_nonneg x H1) as Hl0. specialize (Hln H1).
    assert (Ht : Rabs (d * ln x) <= Rabs d * L).
    { rewrite Rabs_mult, (Rabs_pos_eq (ln x)) by exact Hl0.
      apply Rmult_le_compat_l; lra. }
    pose proof (exp_near_1 (d * ln x) ltac:(lra)) as He.
    assert (Rabs (exp (d * ln x) - 1) <= 2 * Rabs d * L) by lra.
    pose proof (Rabs_pos (exp (d * ln x) - 1)). nra.
  - rewrite Rmax_left by lra.
    assert (Hx1 : 0 < x <= 1) by lra.
    pose proof (x_ln_x x Hx1) as Hxl.
    assert (Hl : ln x < 0).
    { rewrite <- ln_1. apply ln_increasing; lra. }
    apply Rle_trans with (2 * Rabs d); [|nra].
    destruct (Rle_dec 0 d) as [Hd1|Hd1].
    + (* the power is below [x] *)
      rewrite (Rabs_pos_eq d) in * by exact Hd1.
      pose proof (exp_ineq1_le (d * ln x)) as Hlo.
      assert (Hup : exp (d * ln x) <= 1).
      { rewrite <- exp_0. apply exp_le. nra. }
      rewrite Rabs_left1 by lra.
      assert (x * - (exp (d * ln x) - 1) <= x * (d * - ln x)).
      { apply Rmult_le_compat_l; lra. }
      nra.
    + (* the power is above [x] *)
      rewrite (Rabs_left d) in * by lra.
      set (t := d * ln x). assert (Ht : 0 < t) by (unfold t; nra).
      pose proof (exp_ineq1_le t) as Hlo.
      rewrite Rabs_pos_eq by lra.
      pose proof (exp_ineq1_le (- t)) as Hm. rewrite exp_Ropp in Hm.
      pose proof (exp_pos t) as Hpos.
      assert (H2 : exp t - 1 <= t * exp t).
      { assert (exp t * (1 - t) <= 1).
        { apply Rmult_le_reg_l with (/ exp t); [now apply Rinv_0_lt_compat |].
          rewrite <- Rmult_assoc, Rinv_l by lra. lra. }
        lra. }
      (* x * exp t <= sqrt-like power of x *)
      set (c := exp (ln x / 2)).
      assert (Hc : 0 < c <= 1).
      { split; [apply exp_pos |]. unfold c. rewrite <- exp_0.
        apply exp_le. lra. }
      assert (Hlc : ln c = ln x / 2) by (unfold c; apply ln_exp).
      pose proof (x_ln_x c Hc) as Hcl. rewrite Hlc in Hcl.
      assert (Hxe : x * exp t <= c).
      { rewrite <- (exp_ln x Hx) at 1. rewrite <- exp_plus. unfold c.
        apply exp_le. unfold t.
        assert (ln x * (1 + d) <= ln x * / 2).
        { apply Rmult_le_compat_neg_l; lra. }
        lra. }
      apply Rle_trans with (x * (t * exp t)); [apply Rmult_le_compat_l; lra |].
      replace (x * (t * exp t)) with (t * (x * exp t)) by ring.
      apply Rle_trans with (t * c); [apply Rmult_le_compat_l; lra |].
      unfold t. nra.
Qed.

(** [t ^ e] is Lipschitz below [B]. *)
Lemma pow_lipschitz_lt a b e B :
  0 < a -> a < b -> 1 <= e -> b <= B ->
  Rpower b e - Rpower a e <= e * Rpower B (e - 1) * (b - a) /\
  0 <= Rpower b e - Rpower a e.
Proof.
  intros Ha Hab He HB.
  destruct (MVT_cor2 (fun t => Rpower t e) (fun t => e * Rpower t (e - 1)) a b Hab)
    as (c & Hc & Hac).
  { intros c Hc. apply derivable_pt_lim_power. lra. }
  cbv beta in Hc. rewrite Hc.
  assert (H1 : Rpower c (e - 1) <= Rpower B (e - 1)).
  { apply Rle_Rpower_l; lra. }
  assert (H0 : 0 < Rpower c (e - 1)) by apply exp_pos.
  split.
  - apply Rmult_le_compat_r; [lra |]. apply Rmult_le_compat_l; lra.
  - apply Rmult_le_pos; [|lra]. apply Rmult_le_pos; lra.
Qed.

Lemma pow_lipschitz a b e B :
  0 < a -> 0 < b -> 1 <= e -> a <= B -> b <= B ->
  Rabs (Rpower b e - Rpower a e) <= e * Rpower B (e - 1) * Rabs (b - a).
Proof.
  intros Ha Hb He HaB HbB.
  destruct (Rtotal_order a b) as [Hlt|[Heq|Hgt]].
  - destruct (pow_lipschitz_lt a b e B Ha Hlt He HbB) as [H1 H2].
    rewrite !Rabs_pos_eq by lra. exact H1.
  - subst. replace (Rpower b e - Rpower b e) with 0 by ring.
    rewrite Rminus_diag, Rabs_R0. lra.
  - destruct (pow_lipschitz_lt b a e B Hb Hgt He HaB) as [H1 H2].
    rewrite (Rabs_left1 (Rpower b e - Rpower a e)) by lra.
    rewrite (Rabs_left1 (b - a)) by lra. lra.
Qed.

(** [(1 + t) ^ k] for small [k * t]. *)
Lemma pow_1_plus t k :
  0 <= t -> 0 <= k -> k * t <= / 2 -> Rpower (1 + t) k <= 1 + 2 * (k * t).
Proof.
  intros Ht Hk Hkt. unfold Rpower.
  pose proof (ln_1_plus t ltac:(lra)) as Hl.
  pose proof (ln_nonneg (1 + t) ltac:(lra)) as Hl0.
  assert (H : k * ln (1 + t) <= k * t) by (apply Rmult_le_compat_l; lra).
  assert (H0 : 0 <= k * ln (1 + t)) by (apply Rmult_le_pos; lra).
  pose proof (exp_near_1 (k * ln (1 + t))) as He.
  rewrite Rabs_pos_eq in He by exact H0.
  pose proof (exp_ineq1_le (k * ln (1 + t))).
  rewrite Rabs_pos_eq in He by lra. lra.
Qed.

(** A power of a number below 1 with an exponent of 1 or more. *)
Lemma Rpower_le_base a e : 0 < a <= 1 -> 1 <= e -> Rpower a e <= a.
Proof.
  intros Ha He. rewrite <- (Rpower_1 a) at 2 by lra. unfold Rpower.
  assert (Hl : ln a <= 0) by (rewrite <- ln_1; apply ln_le; lra).
  apply exp_le. nra.
Qed.

Lemma Rpower_ge_1 a e : 1 <= a -> 0 <= e -> 1 <= Rpower a e.
Proof.
  intros Ha He. unfold Rpower. pose proof (ln_nonneg a Ha).
  pose proof (exp_ineq1_le (e * ln a)). nra.
Qed.

Lemma Rpower_le_1 a e : 0 < a <= 1 -> 0 <= e -> Rpower a e <= 1.
Proof.
  intros Ha He. unfold Rpower.
  assert (Hl : ln a <= 0) by (rewrite <- ln_1; apply ln_le; lra).
  rewrite <- exp_0. apply exp_le. nra.
Qed.

(** *** The error of one cell *)

Section RoundedAnalysis.
Variables (A : Rounded.arith) (u eta : R).
Hypothesis HA : Rounded.ieee u eta A.
Hypothesis Hu : 0 <= u <= / 10 ^ 15.
Hypothesis Heta : 0 <= eta <= u / 10 ^ 6.
Hypothesis Hmax : 10 ^ 307 <= Rounded.max_float A.

Lemma rnd_near z B :
  Rabs z <= B -> Rabs (Rounded.rnd A z - z) <= u * B + eta.
Proof.
  intros H. pose proof (Rounded.rnd_error u eta A HA z).
  assert (u * Rabs z <= u * B) by (apply Rmult_le_compat_l; lra). lra.
Qed.

Lemma round_some z :
  Rabs z <= 10 ^ 306 -> Rounded.round A z = Some (Rounded.rnd A z).
Proof.
  intros Hz. unfold Rounded.round.
  destruct (Rle_dec _ _) as [|Hn]; [reflexivity |]. exfalso. apply Hn.
  pose proof (rnd_near z _ Hz) as H.
  assert (Ht : Rabs (Rounded.rnd A z) <= Rabs z + Rabs (Rounded.rnd A z - z)).
  { replace (Rounded.rnd A z) with (z + (Rounded.rnd A z - z)) at 1 by ring.
    apply Rabs_triang. }
  assert (Hb : u * 10 ^ 306 <= 10 ^ 306) by nra.
  lra.
Qed.

(** [1 / texp]: the rounded inverse [i] with [e * i = 1 + d0]. *)
Lemma inv_spec e :
  1 <= e <= 1000 ->
  exists i d0,
    Rounded.round A (1 / e) = Some i /\ e * i = 1 + d0 /\
    Rabs d0 <= 1001 / 1000 * u /\ 0 < i <= 2.
Proof.
  intros He. set (z := 1 / e).
  assert (Hz : / 1000 <= z <= 1).
  { unfold z. split.
    - apply Rmult_le_reg_r with e; [lra |]. unfold Rdiv.
      rewrite Rmult_assoc, Rinv_l by lra. lra.
    - apply Rmult_le_reg_r with e; [lra |]. unfold Rdiv.
      rewrite Rmult_assoc, Rinv_l by lra. lra. }
  assert (Hez : e * z = 1) by (unfold z; field; lra).
  exists (Rounded.rnd A z), (e * Rounded.rnd A z - 1).
  pose proof (Rounded.rnd_error u eta A HA z) as Herr.
  rewrite (Rabs_pos_eq z) in Herr by lra.
  apply Rabs_bounds in Herr.
  assert (Huz : 0 <= u * z <= u) by nra.
  split; [apply round_some; rewrite Rabs_pos_eq; lra |].
  split; [ring |]. split.
  - apply Rabs_le.
    assert (H1 : e * (u * z) = u) by (rewrite (Rmult_comm u z), <- Rmult_assoc, Hez; ring).
    assert (H2 : 0 <= e * eta <= 1000 * eta) by nra.
    assert (H3 : e * Rounded.rnd A z - 1 = e * (Rounded.rnd A z - z)) by (rewrite Rmult_minus_distr_l, Hez; ring).
    rewrite H3.
    assert (H4 : e * (Rounded.rnd A z - z) <= e * (u * z + eta))
      by (apply Rmult_le_compat_l; lra).
    assert (H5 : e * (- (u * z + eta)) <= e * (Rounded.rnd A z - z))
      by (apply Rmult_le_compat_l; lra).
    lra.
  - lra.
Qed.

Lemma pivot_bounds e i d0 x :
  1 <= e <= 1000 -> e * i = 1 + d0 -> Rabs d0 <= 1001 / 1000 * u -> 0 < i ->
  0 <= x <= 10 ^ 300 ->
  0 <= Rounded.pivot x i <= 3 * Rmax 1 x.
Proof.
  intros He Hi Hd0 Hi0 Hx. unfold Rounded.pivot.
  apply Rabs_bounds in Hd0.
  pose proof (Rmax_l 1 x) as Hm1. pose proof (Rmax_r 1 x) as Hm2.
  destruct (Req_dec_T x 0) as [E|E]; [lra |].
  assert (Hx0 : 0 < x) by lra.
  assert (Hpos : 0 < Rpower x i) by apply exp_pos.
  split; [lra |].
  destruct (Rle_dec x 1) as [H1|H1].
  - pose proof (Rpower_le_1 x i ltac:(lra) ltac:(lra)). lra.
  - assert (Hi1 : i <= 1 + / 1000) by nra.
    pose proof (ln_bound x ltac:(lra)) as Hl.
    unfold Rpower.
    apply Rle_trans with (exp (ln x + 1)).
    + apply exp_le. nra.
    + rewrite exp_plus, exp_ln by lra. pose proof exp_le_3. nra.
Qed.

(** The inverse of [1 + d0]. *)
Lemma inv_1_plus d0 :
  Rabs d0 <= 1001 / 1000 * u ->
  0 < 1 + d0 /\ 0 < / (1 + d0) <= 1001 / 1000 /\
  Rabs (/ (1 + d0) - 1) <= 1003 / 1000 * u.
Proof.
  intros Hd0. apply Rabs_bounds in Hd0.
  assert (H1 : 0 < 1 + d0) by lra.
  pose proof (Rinv_0_lt_compat _ H1) as Hg.
  assert (Hg1 : (1 + d0) * / (1 + d0) = 1) by (apply Rinv_r; lra).
  set (g := / (1 + d0)) in *.
  assert (Hg2 : g <= 1001 / 1000) by nra.
  split; [exact H1 |]. split; [lra |].
  apply Rabs_le.
  assert (E : g - 1 = - d0 * g) by lra.
  rewrite E. nra.
Qed.

(** The forward transform of one cell: [y / e] is close to the pivot
    less 1. *)
Lemma forward_spec e i d0 x :
  1 <= e <= 1000 -> e * i = 1 + d0 -> Rabs d0 <= 1001 / 1000 * u -> 0 < i ->
  0 <= x <= 10 ^ 300 ->
  exists y,
    Rounded.boxcox_cell A (Some i) (Some x) = Some y /\
    Rabs (y / e - (Rounded.pivot x i - 1))
    <= 9 * (u * Rmax 1 (Rounded.pivot x i)).
Proof.
  intros He Hi Hd0 Hi0 Hx.
  pose proof (pivot_bounds e i d0 x He Hi Hd0 Hi0 Hx) as HP.
  destruct (inv_1_plus d0 Hd0) as (Hd1 & Hg & Hg1).
  set (P := Rounded.pivot x i) in *. set (M := Rmax 1 P).
  set (g := / (1 + d0)) in *.
  assert (HM : 1 <= M /\ P <= M) by (split; [apply Rmax_l | apply Rmax_r]).
  assert (HM3 : M <= 3 * 10 ^ 300).
  { apply Rmax_lub; [lra |].
    assert (Rmax 1 x <= 10 ^ 300) by (apply Rmax_lub; lra). lra. }
  set (U := u * M).
  assert (HU : 0 <= U <= M / 10 ^ 15) by (unfold U; nra).
  assert (HeU : 0 <= eta <= U / 10 ^ 6) by (unfold U; nra).
  assert (HuP : 0 <= u * P <= U) by (unfold U; nra).
  (* the power *)
  assert (Hp : exists p, Rounded.fpow A x i = Some p /\
                         Rabs (p - P) <= 2 * (u * P + eta)).
  { unfold P, Rounded.pivot in *. destruct (Req_dec_T x 0) as [E|E].
    - subst x. exists 0. split; [now apply (Rounded.fpow_zero u eta A HA) |].
      rewrite Rminus_diag, Rabs_R0. lra.
    - apply (Rounded.fpow_error u eta A HA); lra. }
  destruct Hp as (p & Hfp & Hp). apply Rabs_bounds in Hp.
  unfold Rounded.boxcox_cell. cbn [mbind option_bind]. rewrite Hfp.
  cbn [mbind option_bind]. unfold Rounded.sub.
  rewrite round_some by (apply Rabs_le; lra). cbn [mbind option_bind].
  unfold Rounded.div. destruct (Req_dec_T i 0) as [|_]; [lra |].
  set (s := Rounded.rnd A (p - 1)).
  assert (Hs : Rabs (s - (p - 1)) <= u * (3 * M) + eta).
  { apply rnd_near. apply Rabs_le. lra. }
  apply Rabs_bounds in Hs. fold U in Hs.
  replace (u * (3 * M)) with (3 * U) in Hs by (unfold U; ring).
  assert (Hs2 : Rabs s <= 2 * M) by (apply Rabs_le; lra).
  pose proof (Rabs_pos s) as Hs0.
  (* the quotient *)
  assert (Hw : s / i = s * (e * g)).
  { unfold g. rewrite <- Hi. field. lra. }
  assert (Heg : 0 <= e * g <= 1001).
  { pose proof (mul_bounds e g 1000 (1001 / 1000) ltac:(lra) ltac:(lra)). lra. }
  assert (Hwa : Rabs (s / i) = Rabs s * (e * g)).
  { rewrite Hw, Rabs_mult, (Rabs_pos_eq (e * g)); [reflexivity | lra]. }
  assert (Hwb : Rabs (s / i) <= 10 ^ 306).
  { rewrite Hwa.
    pose proof (mul_bounds (Rabs s) (e * g) (2 * M) 1001 ltac:(lra) ltac:(lra)). lra. }
  rewrite round_some by exact Hwb.
  eexists. split; [reflexivity |].
  set (y := Rounded.rnd A (s / i)).
  pose proof (Rounded.rnd_error u eta A HA (s / i)) as Hy. fold y in Hy.
  rewrite Hwa in Hy.
  (* y / e - T = (y - w) / e + (s * g - T) *)
  replace (y / e - (P - 1))
    with ((y - s / i) / e + ((s - (P - 1)) * g + (P - 1) * (g - 1))).
  2:{ rewrite Hw. field. lra. }
  eapply Rle_trans; [apply Rabs_triang |].
  assert (T1 : Rabs ((y - s / i) / e) <= 2002 / 1000 * U + eta).
  { unfold Rdiv at 1. rewrite Rabs_mult, (Rabs_pos_eq (/ e))
      by (left; apply Rinv_0_lt_compat; lra).
    apply Rle_trans with ((u * (Rabs s * (e * g)) + eta) * / e).
    - apply Rmult_le_compat_r; [left; apply Rinv_0_lt_compat; lra | exact Hy].
    - replace ((u * (Rabs s * (e * g)) + eta) * / e)
        with (u * Rabs s * g + eta * / e) by (field; lra).
      assert (eta * / e <= eta).
      { rewrite <- (Rmult_1_r eta) at 2. apply Rmult_le_compat_l; [lra |].
        rewrite <- Rinv_1. apply Rinv_le_contravar; lra. }
      assert (u * Rabs s * g <= 2002 / 1000 * U).
      { pose proof (mul_bounds u (Rabs s) u (2 * M) ltac:(lra) ltac:(lra)).
        pose proof (mul_bounds (u * Rabs s) g (u * (2 * M)) (1001 / 1000)
                      ltac:(lra) ltac:(lra)).
        unfold U. lra. }
      lra. }
  assert (T2 : Rabs ((s - (P - 1)) * g + (P - 1) * (g - 1))
               <= 1001 / 1000 * (5 * U + 3 * eta) + 1003 / 1000 * U).
  { eapply Rle_trans; [apply Rabs_triang |]. rewrite !Rabs_mult.
    rewrite (Rabs_pos_eq g) by lra.
    assert (A1 : Rabs (s - (P - 1)) <= 5 * U + 3 * eta) by (apply Rabs_le; lra).
    assert (A2 : Rabs (P - 1) <= M) by (apply Rabs_le; lra).
    pose proof (Rabs_pos (s - (P - 1))). pose proof (Rabs_pos (P - 1)).
    pose proof (Rabs_pos (g - 1)).
    pose proof (mul_bounds (Rabs (s - (P - 1))) g (5 * U + 3 * eta) (1001 / 1000)
                  ltac:(lra) ltac:(lra)).
    pose proof (mul_bounds (Rabs (P - 1)) (Rabs (g - 1)) M (1003 / 1000 * u)
                  ltac:(lra) ltac:(lra)).
    unfold U in *. lra. }
  lra.
Qed.

(** The back transform of one cell up to the power: the base [b] is
    close to the pivot and not negative. *)
Lemma back_spec e P y :
  1 <= e <= 1000 -> 0 <= P <= 3 * 10 ^ 300 ->
  Rabs (y / e - (P - 1)) <= 9 * (u * Rmax 1 P) ->
  exists b,
    (q ← Rounded.div A (Rounded.clamp_below (- e) y) e; Rounded.add A q 1) = Some b /\
    0 <= b /\ Rabs (b - P) <= 14 * (u * Rmax 1 P).
Proof.
  intros He HP Hy. set (M := Rmax 1 P) in *.
  assert (HM : 1 <= M /\ P <= M) by (split; [apply Rmax_l | apply Rmax_r]).
  assert (HM3 : M <= 3 * 10 ^ 300) by (apply Rmax_lub; lra).
  set (U := u * M) in *.
  assert (HU : 0 <= U <= M / 10 ^ 15) by (unfold U; nra).
  assert (HeU : 0 <= eta <= U / 10 ^ 6) by (unfold U; nra).
  apply Rabs_bounds in Hy.
  set (yq := Rounded.clamp_below (- e) y / e).
  assert (Hyq : -1 <= yq /\ - (9 * U) <= yq - (P - 1) <= 9 * U).
  { unfold yq, Rounded.clamp_below. destruct (Rlt_dec y (- e)) as [Hlt|Hge].
    - replace (- e / e) with (-1) by (field; lra).
      assert (y / e < -1).
      { apply Rmult_lt_reg_r with e; [lra |]. unfold Rdiv.
        rewrite Rmult_assoc, Rinv_l by lra. lra. }
      lra.
    - split; [|lra].
      apply Rmult_le_reg_r with e; [lra |]. unfold Rdiv.
      rewrite Rmult_assoc, Rinv_l by lra. lra. }
  unfold Rounded.div. destruct (Req_dec_T e 0) as [|_]; [lra |].
  fold yq. rewrite round_some by (apply Rabs_le; lra).
  cbn [mbind option_bind]. set (q := Rounded.rnd A yq).
  assert (Hq : Rabs (q - yq) <= u * (2 * M) + eta).
  { apply rnd_near. apply Rabs_le. lra. }
  apply Rabs_bounds in Hq.
  replace (u * (2 * M)) with (2 * U) in Hq by (unfold U; ring).
  assert (Hq1 : -1 <= q).
  { rewrite <- (Rounded.rnd_minus_one u eta A HA).
    apply (Rounded.rnd_monotone u eta A HA). lra. }
  unfold Rounded.add. rewrite round_some by (apply Rabs_le; lra).
  eexists. split; [reflexivity |]. set (b := Rounded.rnd A (q + 1)).
  assert (Hb : Rabs (b - (q + 1)) <= u * (2 * M) + eta).
  { apply rnd_near. apply Rabs_le. lra. }
  apply Rabs_bounds in Hb.
  replace (u * (2 * M)) with (2 * U) in Hb by (unfold U; ring).
  split.
  - rewrite <- (Rounded.rnd_zero u eta A HA).
    apply (Rounded.rnd_monotone u eta A HA). lra.
  - apply Rabs_le. lra.
Qed.

(** The last power: from a base close to the pivot back to [x]. *)
Lemma power_spec e i d0 x b :
  1 <= e <= 1000 -> e * i = 1 + d0 -> Rabs d0 <= 1001 / 1000 * u -> 0 < i ->
  0 <= x <= 10 ^ 300 ->
  0 <= b ->
  Rabs (b - Rounded.pivot x i) <= 14 * (u * Rmax 1 (Rounded.pivot x i)) ->
  exists r,
    Rounded.fpow A b e = Some r /\
    Rabs (r - x) <= (50 * e + 2000) * u * Rmax 1 x.
Proof.
  intros He Hi Hd0 Hi0 Hx Hb0 Hb.
  pose proof (pivot_bounds e i d0 x He Hi Hd0 Hi0 Hx) as HP.
  set (mx := Rmax 1 x) in *.
  assert (Hmx : 1 <= mx /\ x <= mx) by (split; [apply Rmax_l | apply Rmax_r]).
  assert (Hmx3 : mx <= 10 ^ 300) by (apply Rmax_lub; lra).
  set (V := u * mx).
  assert (HV : 0 <= V <= mx / 10 ^ 15) by (unfold V; nra).
  assert (HuV : u <= V) by (unfold V; nra).
  assert (HeV : 0 <= eta <= V / 10 ^ 6) by lra.
  set (W := e * V).
  assert (HW : V <= W <= 1000 * V) by (unfold W; nra).
  replace ((50 * e + 2000) * u * mx) with (50 * W + 2000 * V)
    by (unfold W, V; ring).
  apply Rabs_bounds in Hb. unfold Rounded.pivot in *.
  destruct (Req_dec_T x 0) as [E|E].
  - (* the cell 0 *)
    subst x. rewrite Rmax_left in Hb by lra. rewrite Rmult_1_r in Hb.
    destruct (Req_dec_T b 0) as [Eb|Eb].
    + subst b. exists 0. split; [apply (Rounded.fpow_zero u eta A HA); lra |].
      rewrite Rminus_diag, Rabs_R0. lra.
    + assert (Hb1 : 0 < b <= 1) by lra.
      pose proof (Rpower_le_base b e Hb1 ltac:(lra)) as Hbe.
      assert (Hbe0 : 0 < Rpower b e) by apply exp_pos.
      destruct (Rounded.fpow_error u eta A HA b e) as (r & Hr & Hre); [lra | lra |].
      exists r. split; [exact Hr |]. apply Rabs_bounds in Hre.
      pose proof (mul_bounds u (Rpower b e) u 1 ltac:(lra) ltac:(lra)).
      apply Rabs_le. lra.
  - assert (Hx0 : 0 < x) by lra.
    set (P := Rpower x i) in *.
    assert (HP0 : 0 < P) by apply exp_pos.
    set (X1 := Rpower P e).
    assert (HX1 : X1 = Rpower x (1 + d0)).
    { unfold X1, P. rewrite Rpower_mult. f_equal. lra. }
    assert (Hpert : Rabs (X1 - x) <= 1802 * V).
    { rewrite HX1.
      eapply Rle_trans;
        [apply (pow_pert x d0 900 Hx0); [lra | intros H1; apply ln_bound; lra | lra] |].
      fold mx. pose proof (Rabs_pos d0).
      pose proof (mul_bounds (Rabs d0) mx (1001 / 1000 * u) mx ltac:(lra) ltac:(lra)).
      unfold V. lra. }
    apply Rabs_bounds in Hpert.
    set (M := Rmax 1 P) in *.
    assert (HM : 1 <= M /\ P <= M) by (split; [apply Rmax_l | apply Rmax_r]).
    (* M ^ e is about [mx] *)
    assert (HMe : 0 < Rpower M e /\ Rpower M e <= mx + 1802 * V).
    { split; [apply exp_pos |]. unfold M.
      destruct (Rle_dec P 1) as [H1|H1].
      - rewrite Rmax_left by exact H1. unfold Rpower. rewrite ln_1, Rmult_0_r, exp_0. lra.
      - rewrite Rmax_right by lra. fold X1. lra. }
    destruct (Req_dec_T b 0) as [Eb|Eb].
    + (* the base is rounded to 0: [x] is tiny *)
      subst b. exists 0. split; [apply (Rounded.fpow_zero u eta A HA); lra |].
      assert (HP1 : P <= 1).
      { destruct (Rle_dec P 1) as [|H1]; [assumption |].
        unfold M in Hb. rewrite Rmax_right in Hb by lra.
        pose proof (mul_bounds u P (/ 10 ^ 15) P ltac:(lra) ltac:(lra)). lra. }
      unfold M in Hb. rewrite Rmax_left in Hb by exact HP1.
      assert (Hx1 : x <= 1).
      { destruct (Rle_dec x 1) as [|H1]; [assumption |].
        pose proof (Rpower_ge_1 x i ltac:(lra) ltac:(lra)) as H2. fold P in H2.
        lra. }
      assert (Hm1 : mx = 1) by (unfold mx; apply Rmax_left; exact Hx1).
      pose proof (Rpower_le_base P e ltac:(lra) ltac:(lra)) as HX1P. fold X1 in HX1P.
      assert (V = u) by (unfold V; rewrite Hm1; ring).
      apply Rabs_le. lra.
    + assert (Hb1 : 0 < b) by lra.
      set (B := M * (1 + 14 * u)).
      assert (HuM : 0 <= u * M) by (apply Rmult_le_pos; lra).
      assert (HbB : b <= B /\ P <= B) by (unfold B; lra).
      pose proof (mul_bounds e u 1000 (/ 10 ^ 15) ltac:(lra) ltac:(lra)) as Heu.
      assert (H14 : Rpower (1 + 14 * u) e <= 1 + 28 * (e * u)).
      { eapply Rle_trans; [apply pow_1_plus; lra |]. lra. }
      pose proof (mul_bounds (e - 1) u 1000 (/ 10 ^ 15) ltac:(lra) ltac:(lra)) as Heu1.
      assert (H14' : Rpower (1 + 14 * u) (e - 1) <= 2).
      { eapply Rle_trans; [apply pow_1_plus; lra |]. lra. }
      assert (H14p : 0 < Rpower (1 + 14 * u) e) by apply exp_pos.
      assert (H14p' : 0 < Rpower (1 + 14 * u) (e - 1)) by apply exp_pos.
      assert (HM1p : 0 < Rpower M (e - 1)) by apply exp_pos.
      assert (HBe : Rpower B e = Rpower M e * Rpower (1 + 14 * u) e).
      { unfold B. symmetry. apply Rpower_mult_distr; lra. }
      assert (HBe1 : Rpower B (e - 1) = Rpower M (e - 1) * Rpower (1 + 14 * u) (e - 1)).
      { unfold B. symmetry. apply Rpower_mult_distr; lra. }
      assert (HMM : Rpower M (e - 1) * M = Rpower M e).
      { rewrite <- (Rpower_1 M) at 2 by lra. rewrite <- Rpower_plus. f_equal. ring. }
      assert (Hbe : 0 < Rpower b e <= 2 * mx).
      { split; [apply exp_pos |].
        apply Rle_trans with (Rpower B e); [apply Rle_Rpower_l; lra |].
        rewrite HBe.
        pose proof (mul_bounds (Rpower M e) (Rpower (1 + 14 * u) e)
                      (mx + 1802 * V) (1 + 28 * (e * u)) ltac:(lra) ltac:(lra)).
        pose proof (mul_bounds (mx + 1802 * V) (1 + 28 * (e * u))
                      (mx + 1802 * V) (1 + 28 / 10 ^ 12) ltac:(lra) ltac:(lra)).
        lra. }
      destruct (Rounded.fpow_error u eta A HA b e) as (r & Hr & Hre); [lra | lra |].
      exists r. split; [exact Hr |]. apply Rabs_bounds in Hre.
      assert (Hub : u * Rpower b e <= 2 * V).
      { pose proof (mul_bounds u (Rpower b e) u (2 * mx) ltac:(lra) ltac:(lra)).
        unfold V. lra. }
      (* the power of the base against the power of the pivot *)
      pose proof (pow_lipschitz P b e B HP0 Hb1 ltac:(lra) ltac:(lra) ltac:(lra)) as Hlip.
      fold X1 in Hlip.
      assert (Hbp : Rabs (b - P) <= 14 * (u * M)) by (apply Rabs_le; lra).
      assert (Hlip2 : e * Rpower B (e - 1) * Rabs (b - P) <= 29 * W).
      { rewrite HBe1.
        pose proof (Rabs_pos (b - P)).
        apply Rle_trans with (e * (Rpower M (e - 1) * 2) * (14 * (u * M))).
        - apply Rmult_le_compat; [| lra | | lra].
          + apply Rmult_le_pos; [lra |]. apply Rmult_le_pos; lra.
          + apply Rmult_le_compat_l; [lra |].
            apply Rmult_le_compat_l; lra.
        - replace (e * (Rpower M (e - 1) * 2) * (14 * (u * M)))
            with (28 * (e * u) * (Rpower M (e - 1) * M)) by ring.
          rewrite HMM.
          apply Rle_trans with (28 * (e * u) * (mx + 1802 * V)).
          + apply Rmult_le_compat_l; [|lra].
            apply Rmult_le_pos; [lra |]. apply Rmult_le_pos; lra.
          + replace (28 * (e * u) * (mx + 1802 * V))
              with (28 * W + 50456 * (u * W)) by (unfold W, V; ring).
            assert (u * W <= / 10 ^ 15 * W) by (apply Rmult_le_compat_r; lra).
            lra. }
      apply Rabs_bounds in Hlip.
      apply Rabs_le. lra.
Qed.

(** One cell there and back. *)
Lemma round_trip_cell e i d0 x :
  1 <= e <= 1000 -> e * i = 1 + d0 -> Rabs d0 <= 1001 / 1000 * u -> 0 < i ->
  0 <= x <= 10 ^ 300 ->
  exists y r,
    Rounded.boxcox_cell A (Some i) (Rounded.clamp_below 0 <$> Some x) = Some y /\
    Rounded.boxcox_back_cell A e (Rounded.clamp_below (- e) <$> Some y) = Some r /\
    Rabs (r - x) <= (50 * e + 2000) * u * Rmax 1 x.
Proof.
  intros He Hi Hd0 Hi0 Hx.
  destruct (forward_spec e i d0 x He Hi Hd0 Hi0 Hx) as (y & Hy & Hye).
  pose proof (pivot_bounds e i d0 x He Hi Hd0 Hi0 Hx) as HP.
  assert (HP3 : 0 <= Rounded.pivot x i <= 3 * 10 ^ 300).
  { assert (Rmax 1 x <= 10 ^ 300) by (apply Rmax_lub; lra). lra. }
  destruct (back_spec e _ y He HP3 Hye) as (b & Hb & Hb0 & Hbe).
  destruct (power_spec e i d0 x b He Hi Hd0 Hi0 Hx Hb0 Hbe) as (r & Hr & Hre).
  exists y, r. split; [|split; [|exact Hre]].
  - cbn [fmap option_fmap option_map]. unfold Rounded.clamp_below.
    destruct (Rlt_dec x 0); [lra | exact Hy].
  - cbn [fmap option_fmap option_map]. unfold Rounded.boxcox_back_cell.
    cbn [mbind option_bind].
    destruct (Rounded.div A (Rounded.clamp_below (- e) y) e) as [q|];
      cbn [mbind option_bind] in *; [|discriminate].
    rewrite Hb. exact Hr.
Qed.

Lemma round_trip_cells e i d0 (x : list R) :
  1 <= e <= 1000 -> e * i = 1 + d0 -> Rabs d0 <= 1001 / 1000 * u -> 0 < i ->
  Forall (fun v => 0 <= v <= 10 ^ 300) x ->
  exists y : list (option R),
    map (Rounded.boxcox_cell A (Some i))
        (map (fmap (Rounded.clamp_below 0)) (map Some x)) = y /\
    Forall2 (fun v o => exists v', o = Some v' /\
               Rabs (v' - v) <= (50 * e + 2000) * u * Rmax 1 v)
      x (map (Rounded.boxcox_back_cell A e)
           (map (fmap (Rounded.clamp_below (- e))) y)).
Proof.
  intros He Hi Hd0 Hi0 Hx. eexists. split; [reflexivity |].
  induction Hx as [|v x Hv Hx IH]; cbn [map]; [constructor |].
  constructor; [|exact IH].
  destruct (round_trip_cell e i d0 v He Hi Hd0 Hi0 Hv) as (y & r & Hy & Hr & Hre).
  rewrite Hy, Hr. eauto.
Qed.

End RoundedAnalysis.

(** C3 as amended.  In float64 arithmetic (every operation correctly
    rounded, [pow] accurate to one unit in the last place), for an
    exponent between 1 and 1000 and cells between 0 and [10^300], the
    forward power transform followed by the back transform returns every
    cell [v] within [(50 e + 2000) * 2^-53 * max(1, v)] of itself:
    relative to the cell above 1, absolute below, and growing with the
    exponent.  Neither transform overflows or raises on such input. *)
Theorem boxcox_round_trip (A : Rounded.arith) (u eta : R) (x : list R) (e : R) :
  Rounded.ieee u eta A ->
  0 <= u <= / 2 ^ 53 -> 0 <= eta <= u / 10 ^ 6 ->
  10 ^ 307 <= Rounded.max_float A ->
  1 <= e <= 1000 ->
  Forall (fun v => 0 <= v <= 10 ^ 300) x ->
  exists y r,
    Rounded.boxcox_transform A (map Some x) e = Ok y /\
    Rounded.boxcox_back_transform A y e = Ok r /\
    Forall2 (fun v o => exists v', o = Some v' /\
               Rabs (v' - v) <= (50 * e + 2000) * u * Rmax 1 v) x r.
Proof.
  intros HA Hu Heta Hmax He Hx.
  assert (Hu' : 0 <= u <= / 10 ^ 15) by (pose proof roundoff_small; lra).
  destruct (inv_spec A u eta HA Hu' Heta Hmax e He) as (i & d0 & Hi & Hei & Hd0 & Hi0).
  destruct (round_trip_cells A u eta HA Hu' Heta Hmax e i d0 x He Hei Hd0
              ltac:(lra) Hx) as (y & Hy & Hr).
  exists y. eexists. unfold Rounded.boxcox_transform, Rounded.py_inv.
  destruct (Req_dec_T e 0) as [E|_]; [exfalso; lra |].
  rewrite Hi. cbn [mbind result_bind]. rewrite Hy.
  split; [reflexivity |]. split; [reflexivity |]. exact Hr.
Qed.

Lemma exact_is_ieee u eta : 0 <= u -> 0 <= eta -> Rounded.ieee u eta Rounded.exact.
Proof.
  intros Hu He. constructor; cbn.
  - intros z. rewrite Rminus_diag, Rabs_R0.
    pose proof (Rabs_pos z). apply Rplus_le_le_0_compat; [apply Rmult_le_pos |]; lra.
  - auto.
  - reflexivity.
  - reflexivity.
  - intros x y Hx _. destruct (Req_dec_T x 0); [lra |].
    eexists. split; [reflexivity |]. rewrite Rminus_diag, Rabs_R0.
    assert (0 < Rpower x y) by apply exp_pos.
    apply Rmult_le_pos; [lra |].
    apply Rplus_le_le_0_compat; [apply Rmult_le_pos |]; lra.
  - intros y _. destruct (Req_dec_T 0 0); [reflexivity | contradiction].
Qed.

(** C3 on four cells and the exponent 4, in exact arithmetic, which
    meets every bound on the rounding. *)
Lemma boxcox_round_trip_witness :
  exists y r,
    Rounded.boxcox_transform Rounded.exact (map Some [0; 2; 5; 1]) 4 = Ok y /\
    Rounded.boxcox_back_transform Rounded.exact y 4 = Ok r /\
    Forall2 (fun v o => exists v', o = Some v' /\
               Rabs (v' - v) <= (50 * 4 + 2000) * / 2 ^ 53 * Rmax 1 v)
      [0; 2; 5; 1] r.
Proof.
  assert (Hu : 0 < / 2 ^ 53) by (apply Rinv_0_lt_compat; lra).
  assert (He : 0 <= / 2 ^ 53 / 10 ^ 6) by (left; apply Rdiv_lt_0_compat; lra).
  apply (boxcox_round_trip Rounded.exact (/ 2 ^ 53) (/ 2 ^ 53 / 10 ^ 6)
           [0; 2; 5; 1] 4).
  - apply exact_is_ieee; lra.
  - lra.
  - lra.
  - cbn [Rounded.max_float Rounded.exact]. lra.
  - lra.
  - repeat constructor; lra.
Defined.

Section Binary64Runs.
Import Floats.

(** C3, the claim as stated fails: not every exponent [e > 0] brings a
    non-negative cell back within floating tolerance.  On binary64, with
    [e = 2^-10] the forward power [2 ** 1024] overflows and the round
    trip of the cell 2 ends in an infinity; with [e = 1e17] the forward
    power [5 ** 1e-17] rounds to 1, the transform of the cell 5 is 0 and
    the cell comes back as 1.  Each run is given for every [pow] that
    returns the two values it uses, and for the stand-in; neither result
    is close to its input by [np.isclose]. *)
Lemma boxcox_round_trip_breaks_down :
  (forall pow : float -> float -> float,
     pow 2%float 1024%float = infinity ->
     pow infinity 0x1p-10%float = infinity ->
     Binary64.boxcox_transform pow [2%float] 0x1p-10%float = Ok [infinity] /\
     Binary64.boxcox_back_transform pow [infinity] 0x1p-10%float = Ok [infinity]) /\
  (forall pow : float -> float -> float,
     pow 5%float (PrimFloat.div 1%float 1e17%float) = 1%float ->
     pow 1%float 1e17%float = 1%float ->
     Binary64.boxcox_transform pow [5%float] 1e17%float = Ok [0%float] /\
     Binary64.boxcox_back_transform pow [0%float] 1e17%float = Ok [1%float]) /\
  Binary64.boxcox_transform Binary64.sample_pow [2%float] 0x1p-10%float
    = Ok [infinity] /\
  Binary64.boxcox_back_transform Binary64.sample_pow [infinity] 0x1p-10%float
    = Ok [infinity] /\
  Binary64.boxcox_transform Binary64.sample_pow [5%float] 1e17%float
    = Ok [0%float] /\
  Binary64.boxcox_back_transform Binary64.sample_pow [0%float] 1e17%float
    = Ok [1%float] /\
  Binary64.isclose infinity 2%float = false /\
  Binary64.isclose 1%float 5%float = false.
Proof.
  split; [|split].
  - intros pow H1 H2. vm_compute in H1, H2. split.
    + vm_compute. rewrite H1. reflexivity.
    + vm_compute. rewrite H2. reflexivity.
  - intros pow H1 H2. vm_compute in H1, H2. split.
    + vm_compute. rewrite H1. reflexivity.
    + vm_compute. rewrite H2. reflexivity.
  - repeat split; vm_compute; reflexivity.
Qed.

End Binary64Runs.

(** ** The dispatcher *)

Lemma print_and_exit_run {A} line w :
  @print_and_exit A line w
  = (Raise SystemExit, mkWorld (heap w) (stdout w ++ [line])).
Proof. reflexivity. Qed.

(** C8.  With a method tag other than ['boxcox'], ['ecdf'] and
    ['gamma_monthly'], and also with a mode tag other than ['transform']
    and ['back_transform'], the dispatcher prints one line and raises
    [SystemExit]: no value and no other exception reaches the caller, and
    no array of the store is touched. *)
Theorem data_transformation_exits {libs : Libs} (data : pyobj) (method : string)
    (settings : Settings) (mode : string) (times : list nat)
    (cdfs : monthly_cdfs_t) (gamma_stations_ds : gamma_station)
    (gamma_gridded_ds : option gamma_gridded) (w : world) :
  (method <> "boxcox" /\ method <> "ecdf" /\ method <> "gamma_monthly")%string \/
  (mode <> "transform" /\ mode <> "back_transform")%string ->
  exists line,
    data_transformation data method settings mode times cdfs
      gamma_stations_ds gamma_gridded_ds w
    = (Raise SystemExit, mkWorld (heap w) (stdout w ++ [line])).
Proof.
  intros Htag. unfold data_transformation.
  destruct Htag as [(H1 & H2 & H3) | (H1 & H2)].
  - apply String.eqb_neq in H1, H2, H3. rewrite H1, H2, H3.
    eexists. apply print_and_exit_run.
  - apply String.eqb_neq in H1, H2. rewrite H1, H2.
    destruct (String.eqb method "boxcox"); [eexists; apply print_and_exit_run |].
    destruct (String.eqb method "ecdf"); [eexists; apply print_and_exit_run |].
    destruct (String.eqb method "gamma_monthly"); eexists; apply print_and_exit_run.
Qed.

(** C8 on the method ['ecdf'] with the unknown mode ['inverse']. *)
Lemma data_transformation_exits_witness :
  exists line,
    data_transformation (libs := sample_libs) (Ref 1%positive) "ecdf"
      sample_settings "inverse" [] (ByMonth ∅) (mkGammaStation ∅ ∅) None
      sample_world
    = (Raise SystemExit,
       mkWorld (heap sample_world) (stdout sample_world ++ [line])).
Proof.
  apply (data_transformation_exits (libs := sample_libs)).
  right. split; discriminate.
Defined.

(** ** Pooling the neighbours of a sparse station *)

Lemma bind_ok {A B} (m : result A) (f : A -> result B) a :
  m = Ok a -> (m ≫= f) = f a.
Proof. now intros ->. Qed.

Lemma getitem_some `{Lookup K V D} (d : D) (k : K) (v : V) :
  d !! k = Some v -> getitem d k = Ok v.
Proof. unfold getitem. now intros ->. Qed.

Lemma bind_Ok {A B} (a : A) (f : A -> result B) : (Ok a ≫= f) = f a.
Proof. reflexivity. Qed.

Lemma getitem_table (cdfs : station_cdfs) key i t :
  table_at cdfs key i = Some t ->
  (months ← getitem cdfs key; getitem months i) = Ok t.
Proof.
  unfold table_at, getitem. destruct (cdfs !! key) as [months|]; cbn; [|discriminate].
  now intros ->.
Qed.

Lemma pooled_values_S cdfs row i own k near :
  row !! k = Some near ->
  pooled_values cdfs row i own (S k)
  = pooled_values cdfs row i own k ++ neighbour_values cdfs i near.
Proof.
  intros H. unfold pooled_values.
  rewrite (take_S_r _ _ _ H), map_app, concat_app. cbn.
  now rewrite app_nil_r, app_assoc.
Qed.

Lemma pool_body_run cdfs nearby s i row own_t st near near_t :
  nearby !! s = Some row ->
  table_at cdfs (Z.of_nat s) i = Some own_t ->
  row !! iteration st = Some near ->
  table_at cdfs near i = Some near_t ->
  (iteration st <> 0%nat ->
   station_cdf st = pooled_values cdfs row i (Value own_t) (iteration st)) ->
  pool_body cdfs nearby s i st
  = Ok (mkPool (pooled_values cdfs row i (Value own_t) (S (iteration st)))
               (length (pooled_values cdfs row i (Value own_t) (S (iteration st))))
               (S (iteration st))).
Proof.
  intros Hrow Hown Hnear Hnt Hst. unfold pool_body, index.
  rewrite Hrow. cbn. rewrite Hnear. cbn.
  pose proof Hnt as Hnt'. pose proof Hown as Hown'.
  unfold table_at in Hnt', Hown'.
  destruct (cdfs !! near) as [nm|] eqn:En; [|discriminate].
  destruct (cdfs !! Z.of_nat s) as [om|] eqn:Eo; [|discriminate]. cbn in Hnt', Hown'.
  rewrite (getitem_some cdfs near nm En). cbn.
  rewrite (getitem_some nm i near_t Hnt'). cbn.
  rewrite (pooled_values_S _ _ _ _ _ near Hnear).
  unfold neighbour_values. rewrite Hnt.
  destruct (Nat.eqb_spec (iteration st) 0) as [E0|E0].
  - rewrite (getitem_some cdfs (Z.of_nat s) om Eo). cbn.
    rewrite (getitem_some om i own_t Hown'). cbn.
    rewrite E0. unfold pooled_values. cbn. now rewrite app_nil_r.
  - cbn. now rewrite (Hst E0).
Qed.

Lemma pool_while_spec cdfs nearby min_obs s i row own_t :
  nearby !! s = Some row ->
  table_at cdfs (Z.of_nat s) i = Some own_t ->
  neighbours_ok cdfs row i ->
  let size k := length (pooled_values cdfs row i (Value own_t) k) in
  forall fuel st,
    (iteration st + fuel = 5)%nat ->
    num_obs st = size (iteration st) ->
    (iteration st <> 0%nat ->
     station_cdf st = pooled_values cdfs row i (Value own_t) (iteration st)) ->
    (forall j, (j < iteration st)%nat -> (Z.of_nat (size j) < min_obs)%Z) ->
    exists k,
      (iteration st <= k <= 5)%nat /\
      (forall j, (j < k)%nat -> (Z.of_nat (size j) < min_obs)%Z) /\
      (k = 5%nat \/ (min_obs <= Z.of_nat (size k))%Z) /\
      pool_while fuel cdfs nearby min_obs s i st
      = Ok (if (k =? iteration st)%nat then st
            else mkPool (pooled_values cdfs row i (Value own_t) k) (size k) k).
Proof.
  intros Hrow Hown [Hlen Hnb] size fuel.
  induction fuel as [|fuel IH]; intros st Hfuel Hnum Hst Hbelow.
  - exists (iteration st). rewrite Nat.eqb_refl. cbn.
    split; [lia |]. split; [exact Hbelow |]. split; [left; lia | reflexivity].
  - cbn [pool_while].
    destruct (Z.ltb_spec (Z.of_nat (num_obs st)) min_obs) as [Hlt|Hge]; cbn [andb].
    + destruct (Nat.ltb_spec (iteration st) 5) as [Hit|Hit]; [|lia].
      destruct (lookup_lt_is_Some_2 row (iteration st)) as [near Hnear]; [lia |].
      destruct (Hnb _ _ Hit Hnear) as [near_t Hnt].
      rewrite (pool_body_run _ _ _ _ _ _ _ _ _ Hrow Hown Hnear Hnt Hst). cbn.
      assert (Hbelow' : forall j, (j < S (iteration st))%nat ->
                                  (Z.of_nat (size j) < min_obs)%Z).
      { intros j Hj. destruct (Nat.eq_dec j (iteration st)) as [->|];
          [rewrite <- Hnum; exact Hlt | apply Hbelow; lia]. }
      destruct (IH (mkPool (pooled_values cdfs row i (Value own_t) (S (iteration st)))
                           (size (S (iteration st))) (S (iteration st))))
        as (k & Hk & Hb & Hstop & Hrun);
        [cbn; lia | reflexivity | reflexivity | exact Hbelow' |].
      cbn [iteration] in *.
      exists k. split; [lia |]. split; [exact Hb |]. split; [exact Hstop |].
      unfold size in *. rewrite Hrun.
      destruct (Nat.eqb_spec k (S (iteration st))) as [Hk1|Hk1];
        destruct (Nat.eqb_spec k (iteration st)) as [Hk2|Hk2];
        try lia; [subst k|]; reflexivity.
    + exists (iteration st). rewrite Nat.eqb_refl.
      split; [lia |]. split; [exact Hbelow |].
      split; [right; rewrite <- Hnum; lia | reflexivity].
Qed.

Lemma table_at_insert (cdfs : station_cdfs) s i t months key j :
  cdfs !! s = Some months ->
  table_at (<[s := <[i := t]> months]> cdfs) key j
  = if bool_decide (key = s /\ j = i) then Some t else table_at cdfs key j.
Proof.
  intros Hm. unfold table_at.
  destruct (decide (key = s)) as [->|Hk].
  - rewrite lookup_insert_eq, Hm. cbn.
    destruct (decide (j = i)) as [->|Hj].
    + rewrite lookup_insert_eq. now rewrite bool_decide_eq_true_2.
    + rewrite lookup_insert_ne by congruence.
      rewrite bool_decide_eq_false_2; [reflexivity | tauto].
  - rewrite lookup_insert_ne by congruence.
    rewrite bool_decide_eq_false_2; [reflexivity | tauto].
Qed.

Lemma pool_station_spec cdfs nearby min_obs s i own_t :
  table_at cdfs (Z.of_nat s) i = Some own_t ->
  (exists row, nearby !! s = Some row /\ neighbours_ok cdfs row i) ->
  exists cdfs' new_t,
    pool_station nearby min_obs i cdfs s = Ok cdfs' /\
    pooled_table cdfs nearby min_obs s i own_t new_t /\
    forall key j,
      table_at cdfs' key j
      = if bool_decide (key = Z.of_nat s /\ j = i) then Some new_t
        else table_at cdfs key j.
Proof.
  intros Hown (row & Hrow & Hnb).
  pose proof Hown as Hown'. unfold table_at in Hown'.
  destruct (cdfs !! Z.of_nat s) as [om|] eqn:Eo; [|discriminate]. cbn in Hown'.
  unfold pool_station, pooled_table.
  rewrite (getitem_some cdfs (Z.of_nat s) om Eo), bind_Ok.
  rewrite (getitem_some om i own_t Hown'), bind_Ok.
  destruct (Z.ltb_spec (Z.of_nat (length (Value own_t))) min_obs) as [Hlt|Hge].
  - destruct (pool_while_spec cdfs nearby min_obs s i row own_t Hrow Hown Hnb
                5%nat (mkPool [] (length (Value own_t)) 0))
      as (k & Hk & Hb & Hstop & Hrun); cbn [iteration num_obs station_cdf].
    + reflexivity.
    + unfold pooled_values. cbn. now rewrite app_nil_r.
    + intros E. now elim E.
    + intros j Hj. lia.
    + cbn [iteration] in *.
      assert (k <> 0%nat).
      { intros ->. destruct Hstop as [|Hs]; [discriminate |].
        unfold pooled_values in Hs. cbn in Hs. rewrite app_nil_r in Hs. lia. }
      rewrite Hrun. destruct (Nat.eqb_spec k 0); [contradiction |].
      rewrite bind_Ok. cbn [station_cdf]. rewrite bind_Ok.
      eexists. eexists. split; [reflexivity |]. split.
      * exists row, k. split; [exact Hrow |]. split; [|reflexivity].
        split; [lia |]. split; assumption.
      * intros key j. now apply table_at_insert.
  - exists cdfs, own_t. split; [reflexivity |]. split; [reflexivity |].
    intros key j. destruct (bool_decide_reflect (key = Z.of_nat s /\ j = i)) as [[-> ->]|];
      [exact Hown | reflexivity].
Qed.

Lemma for_each_app {A S} (l1 l2 : list A) (body : S -> A -> result S) s :
  for_each (l1 ++ l2) body s = (s' ← for_each l1 body s; for_each l2 body s').
Proof.
  revert s. induction l1 as [|a l1 IH]; intros s; cbn; [reflexivity |].
  destruct (body s a); cbn; [apply IH | reflexivity].
Qed.

Lemma for_each_nested {A B S} (l : list A) (k : list B)
    (body : A -> S -> B -> result S) s :
  for_each l (fun s a => for_each k (body a) s) s
  = for_each (a ← l; map (pair a) k) (fun s p => body p.1 s p.2) s.
Proof.
  revert s. induction l as [|a l IH]; intros s; cbn; [reflexivity |].
  rewrite for_each_app.
  assert (E : for_each (map (pair a) k) (fun s p => body p.1 s p.2) s
              = for_each k (body a) s).
  { clear. revert s. induction k as [|b k IH]; intros s; cbn; [reflexivity |].
    destruct (body a s b); cbn; [apply IH | reflexivity]. }
  rewrite E. destruct (for_each k (body a) s); cbn; [apply IH | reflexivity].
Qed.

Lemma pair_ok_shape c c' nearby p :
  same_shape c c' -> pair_ok c nearby p -> pair_ok c' nearby p.
Proof.
  intros Hs (Hown & row & Hrow & Hlen & Hnb). split; [now apply Hs |].
  exists row. split; [exact Hrow |]. split; [exact Hlen |].
  intros j near Hj Hn. apply Hs. eauto.
Qed.

Lemma pool_steps_run nearby min_obs (l : list (nat * nat)) : forall cdfs,
  Forall (pair_ok cdfs nearby) l ->
  exists cdfs',
    for_each l (pool_step nearby min_obs) cdfs = Ok cdfs' /\
    same_shape cdfs cdfs' /\
    forall s i, (i, s) ∉ l ->
      table_at cdfs' (Z.of_nat s) i = table_at cdfs (Z.of_nat s) i.
Proof.
  induction l as [|[i s] l IH]; intros cdfs Hok.
  - exists cdfs. split; [reflexivity |]. split; [intros ? ?; reflexivity | reflexivity].
  - inversion Hok as [|? ? Hp Hl]; subst.
    destruct Hp as [[own_t Hown] Hrow]. cbn in Hown, Hrow.
    destruct (pool_station_spec cdfs nearby min_obs s i own_t Hown Hrow)
      as (c1 & new_t & Hrun & _ & Htab).
    assert (Hs1 : same_shape cdfs c1).
    { intros key j. rewrite Htab.
      destruct (bool_decide_reflect (key = Z.of_nat s /\ j = i)) as [[-> ->]|]; [|reflexivity].
      rewrite Hown. split; eauto. }
    destruct (IH c1) as (c' & Hrun' & Hs' & Hout).
    { eapply Forall_impl; [exact Hl |]. intros p. now apply pair_ok_shape. }
    exists c'. split; [|split].
    + cbn [for_each].
      change (pool_step nearby min_obs cdfs (i, s))
        with (pool_station nearby min_obs i cdfs s).
      rewrite Hrun, bind_Ok. exact Hrun'.
    + intros key j. rewrite (Hs1 key j). apply Hs'.
    + intros s' i' Hnot. apply not_elem_of_cons in Hnot. destruct Hnot as [Hne Hnot].
      rewrite (Hout _ _ Hnot), Htab.
      rewrite bool_decide_eq_false_2; [reflexivity |].
      intros [E1 E2]. apply Nat2Z.inj in E1. congruence.
Qed.

Lemma pool_pairs_elem measured_var i s :
  (i, s) ∈ pool_pairs measured_var
  <-> (1 <= i <= 12)%nat /\ s ∈ stations_with_values measured_var.
Proof.
  unfold pool_pairs. rewrite list_elem_of_bind. split.
  - intros (i' & Hin & Hi'). apply list_elem_of_fmap in Hin.
    destruct Hin as (s' & E & Hs'). inversion E; subst.
    apply elem_of_seq in Hi'. split; [lia | exact Hs'].
  - intros [Hi Hs]. exists i. split.
    + apply list_elem_of_fmap. eauto.
    + apply elem_of_seq. lia.
Qed.

Lemma pool_pairs_NoDup measured_var : NoDup (pool_pairs measured_var).
Proof.
  unfold pool_pairs. apply NoDup_bind.
  - intros i1 i2 p _ _ H1 H2.
    apply list_elem_of_fmap in H1, H2.
    destruct H1 as (? & -> & _), H2 as (? & E & _). now inversion E.
  - intros i _. apply NoDup_fmap_2.
    + intros ? ? E. now inversion E.
    + unfold stations_with_values.
      apply NoDup_ListNoDup, List.NoDup_filter, NoDup_ListNoDup, NoDup_seq.
  - apply NoDup_seq.
Qed.

Lemma pool_station_ready cdfs nearby min_obs s i own_t :
  table_at cdfs (Z.of_nat s) i = Some own_t ->
  ((Z.of_nat (length (Value own_t)) < min_obs)%Z ->
   exists row, nearby !! s = Some row /\ neighbours_ok cdfs row i) ->
  exists cdfs' new_t,
    pool_station nearby min_obs i cdfs s = Ok cdfs' /\
    pooled_table cdfs nearby min_obs s i own_t new_t /\
    forall key j,
      table_at cdfs' key j
      = if bool_decide (key = Z.of_nat s /\ j = i) then Some new_t
        else table_at cdfs key j.
Proof.
  intros Hown Hrow.
  destruct (Z.ltb_spec (Z.of_nat (length (Value own_t))) min_obs) as [Hlt|Hge].
  - exact (pool_station_spec cdfs nearby min_obs s i own_t Hown (Hrow Hlt)).
  - pose proof Hown as Hown'. unfold table_at in Hown'.
    destruct (cdfs !! Z.of_nat s) as [om|] eqn:Eo; [|discriminate]. cbn in Hown'.
    unfold pool_station, pooled_table.
    rewrite (getitem_some cdfs (Z.of_nat s) om Eo), bind_Ok.
    rewrite (getitem_some om i own_t Hown'), bind_Ok.
    destruct (Z.ltb_spec (Z.of_nat (length (Value own_t))) min_obs); [lia |].
    exists cdfs, own_t. split; [reflexivity |]. split; [reflexivity |].
    intros key j.
    destruct (bool_decide_reflect (key = Z.of_nat s /\ j = i)) as [[-> ->]|];
      [exact Hown | reflexivity].
Qed.

(** A step elsewhere keeps a pair ready: its own table is the same and
    the dict has the same keys. *)
Lemma pair_ready_step c c' nearby min_obs p :
  same_shape c c' ->
  table_at c' (Z.of_nat p.2) p.1 = table_at c (Z.of_nat p.2) p.1 ->
  pair_ready c nearby min_obs p -> pair_ready c' nearby min_obs p.
Proof.
  intros Hs Hsame (own_t & Hown & Hrow). exists own_t.
  split; [now rewrite Hsame |].
  intros Hlt. destruct (Hrow Hlt) as (row & Hr & Hlen & Hnb).
  exists row. split; [exact Hr |]. split; [exact Hlen |].
  intros j near Hj Hn. apply Hs. eauto.
Qed.

Lemma pool_steps_ready nearby min_obs (l : list (nat * nat)) : forall cdfs,
  NoDup l ->
  Forall (pair_ready cdfs nearby min_obs) l ->
  exists cdfs',
    for_each l (pool_step nearby min_obs) cdfs = Ok cdfs' /\
    same_shape cdfs cdfs' /\
    forall s i, (i, s) ∉ l ->
      table_at cdfs' (Z.of_nat s) i = table_at cdfs (Z.of_nat s) i.
Proof.
  induction l as [|[i s] l IH]; intros cdfs Hnd Hok.
  - exists cdfs. split; [reflexivity |]. split; [intros ? ?; reflexivity | reflexivity].
  - inversion Hok as [|? ? Hp Hl]; subst.
    apply NoDup_cons in Hnd. destruct Hnd as [Hnot Hnd].
    destruct Hp as (own_t & Hown & Hrow). cbn in Hown, Hrow.
    destruct (pool_station_ready cdfs nearby min_obs s i own_t Hown Hrow)
      as (c1 & new_t & Hrun & _ & Htab).
    assert (Hs1 : same_shape cdfs c1).
    { intros key j. rewrite Htab.
      destruct (bool_decide_reflect (key = Z.of_nat s /\ j = i)) as [[-> ->]|]; [|reflexivity].
      rewrite Hown. split; eauto. }
    destruct (IH c1 Hnd) as (c' & Hrun' & Hs' & Hout).
    { apply Forall_forall. intros [i' s'] Hin.
      apply (pair_ready_step cdfs c1); [exact Hs1 | | ].
      - cbn. rewrite Htab. rewrite bool_decide_eq_false_2; [reflexivity |].
        intros [E1 E2]. apply Nat2Z.inj in E1. subst. contradiction.
      - exact (proj1 (Forall_forall _ _) Hl _ Hin). }
    exists c'. split; [|split].
    + cbn [for_each].
      change (pool_step nearby min_obs cdfs (i, s))
        with (pool_station nearby min_obs i cdfs s).
      rewrite Hrun, bind_Ok. exact Hrun'.
    + intros key j. rewrite (Hs1 key j). apply Hs'.
    + intros s' i' Hnot'. apply not_elem_of_cons in Hnot'. destruct Hnot' as [Hne Hnot'].
      rewrite (Hout _ _ Hnot'), Htab.
      rewrite bool_decide_eq_false_2; [reflexivity |].
      intros [E1 E2]. apply Nat2Z.inj in E1. congruence.
Qed.

(** C6 as amended.  Provided every station that has a value has its own
    table for every month and, where that table has fewer than [min_obs]
    rows, a row of five neighbours that have a table for the month, the
    remediation returns without error and, for every month, (a) leaves
    the tables of a station without any value exactly as they are, and
    (b) for a station with a value whose table has fewer than [min_obs]
    rows, replaces the table by the one built from its own values
    followed by those of its first [k] neighbours, read from the dict as
    it is when the station's turn comes: [k] is at least 1, at most 5, no
    smaller number of neighbours reaches the threshold, and [k] is 5 or
    the threshold is reached.  With [k = 5] the table is accepted
    whatever its size.  A table that already has [min_obs] rows is kept,
    and its station needs no neighbour. *)
Theorem add_nearby_stations_pooling (cdfs : station_cdfs)
    (measured_var : list (list fl)) (nearby : list (list Z)) (min_obs : Z) :
  (forall s i, s ∈ stations_with_values measured_var -> (1 <= i <= 12)%nat ->
     pair_ready cdfs nearby min_obs (i, s)) ->
  exists cdfs',
    add_nearby_stations_to_cdfs cdfs measured_var nearby min_obs = Ok cdfs' /\
    (forall s i, s ∉ stations_with_values measured_var ->
       table_at cdfs' (Z.of_nat s) i = table_at cdfs (Z.of_nat s) i) /\
    (forall s i, s ∈ stations_with_values measured_var -> (1 <= i <= 12)%nat ->
       exists before after cdfs0 own_t new_t,
         pool_pairs measured_var = before ++ (i, s) :: after /\
         for_each before (pool_step nearby min_obs) cdfs = Ok cdfs0 /\
         table_at cdfs (Z.of_nat s) i = Some own_t /\
         table_at cdfs' (Z.of_nat s) i = Some new_t /\
         pooled_table cdfs0 nearby min_obs s i own_t new_t).
Proof.
  intros Hready.
  assert (Hok : Forall (pair_ready cdfs nearby min_obs) (pool_pairs measured_var)).
  { apply Forall_forall. intros [i s] Hin. apply pool_pairs_elem in Hin.
    apply Hready; tauto. }
  clear Hready. unfold add_nearby_stations_to_cdfs.
  rewrite (for_each_nested _ _ (fun i c s => pool_station nearby min_obs i c s)).
  fold (pool_pairs measured_var). fold (pool_step nearby min_obs).
  pose proof (pool_pairs_NoDup measured_var) as Hnd.
  destruct (pool_steps_ready nearby min_obs _ cdfs Hnd Hok)
    as (c' & Hrun & Hshape & Hout).
  exists c'. split; [exact Hrun |]. split.
  - intros s i Hs. apply Hout. rewrite pool_pairs_elem. tauto.
  - intros s i Hs Hi.
    assert (Hin : (i, s) ∈ pool_pairs measured_var) by (apply pool_pairs_elem; tauto).
    destruct (list_elem_of_split _ _ Hin) as (before & after & E).
    rewrite E in Hnd, Hok, Hrun.
    apply NoDup_app in Hnd. destruct Hnd as (Hndb & Hnb & Hnd).
    pose proof Hnd as Hnd'.
    apply NoDup_cons in Hnd. destruct Hnd as [Hna Hnda].
    apply Forall_app in Hok. destruct Hok as [Hokb Hoka].
    inversion Hoka as [|? ? Hp Hokafter]; subst.
    destruct (pool_steps_ready nearby min_obs before cdfs Hndb Hokb)
      as (c0 & Hrun0 & Hshape0 & Hout0).
    assert (Hown0' : table_at c0 (Z.of_nat s) i = table_at cdfs (Z.of_nat s) i).
    { apply Hout0. intros Hb. exact (Hnb _ Hb ltac:(left)). }
    assert (Hp0 : pair_ready c0 nearby min_obs (i, s))
      by (apply (pair_ready_step cdfs c0); assumption).
    destruct Hp as (own_t & Hown & _). cbn in Hown.
    destruct Hp0 as (own_t0 & Hown0 & Hrow0). cbn in Hown0, Hrow0.
    assert (own_t0 = own_t) by congruence. subst own_t0.
    destruct (pool_station_ready c0 nearby min_obs s i own_t Hown0 Hrow0)
      as (c1 & new_t & Hrun1 & Hpooled & Htab).
    assert (Hs1 : same_shape cdfs c1).
    { intros key j. rewrite (Hshape0 key j), Htab.
      destruct (bool_decide_reflect (key = Z.of_nat s /\ j = i)) as [[-> ->]|]; [|reflexivity].
      rewrite Hown0. split; eauto. }
    destruct (pool_steps_ready nearby min_obs after c1 Hnda) as (c2 & Hrun2 & _ & Hout2).
    { apply Forall_forall. intros [i' s'] Hin'.
      assert (Hne : (i', s') <> (i, s)) by (intros E'; rewrite E' in Hin'; contradiction).
      assert (Hnb' : (i', s') ∉ before).
      { intros Hb. exact (Hnb _ Hb ltac:(right; exact Hin')). }
      apply (pair_ready_step cdfs c1); [exact Hs1 | | ].
      - cbn. rewrite Htab. rewrite bool_decide_eq_false_2.
        + now apply Hout0.
        + intros [E1 E2]. apply Nat2Z.inj in E1. congruence.
      - exact (proj1 (Forall_forall _ _) Hokafter _ Hin'). }
    assert (c' = c2).
    { rewrite for_each_app, Hrun0, bind_Ok in Hrun. cbn [for_each] in Hrun.
      change (pool_step nearby min_obs c0 (i, s))
        with (pool_station nearby min_obs i c0 s) in Hrun.
      rewrite Hrun1, bind_Ok, Hrun2 in Hrun. congruence. }
    subst c2.
    exists before, after, c0, own_t, new_t.
    split; [exact E |]. split; [exact Hrun0 |]. split; [exact Hown |].
    split; [|exact Hpooled].
    rewrite (Hout2 _ _ Hna), Htab. now rewrite bool_decide_eq_true_2.
Qed.
Lemma sample_pairs :
  pool_pairs sample_measured_var
  = map (fun i => (i, 1%nat)) (seq 1 12).
Proof. reflexivity. Qed.

Lemma sample_pair_ok :
  Forall (pair_ok sample_cdfs sample_nearby) (pool_pairs sample_measured_var).
Proof.
  rewrite sample_pairs. cbn [map seq].
  repeat (apply Forall_cons_2);
    [ .. | apply Forall_nil_2];
    (split; [eexists; reflexivity |];
     exists [0; 0; 0; 0; 0]%Z; split; [reflexivity |]; split; [cbn; lia |];
     intros j near Hj Hn;
     do 5 (destruct j as [|j]; [inversion Hn; subst; eexists; reflexivity |]); lia).
Qed.

(** C6 on the sample with threshold 2: station 1 has one observation, its
    five neighbours add none, and the table is accepted. *)
Lemma add_nearby_stations_pooling_witness :
  exists cdfs',
    add_nearby_stations_to_cdfs sample_cdfs sample_measured_var sample_nearby 2
    = Ok cdfs' /\
    (forall s i, s ∉ stations_with_values sample_measured_var ->
       table_at cdfs' (Z.of_nat s) i = table_at sample_cdfs (Z.of_nat s) i) /\
    (forall s i, s ∈ stations_with_values sample_measured_var -> (1 <= i <= 12)%nat ->
       exists before after cdfs0 own_t new_t,
         pool_pairs sample_measured_var = before ++ (i, s) :: after /\
         for_each before (pool_step sample_nearby 2) sample_cdfs = Ok cdfs0 /\
         table_at sample_cdfs (Z.of_nat s) i = Some own_t /\
         table_at cdfs' (Z.of_nat s) i = Some new_t /\
         pooled_table cdfs0 sample_nearby 2 s i own_t new_t).
Proof.
  apply (add_nearby_stations_pooling sample_cdfs sample_measured_var sample_nearby 2).
  intros s i Hs Hi.
  assert (Hin : (i, s) ∈ pool_pairs sample_measured_var)
    by (apply pool_pairs_elem; tauto).
  destruct (proj1 (Forall_forall _ _) sample_pair_ok _ Hin) as [[own_t Hown] Hrow].
  exists own_t. split; [exact Hown |]. intros _. exact Hrow.
Defined.

(** C6, the claim as stated fails: a station whose observations are all
    missing is not in the loop.  Its table for month 1 has no row, fewer
    than [min_obs = 1], its first neighbour has an observation, and the
    table is still without row on return: no neighbour was consulted. *)
Lemma add_nearby_skips_station_without_values :
  exists cdfs',
    add_nearby_stations_to_cdfs sample_cdfs sample_measured_var sample_nearby 1
    = Ok cdfs' /\
    table_at sample_cdfs 0 1 = Some [] /\
    neighbour_values sample_cdfs 1 1%Z = [Num 3] /\
    table_at cdfs' 0 1 = Some [] /\
    ~ pooled_table sample_cdfs sample_nearby 1 0 1 [] [].
Proof.
  unfold add_nearby_stations_to_cdfs.
  rewrite (for_each_nested _ _ (fun i c s => pool_station sample_nearby 1 i c s)).
  fold (pool_pairs sample_measured_var). fold (pool_step sample_nearby 1).
  destruct (pool_steps_run sample_nearby 1 _ sample_cdfs sample_pair_ok)
    as (c' & Hrun & _ & Hout).
  exists c'. split; [exact Hrun |]. split; [reflexivity |]. split; [reflexivity |].
  split.
  - change 0%Z with (Z.of_nat 0). rewrite Hout; [reflexivity |].
    rewrite pool_pairs_elem. intros [_ Hs].
    unfold stations_with_values in Hs. apply list_elem_of_In, filter_In in Hs.
    cbn in Hs. destruct Hs. discriminate.
  - unfold pooled_table. cbn [Value map length Z.of_nat Z.ltb Z.compare].
    intros (row & k & Hrow & (Hk & _ & _) & Hnew).
    inversion Hrow; subst row. clear Hrow.
    assert (L : length (create_cdf_df (pooled_values sample_cdfs [1; 1; 1; 1; 1]%Z 1 [] k))
                = 0%nat) by now rewrite <- Hnew.
    rewrite create_cdf_df_length in L.
    destruct k as [|k]; [lia |].
    unfold pooled_values in L. cbn [take map concat app] in L.
    change (neighbour_values sample_cdfs 1 1%Z) with [Num 3] in L.
    cbn [app List.filter] in L. rewrite (gtb_true 3 0) in L by lra. discriminate.
Qed.

(** ** Frames in closed form *)

Lemma map_seq_ext {A} (f g : nat -> A) a n :
  (forall k, (a <= k < a + n)%nat -> f k = g k) -> map f (seq a n) = map g (seq a n).
Proof.
  intros H. apply map_ext_in. intros k Hk. apply in_seq in Hk. apply H. lia.
Qed.

Lemma frame_of_cells_ext n ntime c c' :
  (forall j t, (j < n)%nat -> (t < ntime)%nat -> c j t = c' j t) ->
  frame_of_cells n ntime c = frame_of_cells n ntime c'.
Proof.
  intros H. unfold frame_of_cells. apply map_seq_ext. intros j Hj. f_equal.
  apply map_seq_ext. intros t Ht. apply H; lia.
Qed.

Lemma matrix_of_cells_ext n ntime c c' :
  (forall j t, (j < n)%nat -> (t < ntime)%nat -> c j t = c' j t) ->
  matrix_of_cells n ntime c = matrix_of_cells n ntime c'.
Proof.
  intros H. unfold matrix_of_cells. apply map_seq_ext. intros t Ht.
  apply map_seq_ext. intros j Hj. apply H; lia.
Qed.

Lemma insert_map_seq (c : nat -> fl) k v a n :
  <[k := v]> (map c (seq a n))
  = map (fun t => if (t =? a + k)%nat then v else c t) (seq a n).
Proof.
  revert a k. induction n as [|n IH]; intros a k; cbn; [reflexivity |].
  destruct k as [|k]; cbn.
  - rewrite Nat.add_0_r, Nat.eqb_refl. f_equal.
    apply map_seq_ext. intros t Ht.
    destruct (Nat.eqb_spec t a); [lia | reflexivity].
  - destruct (Nat.eqb_spec a (a + S k)); [lia |]. f_equal.
    rewrite IH. apply map_seq_ext. intros t Ht.
    replace (S a + k)%nat with (a + S k)%nat by lia. reflexivity.
Qed.

Lemma set_cells_keyed (c f : nat -> fl) keys n :
  set_cells (map c (seq 0 n)) (map (fun t => (t, f t)) keys)
  = map (fun t => if bool_decide (t ∈ keys) then f t else c t) (seq 0 n).
Proof.
  unfold set_cells. revert c. induction keys as [|k keys IH]; intros c; cbn.
  - apply map_seq_ext. intros t _. reflexivity.
  - rewrite insert_map_seq, IH. apply map_seq_ext. intros t _. cbn.
    destruct (bool_decide_reflect (t ∈ keys)) as [Hin|Hin].
    + rewrite bool_decide_eq_true_2 by (now right). reflexivity.
    + destruct (Nat.eqb_spec t k) as [->|Hne].
      * rewrite bool_decide_eq_true_2 by (now left). reflexivity.
      * rewrite bool_decide_eq_false_2; [reflexivity |].
        intros Hc. apply elem_of_cons in Hc. tauto.
Qed.

Lemma repeat_map_seq {A} (x : A) n : repeat x n = map (fun _ => x) (seq 0 n).
Proof.
  generalize 0%nat. induction n as [|n IH]; intros a; cbn; [reflexivity |].
  f_equal. apply IH.
Qed.

Lemma nan_frame_cells n ntime :
  nan_frame ntime (seq 0 n) = frame_of_cells n ntime (fun _ _ => NaN).
Proof.
  unfold nan_frame, frame_of_cells. apply map_ext. intros j.
  now rewrite repeat_map_seq.
Qed.

Lemma has_column_cells n ntime c s :
  has_column (frame_of_cells n ntime c) s = (s <? n)%nat.
Proof.
  unfold has_column, frame_of_cells.
  destruct (Nat.ltb_spec s n) as [H|H].
  - apply existsb_exists. exists (s, map (c s) (seq 0 ntime)). split.
    + apply in_map_iff. exists s. split; [reflexivity | apply in_seq; lia].
    + cbn. apply Nat.eqb_refl.
  - apply not_true_is_false. intros E. apply existsb_exists in E.
    destruct E as ([l col] & Hin & Hl). apply in_map_iff in Hin.
    destruct Hin as (j & E & Hj). inversion E; subst. apply in_seq in Hj.
    cbn in Hl. apply Nat.eqb_eq in Hl. lia.
Qed.

(** Writing into a column that exists. *)
Lemma loc_set_column_cells n ntime c s f keys :
  (s < n)%nat ->
  loc_set_column ntime (frame_of_cells n ntime c) s (map (fun t => (t, f t)) keys)
  = frame_of_cells n ntime
      (fun j t => if (j =? s)%nat && bool_decide (t ∈ keys) then f t else c j t).
Proof.
  intros Hs. unfold loc_set_column. rewrite has_column_cells.
  destruct (Nat.ltb_spec s n); [|lia].
  unfold frame_of_cells. rewrite map_map. apply map_seq_ext. intros j Hj. cbn.
  destruct (Nat.eqb_spec j s) as [->|Hne]; cbn.
  - f_equal. apply set_cells_keyed.
  - reflexivity.
Qed.

(** Writing into the column that comes next: the frame grows. *)
Lemma loc_set_column_grow ntime c s f keys :
  loc_set_column ntime (frame_of_cells s ntime c) s (map (fun t => (t, f t)) keys)
  = frame_of_cells (S s) ntime
      (fun j t => if (j =? s)%nat
                  then (if bool_decide (t ∈ keys) then f t else NaN)
                  else c j t).
Proof.
  unfold loc_set_column. rewrite has_column_cells, Nat.ltb_irrefl.
  unfold frame_of_cells. rewrite seq_S, map_app. cbn. f_equal.
  - apply map_seq_ext. intros j Hj.
    destruct (Nat.eqb_spec j s); [lia | reflexivity].
  - rewrite Nat.eqb_refl, repeat_map_seq, set_cells_keyed. reflexivity.
Qed.

Lemma imap_map_seq {A B} (g : nat -> A -> B) (h : nat -> A) a n :
  imap g (map h (seq a n)) = map (fun j => g (j - a)%nat (h j)) (seq a n).
Proof.
  revert a g. induction n as [|n IH]; intros a g; cbn; [reflexivity |].
  rewrite Nat.sub_diag. f_equal.
  rewrite IH. apply map_seq_ext. intros j Hj. unfold compose.
  replace (S (j - S a)) with (j - a)%nat by lia. reflexivity.
Qed.

(** Writing whole rows. *)
Lemma loc_set_rows_cells n ntime c (row : nat -> list fl) keys :
  loc_set_rows (frame_of_cells n ntime c) (map (fun t => (t, row t)) keys)
  = frame_of_cells n ntime
      (fun j t => if bool_decide (t ∈ keys) then nth j (row t) NaN else c j t).
Proof.
  unfold loc_set_rows, frame_of_cells. rewrite imap_map_seq.
  apply map_seq_ext. intros j Hj. cbn. rewrite Nat.sub_0_r. f_equal.
  rewrite map_map. cbn. apply (set_cells_keyed (c j) (fun t => nth j (row t) NaN)).
Qed.

Lemma nth_map_seq {A} (f : nat -> A) n k d :
  (k < n)%nat -> nth k (map f (seq 0 n)) d = f k.
Proof.
  intros H. rewrite (nth_indep _ d (f 0%nat)) by now rewrite length_map, length_seq.
  rewrite (map_nth f (seq 0 n) 0%nat k), seq_nth by lia. reflexivity.
Qed.

Lemma to_numpy_cells n ntime c :
  to_numpy ntime (frame_of_cells n ntime c) = matrix_of_cells n ntime c.
Proof.
  unfold to_numpy, matrix_of_cells, frame_of_cells.
  apply map_seq_ext. intros t Ht. rewrite map_map. cbn.
  apply map_seq_ext. intros j Hj. apply nth_map_seq. lia.
Qed.

Lemma frame_of_cells_length n ntime c : length (frame_of_cells n ntime c) = n.
Proof. unfold frame_of_cells. now rewrite length_map, length_seq. Qed.

(** A loop over [seq a n] whose body keeps an invariant and never raises. *)
Lemma for_each_seq {St} (P : nat -> St -> Prop) (body : St -> nat -> result St) a n s :
  P a s ->
  (forall k s, (a <= k < a + n)%nat -> P k s -> exists s', body s k = Ok s' /\ P (S k) s') ->
  exists s', for_each (seq a n) body s = Ok s' /\ P (a + n)%nat s'.
Proof.
  revert a s. induction n as [|n IH]; intros a s H0 Hstep; cbn.
  - exists s. rewrite Nat.add_0_r. auto.
  - destruct (Hstep a s) as (s1 & E1 & H1); [lia | exact H0 |].
    rewrite E1, bind_Ok.
    destruct (IH (S a) s1 H1) as (s' & E & H').
    { intros k s2 Hk. apply Hstep. lia. }
    exists s'. split; [exact E |]. now replace (a + S n)%nat with (S a + n)%nat by lia.
Qed.

Lemma for_each_map {A B St} (g : A -> B) (l : list A) (body : St -> B -> result St) s :
  for_each (map g l) body s = for_each l (fun s a => body s (g a)) s.
Proof.
  revert s. induction l as [|a l IH]; intros s; cbn; [reflexivity |].
  destruct (body s (g a)); cbn; [apply IH | reflexivity].
Qed.

Lemma month_of_range stamp : (1 <= month_of stamp <= 12)%nat.
Proof.
  unfold month_of. pose proof (Nat.mod_upper_bound stamp 12). lia.
Qed.

Lemma month_rows_elem times month t :
  t ∈ month_rows times month
  <-> (t < length times)%nat /\ month_of (nth t times 0%nat) = month.
Proof.
  unfold month_rows. rewrite list_elem_of_In, filter_In, in_seq, Nat.eqb_eq. lia.
Qed.

Lemma filter_keyed {A} (p : A -> bool) (v : nat -> A) (rows : list nat) :
  List.filter (fun tv : nat * A => p tv.2) (map (fun t => (t, v t)) rows)
  = map (fun t => (t, v t)) (List.filter (fun t => p (v t)) rows).
Proof.
  induction rows as [|t rows IH]; cbn; [reflexivity |].
  destruct (p (v t)); cbn; now rewrite IH.
Qed.

Lemma filter_elem {A} (p : A -> bool) (l : list A) x :
  x ∈ List.filter p l <-> x ∈ l /\ p x = true.
Proof. now rewrite !list_elem_of_In, filter_In. Qed.

Lemma bool_decide_filter_seq (p : nat -> bool) n j :
  (j < n)%nat -> bool_decide (j ∈ List.filter p (seq 0 n)) = p j.
Proof.
  intros H. destruct (p j) eqn:E.
  - apply bool_decide_eq_true_2, filter_elem. split; [apply elem_of_seq; lia | exact E].
  - apply bool_decide_eq_false_2. rewrite filter_elem. intros [_ E']. congruence.
Qed.

(** The end of the month loop body on a frame in closed form. *)
Lemma nqt_fill_cells n ntime nan_columns min_z_value c :
  nqt_fill n ntime nan_columns min_z_value (frame_of_cells n ntime c)
  = Ok (matrix_of_cells n ntime
          (fun j t => if bool_decide (j ∈ nan_columns) then NaN
                      else nan_to_num min_z_value (c j t))).
Proof.
  unfold nqt_fill. rewrite to_numpy_cells, frame_of_cells_length.
  destruct (for_each_seq
              (fun k filled =>
                 filled = matrix_of_cells n ntime
                            (fun j t => if (j <? k)%nat && bool_decide (j ∈ nan_columns)
                                        then NaN
                                        else nan_to_num min_z_value (c j t)))
              (fun filled col_index =>
                 if bool_decide (col_index ∈ nan_columns)
                 then set_column n filled col_index NaN else Ok filled)
              0%nat n
              (map (map (nan_to_num min_z_value)) (matrix_of_cells n ntime c)))
    as (out & Hrun & Hout).
  - unfold matrix_of_cells. rewrite map_map. apply map_seq_ext. intros t _.
    rewrite map_map. reflexivity.
  - intros k filled Hk ->.
    destruct (bool_decide_reflect (k ∈ nan_columns)) as [Hin|Hin].
    + unfold set_column. destruct (Nat.ltb_spec k n); [|lia].
      eexists. split; [reflexivity |].
      unfold matrix_of_cells. rewrite map_map. apply map_seq_ext. intros t _.
      rewrite insert_map_seq. apply map_seq_ext. intros j _. cbn [Nat.add].
      destruct (Nat.eqb_spec j k) as [->|Hne].
      * destruct (Nat.ltb_spec k (S k)); [|lia].
        now rewrite bool_decide_eq_true_2.
      * destruct (Nat.ltb_spec j k), (Nat.ltb_spec j (S k)); try lia; reflexivity.
    + eexists. split; [reflexivity |].
      apply matrix_of_cells_ext. intros j t _ _.
      destruct (Nat.eq_dec j k) as [->|Hne].
      * rewrite (bool_decide_eq_false_2 _ Hin). now rewrite !andb_false_r.
      * destruct (Nat.ltb_spec j k), (Nat.ltb_spec j (S k)); try lia; reflexivity.
  - rewrite Hrun, Hout. f_equal. apply matrix_of_cells_ext. intros j t Hj _.
    cbn [Nat.add]. destruct (Nat.ltb_spec j n); [reflexivity | lia].
Qed.

Section Forward.
Context {libs : Libs}.

Lemma nth_map_default {A B} (f : A -> B) (l : list A) j d d' :
  (j < length l)%nat -> nth j (map f l) d' = f (nth j l d).
Proof.
  intros H. rewrite (nth_indep _ d' (f d)) by now rewrite length_map.
  apply map_nth.
Qed.

Lemma nqt_body_pooled df times tbl month c o :
  lookup_cdf tbl None month = Ok o ->
  nqt_body df times tbl month (frame_of_cells (length df) (length times) c) None
  = Ok (frame_of_cells (length df) (length times)
          (fun j t =>
             if bool_decide (t ∈ month_rows times month)
             then match usable o with
                  | Some e => z_score e (mask_positive (nth t (nth j df []) NaN))
                  | None => NaN
                  end
             else c j t)).
Proof.
  intros Hl. unfold nqt_body. rewrite Hl, bind_Ok.
  destruct (usable o) as [e|]; f_equal; rewrite !map_map; cbn [fst snd];
    rewrite loc_set_rows_cells; apply frame_of_cells_ext; intros j t Hj Ht;
    destruct (bool_decide (t ∈ month_rows times month)); try reflexivity.
  - rewrite map_map. now rewrite (nth_map_default _ _ _ []).
  - rewrite map_map. now rewrite (nth_map_default _ _ _ []).
Qed.

Lemma nqt_body_keyed df times tbl month s o :
  times <> [] ->
  lookup_cdf tbl (Some s) month = Ok o ->
  forall fr,
  nqt_body df times tbl month fr (Some s)
  = Ok (loc_set_column (length times) fr s
          (map (fun t => (t, match usable o with
                             | Some e => z_score e (nth t (nth s df []) NaN)
                             | None => NaN
                             end))
               (List.filter (fun t => gtb (nth t (nth s df []) NaN) (Num 0))
                            (month_rows times month)))).
Proof.
  intros Hne Hl fr. unfold nqt_body. rewrite Hl, bind_Ok.
  rewrite (filter_keyed (fun v => gtb v (Num 0))).
  destruct (usable o) as [e|]; [now rewrite map_map |].
  destruct times; [congruence |]. cbn [length Nat.eqb andb]. now rewrite map_map.
Qed.

Lemma forward_step_pooled data times tbl k o :
  lookup_cdf tbl None k = Ok o ->
  nqt_body data times tbl k
    (frame_of_cells (length data) (length times)
       (forward_cells_upto true data times tbl k)) None
  = Ok (frame_of_cells (length data) (length times)
          (forward_cells_upto true data times tbl (S k))).
Proof.
  intros Hl. rewrite (nqt_body_pooled _ _ _ _ _ o Hl). f_equal.
  apply frame_of_cells_ext. intros j t Hj Ht.
  unfold forward_cells_upto, forward_cell, table_for.
  destruct (bool_decide_reflect (t ∈ month_rows times k)) as [Hin|Hin].
  - apply month_rows_elem in Hin. destruct Hin as [_ Hm]. rewrite Hm, Hl.
    destruct (Nat.ltb_spec k (S k)); [reflexivity | lia].
  - rewrite month_rows_elem in Hin.
    destruct (Nat.ltb_spec (month_of (nth t times 0%nat)) k),
             (Nat.ltb_spec (month_of (nth t times 0%nat)) (S k)); try lia; reflexivity.
Qed.

(** One station of the unpooled loop writes the cells of its column. *)
Lemma forward_written data times tbl k s o t :
  lookup_cdf tbl (Some s) k = Ok o ->
  (t < length times)%nat ->
  (if bool_decide (t ∈ List.filter (fun t => gtb (nth t (nth s data []) NaN) (Num 0))
                        (month_rows times k))
   then match usable o with
        | Some e => z_score e (nth t (nth s data []) NaN)
        | None => NaN
        end
   else forward_cells_upto false data times tbl k s t)
  = forward_cells_upto false data times tbl (S k) s t.
Proof.
  intros Hl Ht. unfold forward_cells_upto, forward_cell, table_for.
  destruct (bool_decide_reflect
              (t ∈ List.filter (fun t => gtb (nth t (nth s data []) NaN) (Num 0))
                     (month_rows times k))) as [Hin|Hin].
  - apply filter_elem in Hin. destruct Hin as [Hin Hpos].
    apply month_rows_elem in Hin. destruct Hin as [_ Hm]. rewrite Hm, Hl, Hpos.
    destruct (Nat.ltb_spec k (S k)); [reflexivity | lia].
  - rewrite filter_elem, month_rows_elem in Hin.
    destruct (Nat.ltb_spec (month_of (nth t times 0%nat)) k),
             (Nat.ltb_spec (month_of (nth t times 0%nat)) (S k)); try lia; try reflexivity.
    destruct (gtb (nth t (nth s data []) NaN) (Num 0)) eqn:Hpos; [|reflexivity].
    exfalso. apply Hin. split; [split; [exact Ht | lia] | reflexivity].
Qed.
Lemma forward_cells_upto_1 pooled data times tbl j t :
  forward_cells_upto pooled data times tbl 1 j t = NaN.
Proof.
  unfold forward_cells_upto. pose proof (month_of_range (nth t times 0%nat)).
  destruct (Nat.ltb_spec (month_of (nth t times 0%nat)) 1); [lia | reflexivity].
Qed.

Lemma forward_cells_upto_13 pooled data times tbl j t :
  forward_cells_upto pooled data times tbl 13 j t
  = forward_cell pooled data times tbl j t.
Proof.
  unfold forward_cells_upto. pose proof (month_of_range (nth t times 0%nat)).
  destruct (Nat.ltb_spec (month_of (nth t times 0%nat)) 13); [reflexivity | lia].
Qed.

(** The station loop of the first month builds the frame column by
    column. *)
Lemma forward_stations_first data times tbl :
  times <> [] ->
  (forall s, (s < length data)%nat -> exists o, lookup_cdf tbl (Some s) 1 = Ok o) ->
  for_each (map Some (seq 0 (length data))) (nqt_body data times tbl 1) []
  = Ok (frame_of_cells (length data) (length times)
          (forward_cells_upto false data times tbl 2)).
Proof.
  intros Htimes Hok. rewrite for_each_map.
  destruct (for_each_seq
              (fun j' fr => fr = frame_of_cells j' (length times)
                                   (forward_cells_upto false data times tbl 2))
              (fun fr s => nqt_body data times tbl 1 fr (Some s))
              0%nat (length data) [])
    as (fr & Hrun & Hfr).
  - reflexivity.
  - intros s fr0 Hs ->. destruct (Hok s) as [o Hl]; [lia |].
    rewrite (nqt_body_keyed _ _ _ _ _ o Htimes Hl), loc_set_column_grow.
    eexists. split; [reflexivity |].
    apply frame_of_cells_ext. intros j t Hj Ht.
    destruct (Nat.eqb_spec j s) as [->|]; [|reflexivity].
    rewrite <- (forward_written data times tbl 1 s o t Hl Ht).
    now rewrite forward_cells_upto_1.
  - now rewrite Hrun, Hfr.
Qed.

(** The station loop of a later month rewrites the columns one by one. *)
Lemma forward_stations_next data times tbl k :
  times <> [] ->
  (forall s, (s < length data)%nat -> exists o, lookup_cdf tbl (Some s) k = Ok o) ->
  for_each (map Some (seq 0 (length data))) (nqt_body data times tbl k)
    (frame_of_cells (length data) (length times)
       (forward_cells_upto false data times tbl k))
  = Ok (frame_of_cells (length data) (length times)
          (forward_cells_upto false data times tbl (S k))).
Proof.
  intros Htimes Hok. rewrite for_each_map.
  destruct (for_each_seq
              (fun j' fr =>
                 fr = frame_of_cells (length data) (length times)
                        (fun j t => if (j <? j')%nat
                                    then forward_cells_upto false data times tbl (S k) j t
                                    else forward_cells_upto false data times tbl k j t))
              (fun fr s => nqt_body data times tbl k fr (Some s))
              0%nat (length data)
              (frame_of_cells (length data) (length times)
                 (forward_cells_upto false data times tbl k)))
    as (fr & Hrun & Hfr).
  - reflexivity.
  - intros s fr0 Hs ->. destruct (Hok s) as [o Hl]; [lia |].
    rewrite (nqt_body_keyed _ _ _ _ _ o Htimes Hl), loc_set_column_cells by lia.
    eexists. split; [reflexivity |].
    apply frame_of_cells_ext. intros j t Hj Ht.
    destruct (Nat.eqb_spec j s) as [->|Hne]; cbn [andb].
    + rewrite Nat.ltb_irrefl.
      destruct (Nat.ltb_spec s (S s)); [|lia].
      apply (forward_written data times tbl k s o t Hl Ht).
    + destruct (Nat.ltb_spec j s), (Nat.ltb_spec j (S s)); try lia; reflexivity.
  - rewrite Hrun, Hfr. f_equal. apply frame_of_cells_ext. intros j t Hj Ht.
    cbn [Nat.add]. destruct (Nat.ltb_spec j (length data)); [reflexivity | lia].
Qed.

Lemma normal_quantile_transform_cells data times tbl settings :
  times <> [] ->
  Forall (fun row => length row = length times) data ->
  tables_ok (default true (pooled settings)) tbl (length data) ->
  normal_quantile_transform data times tbl settings
  = Ok (forward_output (default true (pooled settings))
          (default (Num (-4)) (min_z_value settings)) data times tbl).
Proof.
  intros Hne Hrect Hok. unfold normal_quantile_transform.
  set (pl := default true (pooled settings)) in *.
  set (minz := default (Num (-4)) (min_z_value settings)).
  assert (Hdf : make_df data times = Ok data).
  { unfold make_df. rewrite (proj2 (forallb_forall _ _)); [reflexivity |].
    intros row Hin. apply Nat.eqb_eq. rewrite Forall_forall in Hrect.
    apply Hrect. now apply list_elem_of_In. }
  rewrite Hdf, bind_Ok.
  set (nanc := List.filter (fun col => forallb isnan (nth col data [])) (seq 0 (length data))).
  set (filled k := matrix_of_cells (length data) (length times)
                     (fun j t => if bool_decide (j ∈ nanc) then NaN
                                 else nan_to_num minz
                                        (forward_cells_upto pl data times tbl k j t))).
  destruct (for_each_seq
              (fun k (st : frame * option (list (list fl))) =>
                 st.1 = (if (k =? 1)%nat && negb pl then []
                         else frame_of_cells (length data) (length times)
                                (forward_cells_upto pl data times tbl k)) /\
                 ((1 < k)%nat -> st.2 = Some (filled k)))
              (fun (st : frame * option (list (list fl))) month =>
                 transformed_data ←
                   for_each (if pl then [None] else map Some (seq 0 (length data)))
                     (nqt_body data times tbl month) st.1;
                 transformed_data_filled ←
                   nqt_fill (length data) (length times) nanc minz transformed_data;
                 Ok (transformed_data, Some transformed_data_filled))
              1%nat 12%nat
              (nan_frame (length times) (if pl then seq 0 (length data) else []), None))
    as (st & Hrun & Hst & Hfilled).
  - split; [|cbn; lia]. cbn [fst Nat.eqb andb]. destruct pl; cbn [negb].
    + rewrite nan_frame_cells. apply frame_of_cells_ext. intros j t _ _.
      now rewrite forward_cells_upto_1.
    + reflexivity.
  - intros k [fr o] Hk [Hfr _]. cbn [fst snd] in *. subst fr.
    assert (Hloop :
      for_each (if pl then [None] else map Some (seq 0 (length data)))
        (nqt_body data times tbl k)
        (if (k =? 1)%nat && negb pl then []
         else frame_of_cells (length data) (length times)
                (forward_cells_upto pl data times tbl k))
      = Ok (frame_of_cells (length data) (length times)
              (forward_cells_upto pl data times tbl (S k)))).
    { specialize (Hok k ltac:(lia)). destruct pl; cbn [negb andb].
      - rewrite andb_false_r. destruct Hok as [o' Hl]. cbn [for_each].
        now rewrite (forward_step_pooled _ _ _ _ o' Hl), bind_Ok.
      - rewrite andb_true_r. destruct (Nat.eqb_spec k 1) as [->|].
        + now apply forward_stations_first.
        + now apply forward_stations_next. }
    rewrite Hloop, bind_Ok, nqt_fill_cells, bind_Ok.
    eexists. split; [reflexivity |]. cbn [fst snd]. split; [|reflexivity].
    destruct (Nat.eqb_spec (S k) 1); [lia | reflexivity].
  - rewrite Hrun, bind_Ok. rewrite Hfilled by lia. f_equal.
    unfold filled, forward_output. apply matrix_of_cells_ext. intros j t Hj Ht.
    unfold nanc. rewrite bool_decide_filter_seq by exact Hj.
    now rewrite forward_cells_upto_13.
Qed.

End Forward.

(** ** Interpolating at the largest value of a table *)

Lemma combine_Value_CDF (e : cdf_df) : combine (Value e) (CDF e) = e.
Proof.
  unfold Value, CDF. induction e as [|[x y] e IH]; cbn; [reflexivity |].
  now rewrite IH.
Qed.

Lemma sort_rows_sorted (e : cdf_df) :
  StronglySorted sort_le (Value e) -> sort_rows e = e.
Proof.
  unfold Value. induction e as [|r e IH]; cbn; [reflexivity |].
  intros H. inversion H as [|? ? Hs Hall]; subst.
  unfold sort_rows in *. cbn. rewrite (IH Hs).
  destruct e as [|b e]; cbn; [reflexivity |].
  inversion Hall as [|? ? Hrb _]; subst. unfold sort_le in Hrb. now rewrite Hrb.
Qed.

Lemma last_cons_ne {A} (a : A) l d : l <> [] -> List.last (a :: l) d = List.last l d.
Proof. destruct l; [congruence | reflexivity]. Qed.

Lemma last_elem {A} (l : list A) d : l <> [] -> List.last l d ∈ l.
Proof.
  induction l as [|a l IH]; [congruence |]. intros _.
  destruct l as [|b l]; [now left |].
  rewrite last_cons_ne by discriminate. right. now apply IH.
Qed.

Lemma sorted_below_last (l : list fl) a :
  StronglySorted sort_le l -> a ∈ l -> sort_le a (List.last l NaN).
Proof.
  intros Hs. revert a.
  induction Hs as [|b l Hs IH Hall]; intros a Hin; [inversion Hin |].
  destruct l as [|c l].
  - apply list_elem_of_singleton in Hin. subst. cbn.
    unfold sort_le. destruct b; cbn; [reflexivity |].
    destruct (Rle_dec r r); [reflexivity | lra].
  - rewrite last_cons_ne by discriminate.
    apply elem_of_cons in Hin. destruct Hin as [->|Hin]; [|now apply IH].
    unfold sort_le in *. eapply sort_leb_trans.
    + rewrite Forall_forall in Hall. apply (Hall c). now left.
    + apply IH. now left.
Qed.

Lemma nth_last {A} (l : list A) d : nth (length l - 1) l d = List.last l d.
Proof.
  induction l as [|a l IH]; [reflexivity |].
  destruct l as [|b l]; [reflexivity |].
  rewrite last_cons_ne by discriminate. rewrite <- IH. cbn.
  now rewrite Nat.sub_0_r.
Qed.

Lemma search_from_all key arr i :
  Forall (fun a => geb key a = true) arr -> search_from key arr i = (i + length arr)%nat.
Proof.
  intros H. revert i. induction H as [|a arr Ha _ IH]; intros i; cbn.
  - lia.
  - rewrite Ha, IH. lia.
Qed.

Lemma geb_sort_le x a : positive_cell a -> sort_le a (Num x) -> geb (Num x) a = true.
Proof.
  destruct a as [|y]; cbn; [tauto |]. intros _. unfold sort_le. cbn.
  destruct (Rle_dec y x); [reflexivity | discriminate].
Qed.

Lemma np_interp_at_max (xp fp : list fl) :
  xp <> [] -> length xp = length fp ->
  StronglySorted sort_le xp -> Forall positive_cell xp ->
  np_interp xp fp (List.last xp NaN) = List.last fp NaN.
Proof.
  intros Hne Hlen Hs Hpos.
  assert (Hlast : List.last xp NaN ∈ xp).
  { now apply last_elem. }
  pose proof Hpos as Hpos'. rewrite Forall_forall in Hpos'.
  pose proof (Hpos' _ Hlast) as Hp.
  destruct (List.last xp NaN) as [|x] eqn:E; [contradiction |].
  unfold np_interp.
  destruct (Nat.eqb_spec (length xp) 1) as [H1|H1].
  - destruct xp as [|a [|b xp]]; try discriminate. cbn in E. subst a.
    destruct fp as [|y [|y' fp]]; try discriminate. cbn [length Nat.eqb hd].
    rewrite (ltb_false x x), (gtb_false x x) by lra. reflexivity.
  - rewrite E. rewrite (gtb_false x x) by lra.
    assert (Hhd : ltb (Num x) (hd NaN xp) = false).
    { destruct xp as [|a xp]; [congruence |]. cbn.
      assert (Ha : sort_le a (Num x)) by (rewrite <- E; apply sorted_below_last; [exact Hs | now left]).
      assert (Hpa : positive_cell a) by (apply Hpos'; now left).
      destruct a as [|y]; [contradiction |]. apply sort_leb_num in Ha.
      now apply ltb_false. }
    rewrite Hhd.
    rewrite search_from_all.
    + destruct xp as [|a xp]; [congruence |]. cbn [tl length].
      replace (1 + length xp - 1)%nat with (S (length xp) - 1)%nat by lia.
      rewrite Nat.eqb_refl. cbn [length] in Hlen. rewrite Hlen. apply nth_last.
    + apply Forall_forall. intros a Ha.
      assert (Hin : a ∈ xp) by (destruct xp; [inversion Ha | now right]).
      apply geb_sort_le; [now apply Hpos' |].
      rewrite <- E. now apply sorted_below_last.
Qed.

Lemma interp1d_at_max (e : cdf_df) :
  e <> [] -> StronglySorted sort_le (Value e) -> Forall positive_cell (Value e) ->
  interp1d (Value e) (CDF e) (List.last (Value e) NaN) = List.last (CDF e) NaN.
Proof.
  intros Hne Hs Hpos. unfold interp1d.
  rewrite combine_Value_CDF, (sort_rows_sorted e Hs).
  fold (Value e) (CDF e).
  assert (Hne' : Value e <> []) by (destruct e; [congruence | discriminate]).
  rewrite np_interp_at_max; try assumption;
    [|unfold Value, CDF; now rewrite !length_map].
  assert (Hlast : List.last (Value e) NaN ∈ Value e).
  { now apply last_elem. }
  pose proof Hpos as Hpos'. rewrite Forall_forall in Hpos'.
  pose proof (Hpos' _ Hlast) as Hp.
  destruct (List.last (Value e) NaN) as [|x] eqn:E; [contradiction |].
  rewrite (gtb_false x x) by lra. rewrite orb_false_r.
  destruct (Value e) as [|a l] eqn:Ev; [congruence |]. cbn [hd].
  assert (Ha : sort_le a (Num x)) by (rewrite <- E; apply sorted_below_last; [exact Hs | now left]).
  assert (Hpa : positive_cell a) by (apply Hpos'; now left).
  destruct a as [|y]; [contradiction |]. apply sort_leb_num in Ha.
  now rewrite ltb_false.
Qed.

Lemma matrix_of_cells_lookup n ntime c j t :
  (j < n)%nat -> (t < ntime)%nat ->
  matrix_of_cells n ntime c !! t ≫= (.!! j) = Some (c j t).
Proof.
  intros Hj Ht. unfold matrix_of_cells.
  rewrite list_lookup_fmap, lookup_seq_lt by lia. cbn.
  rewrite list_lookup_fmap, lookup_seq_lt by lia. reflexivity.
Qed.

Lemma matrix_of_cells_length n ntime c : length (matrix_of_cells n ntime c) = ntime.
Proof. unfold matrix_of_cells. now rewrite length_map, length_seq. Qed.

Section ForwardClaims.
Context {libs : Libs}.

(** C1.  For every rectangular input matrix with at least one time stamp
    whose tables can be looked up, the forward quantile-normal transform
    returns an array with one row per time stamp in which every cell of
    a station column whose values are all missing is [NaN]: not zero and
    not [min_z_value], although the fill of missing cells by
    [min_z_value] runs first, because the blanking of those columns
    comes after it.  Every other cell is its z-score, or [min_z_value]
    where that is missing. *)
Theorem all_missing_station_stays_missing (data : list (list fl))
    (times : list nat) (tbl : monthly_cdfs_t) (settings : Settings) :
  times <> [] ->
  Forall (fun row => length row = length times) data ->
  tables_ok (default true (pooled settings)) tbl (length data) ->
  exists out,
    normal_quantile_transform data times tbl settings = Ok out /\
    length out = length times /\
    forall c t, (c < length data)%nat -> (t < length times)%nat ->
      out !! t ≫= (.!! c)
      = Some (if forallb isnan (nth c data []) then NaN
              else nan_to_num (default (Num (-4)) (min_z_value settings))
                     (forward_cell (default true (pooled settings))
                        data times tbl c t)).
Proof.
  intros Hne Hrect Hok.
  eexists. split; [now apply normal_quantile_transform_cells |].
  unfold forward_output. split; [apply matrix_of_cells_length |].
  intros c t Hc Ht. now rewrite matrix_of_cells_lookup by assumption.
Qed.

(** C2.  Take a usable table of a stratum (values sorted and positive,
    probabilities in (0, 1]) and a cell whose value is the largest value
    of the table.  Provided [norm.ppf] is defined and non-decreasing on
    (0, 1), the forward transform returns at that cell a number [z], and
    [z] is at most the normal quantile of 0.99999: the interpolated
    probability is the last one of the table and is clipped to 0.99999
    at most before [norm.ppf] is applied. *)
Theorem forward_transform_of_maximum (data : list (list fl))
    (times : list nat) (tbl : monthly_cdfs_t) (settings : Settings)
    (j t : nat) (e : cdf_df) :
  Forall (fun row => length row = length times) data ->
  tables_ok (default true (pooled settings)) tbl (length data) ->
  (j < length data)%nat -> (t < length times)%nat ->
  table_for tbl (if default true (pooled settings) then None else Some j)
    (month_of (nth t times 0%nat)) = Some e ->
  StronglySorted sort_le (Value e) ->
  Forall positive_cell (Value e) ->
  Forall probability_cell (CDF e) ->
  nth t (nth j data []) NaN = List.last (Value e) NaN ->
  (forall p, 0 < p < 1 -> exists z, norm_ppf (Num p) = Num z) ->
  (forall p p' z z', 0 < p -> p <= p' -> p' < 1 ->
     norm_ppf (Num p) = Num z -> norm_ppf (Num p') = Num z' -> z <= z') ->
  exists out z q,
    normal_quantile_transform data times tbl settings = Ok out /\
    out !! t ≫= (.!! j) = Some (Num z) /\
    norm_ppf (Num 0.99999) = Num q /\
    z <= q.
Proof.
  intros Hrect Hok Hj Ht Htab Hs Hpos Hprob Hv Hdef Hmono.
  assert (Hne : e <> []).
  { unfold table_for in Htab.
    destruct (lookup_cdf tbl _ _) as [[e'|]|]; cbn in Htab; try discriminate.
    destruct e'; cbn in Htab; [discriminate |]. inversion Htab. discriminate. }
  assert (HneV : Value e <> []) by (destruct e; [congruence | discriminate]).
  assert (HneC : CDF e <> []) by (destruct e; [congruence | discriminate]).
  (* the value is a positive number *)
  pose proof (last_elem (Value e) NaN HneV) as Hlast.
  pose proof Hpos as Hpos'. rewrite Forall_forall in Hpos'.
  pose proof (Hpos' _ Hlast) as Hvpos. rewrite <- Hv in Hvpos.
  destruct (nth t (nth j data []) NaN) as [|v] eqn:Ev; [contradiction |]. cbn in Hvpos.
  (* the interpolated probability *)
  pose proof (last_elem (CDF e) NaN HneC) as Hlastc.
  rewrite Forall_forall in Hprob. pose proof (Hprob _ Hlastc) as Hp.
  destruct (List.last (CDF e) NaN) as [|p] eqn:Ep; [contradiction |]. cbn in Hp.
  set (p' := Rmin (Rmax p 0) 0.99999).
  assert (Hp' : 0 < p' <= 0.99999).
  { unfold p'. unfold Rmin, Rmax.
    destruct (Rle_dec p 0); destruct (Rle_dec _ 0.99999); lra. }
  assert (Hz : z_score e (Num v) = norm_ppf (Num p')).
  { unfold z_score. rewrite Hv, (interp1d_at_max e Hne Hs Hpos), Ep. reflexivity. }
  destruct (Hdef p') as [z Ez]; [lra |].
  destruct (Hdef 0.99999) as [q Eq]; [lra |].
  exists (forward_output (default true (pooled settings))
            (default (Num (-4)) (min_z_value settings)) data times tbl), z, q.
  assert (Htimes : times <> []) by (intros ->; cbn in Ht; lia).
  split; [now apply normal_quantile_transform_cells |].
  split; [|split; [exact Eq |]].
  - unfold forward_output. rewrite matrix_of_cells_lookup by assumption.
    assert (Hnn : forallb isnan (nth j data []) = false).
    { apply not_true_is_false. intros Hall. rewrite forallb_forall in Hall.
      assert (Hin : In (Num v) (nth j data [])).
      { rewrite <- Ev. apply nth_In.
        rewrite Forall_forall in Hrect.
        rewrite (Hrect (nth j data [])); [exact Ht |].
        apply list_elem_of_In, nth_In. exact Hj. }
      specialize (Hall _ Hin). discriminate. }
    rewrite Hnn. unfold forward_cell. rewrite Ev.
    destruct (default true (pooled settings)).
    + rewrite Htab. unfold mask_positive. rewrite (gtb_true v 0) by lra.
      now rewrite Hz, Ez.
    + rewrite (gtb_true v 0) by lra. rewrite Htab. now rewrite Hz, Ez.
  - apply (Hmono p' 0.99999 z q); try lra; assumption.
Qed.

End ForwardClaims.

(** C1 on the sample: station 0 has no value. *)
Lemma all_missing_station_stays_missing_witness :
  exists out,
    normal_quantile_transform (libs := sample_libs) sample_data sample_times
      sample_tables sample_settings = Ok out /\
    length out = length sample_times /\
    forall c t, (c < length sample_data)%nat -> (t < length sample_times)%nat ->
      out !! t ≫= (.!! c)
      = Some (if forallb isnan (nth c sample_data []) then NaN
              else nan_to_num (default (Num (-4)) (min_z_value sample_settings))
                     (forward_cell (libs := sample_libs)
                        (default true (pooled sample_settings))
                        sample_data sample_times sample_tables c t)).
Proof.
  apply (all_missing_station_stays_missing (libs := sample_libs)).
  - discriminate.
  - repeat constructor.
  - intros month _. cbn. eexists. reflexivity.
Defined.

(** C2 on the sample: station 1 holds 4, the largest value of the table
    of January. *)
Lemma forward_transform_of_maximum_witness :
  exists out z q,
    normal_quantile_transform (libs := sample_libs) sample_data sample_times
      sample_tables sample_settings = Ok out /\
    out !! 0%nat ≫= (.!! 1%nat) = Some (Num z) /\
    norm_ppf (Libs := sample_libs) (Num 0.99999) = Num q /\
    z <= q.
Proof.
  apply (forward_transform_of_maximum (libs := sample_libs) sample_data
           sample_times sample_tables sample_settings 1 0 sample_table).
  - repeat constructor.
  - intros month _. cbn. eexists. reflexivity.
  - cbn. lia.
  - cbn. lia.
  - reflexivity.
  - repeat constructor. apply sort_leb_num. lra.
  - repeat constructor; cbn; lra.
  - repeat constructor; cbn; lra.
  - reflexivity.
  - intros p Hp. cbn.
    destruct (Rle_dec 0 p); [|lra]. destruct (Rle_dec p 1); [|lra]. eauto.
  - intros p p' z z' H0 Hle H1. cbn.
    destruct (Rle_dec 0 p); [|lra]. destruct (Rle_dec p 1); [|lra].
    destruct (Rle_dec 0 p'); [|lra]. destruct (Rle_dec p' 1); [|lra].
    intros E E'. inversion E. inversion E'. lra.
Defined.

(** The forward transform on the sample, cell by cell: the column of
    station 0 is blank, the value 4 of station 1 gets the quantile of
    0.99999, its missing value the floor -4. *)
Example normal_quantile_transform_sample :
  normal_quantile_transform (libs := sample_libs) sample_data sample_times
    sample_tables sample_settings
  = Ok [[NaN; Num (10 * 0.99999 - 5)]; [NaN; Num (-4)]].
Proof.
  rewrite normal_quantile_transform_cells.
  - f_equal. unfold forward_output, matrix_of_cells.
    cbn [sample_data sample_times length seq map nth forallb isnan andb default
         pooled min_z_value sample_settings].
    unfold forward_cell.
    change (nth 0 sample_times 0%nat) with 0%nat.
    change (nth 1 sample_times 0%nat) with 1%nat.
    change (nth 0 (nth 1 sample_data []) NaN) with (Num 4).
    assert (T1 : table_for sample_tables None (month_of 0) = Some sample_table)
      by reflexivity.
    assert (T2 : table_for sample_tables None (month_of 1) = None) by reflexivity.
    rewrite T1, T2. cbn [nan_to_num].
    assert (Z : z_score (libs := sample_libs) sample_table (mask_positive (Num 4))
                = Num (10 * 0.99999 - 5)).
    { unfold mask_positive. rewrite (gtb_true 4 0) by lra.
      unfold z_score.
      change (Num 4) with (List.last (Value sample_table) NaN).
      rewrite interp1d_at_max.
      - cbn [sample_table CDF map snd List.last clip].
        unfold Rmin, Rmax. destruct (Rle_dec 1 0); [lra |].
        destruct (Rle_dec 1 0.99999); [lra |]. cbn.
        destruct (Rle_dec 0 0.99999); [|lra]. destruct (Rle_dec 0.99999 1); [|lra].
        reflexivity.
      - discriminate.
      - repeat constructor. apply sort_leb_num. lra.
      - repeat constructor; cbn; lra. }
    rewrite Z. reflexivity.
  - discriminate.
  - repeat constructor.
  - intros month _. cbn. eexists. reflexivity.
Qed.


(** ** The inverse transforms *)

Section Inverse.
Context {libs : Libs}.

Lemma inqt_body_cells df time tbl interp_method min_est month c station o :
  lookup_cdf tbl station month = Ok o ->
  match usable o with
  | Some _ => interp_method = "interp1d"%string
  | None => station = None ->
            loc_accepts_1d (length (month_rows time month)) (length df) = true
  end ->
  match station with Some s => (s < length df)%nat | None => True end ->
  inqt_body df time tbl interp_method min_est month
    (frame_of_cells (length df) (length time) c) station
  = Ok (frame_of_cells (length df) (length time)
          (fun j t =>
             if match station with Some s => (j =? s)%nat | None => true end
                && bool_decide (t ∈ month_rows time month)
             then match usable o with
                  | Some e =>
                      filter_small min_est
                        (interp1d_extrapolate (CDF e) (Value e)
                           (norm_cdf (nth t (nth j df []) NaN)))
                  | None => Num 0
                  end
             else c j t)).
Proof.
  intros Hl Hu Hs. unfold inqt_body. rewrite Hl, bind_Ok.
  destruct (usable o) as [e|].
  - rewrite Hu. cbn [String.eqb Ascii.eqb Bool.eqb andb].
    destruct station as [s|]; f_equal.
    + rewrite (loc_set_column_cells _ _ _ _
                 (fun t => filter_small min_est
                             (interp1d_extrapolate (CDF e) (Value e)
                                (norm_cdf (nth t (nth s df []) NaN))))) by exact Hs.
      apply frame_of_cells_ext. intros j t _ _.
      destruct (Nat.eqb_spec j s) as [->|]; reflexivity.
    + rewrite loc_set_rows_cells. apply frame_of_cells_ext. intros j t Hj _.
      cbn [andb]. destruct (bool_decide (t ∈ month_rows time month)); [|reflexivity].
      now rewrite (nth_map_default _ _ _ []).
  - destruct station as [s|].
    + f_equal. rewrite (loc_set_column_cells _ _ _ _ (fun _ => Num 0)) by exact Hs.
      reflexivity.
    + rewrite (Hu eq_refl). f_equal. rewrite loc_set_rows_cells.
      apply frame_of_cells_ext. intros j t Hj _. cbn [andb].
      destruct (bool_decide (t ∈ month_rows time month)); [|reflexivity].
      now rewrite (nth_map_default _ _ _ []).
Qed.
Lemma inverse_cells_upto_1 pooled df time tbl min_est j t :
  inverse_cells_upto pooled df time tbl min_est 1 j t = NaN.
Proof.
  unfold inverse_cells_upto. pose proof (month_of_range (nth t time 0%nat)).
  destruct (Nat.ltb_spec (month_of (nth t time 0%nat)) 1); [lia | reflexivity].
Qed.

Lemma inverse_cells_upto_13 pooled df time tbl min_est j t :
  inverse_cells_upto pooled df time tbl min_est 13 j t
  = inverse_cell pooled df time tbl min_est j t.
Proof.
  unfold inverse_cells_upto. pose proof (month_of_range (nth t time 0%nat)).
  destruct (Nat.ltb_spec (month_of (nth t time 0%nat)) 13); [reflexivity | lia].
Qed.

(** What one station (or the pooled turn) of month [k] writes. *)
Lemma inverse_written (pooled : bool) (df : list (list fl)) (time : list nat)
    tbl min_est k station o j t :
  lookup_cdf tbl station k = Ok o ->
  station = (if pooled then None else Some j) ->
  (t < length time)%nat ->
  (if bool_decide (t ∈ month_rows time k)
   then match usable o with
        | Some e =>
            filter_small min_est
              (interp1d_extrapolate (CDF e) (Value e)
                 (norm_cdf (nth t (nth j df []) NaN)))
        | None => Num 0
        end
   else inverse_cells_upto pooled df time tbl min_est k j t)
  = inverse_cells_upto pooled df time tbl min_est (S k) j t.
Proof.
  intros Hl Hst Ht. unfold inverse_cells_upto, inverse_cell, table_for.
  destruct (bool_decide_reflect (t ∈ month_rows time k)) as [Hin|Hin].
  - apply month_rows_elem in Hin. destruct Hin as [_ Hm]. rewrite Hm, <- Hst, Hl.
    destruct (Nat.ltb_spec k (S k)); [reflexivity | lia].
  - rewrite month_rows_elem in Hin.
    destruct (Nat.ltb_spec (month_of (nth t time 0%nat)) k),
             (Nat.ltb_spec (month_of (nth t time 0%nat)) (S k)); try lia; reflexivity.
Qed.

Lemma inverse_month pooled interp_method df time tbl min_est k :
  (1 <= k <= 12)%nat ->
  inverse_ok pooled interp_method tbl time (length df) ->
  for_each (loop_stations pooled (length df))
    (inqt_body df time tbl interp_method min_est k)
    (frame_of_cells (length df) (length time)
       (inverse_cells_upto pooled df time tbl min_est k))
  = Ok (frame_of_cells (length df) (length time)
          (inverse_cells_upto pooled df time tbl min_est (S k))).
Proof.
  intros Hk Hok. destruct pooled; cbn [loop_stations].
  - destruct (Hok k None Hk) as (o & Hl & Hu); [now left |].
    cbn [for_each].
    rewrite (inqt_body_cells _ _ _ _ _ _ _ None o Hl Hu I), bind_Ok. f_equal.
    apply frame_of_cells_ext. intros j t Hj Ht. cbn [andb].
    now apply (inverse_written true df time tbl min_est k None o j t).
  - rewrite for_each_map.
    destruct (for_each_seq
                (fun j' fr =>
                   fr = frame_of_cells (length df) (length time)
                          (fun j t =>
                             if (j <? j')%nat
                             then inverse_cells_upto false df time tbl min_est (S k) j t
                             else inverse_cells_upto false df time tbl min_est k j t))
                (fun fr s => inqt_body df time tbl interp_method min_est k fr (Some s))
                0%nat (length df)
                (frame_of_cells (length df) (length time)
                   (inverse_cells_upto false df time tbl min_est k)))
      as (fr & Hrun & Hfr).
    + reflexivity.
    + intros s fr0 Hs ->.
      destruct (Hok k (Some s) Hk) as (o & Hl & Hu).
      { cbn. apply list_elem_of_fmap. exists s. split; [reflexivity |].
        apply elem_of_seq. lia. }
      rewrite (inqt_body_cells _ _ _ _ _ _ _ (Some s) o Hl Hu) by lia.
      eexists. split; [reflexivity |].
      apply frame_of_cells_ext. intros j t Hj Ht.
      destruct (Nat.eqb_spec j s) as [->|Hne]; cbn [andb].
      * rewrite Nat.ltb_irrefl. destruct (Nat.ltb_spec s (S s)); [|lia].
        now apply (inverse_written false df time tbl min_est k (Some s) o s t).
      * destruct (Nat.ltb_spec j s), (Nat.ltb_spec j (S s)); try lia; reflexivity.
    + rewrite Hrun, Hfr. f_equal. apply frame_of_cells_ext. intros j t Hj Ht.
      cbn [Nat.add]. destruct (Nat.ltb_spec j (length df)); [reflexivity | lia].
Qed.

Lemma inverse_normal_quantile_transform_cells data time tbl settings df :
  frame_of_data data time = Ok df ->
  inverse_ok (default true (pooled settings))
    (default "interp1d"%string (interp_method settings)) tbl time (length df) ->
  inverse_normal_quantile_transform data time tbl settings
  = Ok (array_of_frame data (length time)
          (frame_of_cells (length df) (length time)
             (inverse_cell (default true (pooled settings)) df time tbl
                (default (Num 0.01) (min_est_value settings))))).
Proof.
  intros Hdf Hok. unfold inverse_normal_quantile_transform.
  rewrite Hdf, bind_Ok. fold (loop_stations (default true (pooled settings)) (length df)).
  set (pl := default true (pooled settings)) in *.
  set (im := default "interp1d"%string (interp_method settings)) in *.
  set (me := default (Num 0.01) (min_est_value settings)).
  destruct (for_each_seq
              (fun k back => back = frame_of_cells (length df) (length time)
                                      (inverse_cells_upto pl df time tbl me k))
              (fun back month =>
                 for_each (loop_stations pl (length df))
                   (inqt_body df time tbl im me month) back)
              1%nat 12%nat (nan_frame (length time) (seq 0 (length df))))
    as (back & Hrun & Hback).
  - rewrite nan_frame_cells. apply frame_of_cells_ext. intros j t _ _.
    now rewrite inverse_cells_upto_1.
  - intros k back Hk ->. eexists. split; [|reflexivity].
    apply inverse_month; [lia | exact Hok].
  - rewrite Hrun, bind_Ok, Hback. do 2 f_equal.
    apply frame_of_cells_ext. intros j t _ _. apply inverse_cells_upto_13.
Qed.

End Inverse.

Section GammaBack.
Context {libs : Libs}.

Lemma nth_imap {A B} (g : nat -> A -> B) (l : list A) j d d' :
  (j < length l)%nat -> nth j (imap g l) d' = g j (nth j l d).
Proof.
  revert g j. induction l as [|a l IH]; intros g j H; cbn in *; [lia |].
  destruct j as [|j]; [reflexivity |]. apply (IH (g ∘ S)). lia.
Qed.

Lemma nth_repeat_lt {A} (x d : A) n j : (j < n)%nat -> nth j (repeat x n) d = x.
Proof.
  revert j. induction n as [|n IH]; intros j H; [lia |].
  destruct j; cbn; [reflexivity | apply IH; lia].
Qed.

Lemma length_zero_iff {A} (l : list A) : (length l =? 0)%nat = true <-> l = [].
Proof. destruct l; cbn; split; congruence. Qed.

Lemma gamma_back_body_cells data df time min_est gs gg month c a loc scale :
  month_rows time month <> [] -> df <> [] ->
  gamma_params data (length df) gs gg month = Ok (a, loc, scale) ->
  gamma_back_body data df time min_est gs gg
    (frame_of_cells (length df) (length time) c) month
  = Ok (frame_of_cells (length df) (length time)
          (fun j t =>
             if bool_decide (t ∈ month_rows time month)
             then filter_small min_est
                    (gamma_ppf (cum_probs_of data (nth t (nth j df []) NaN))
                       (nth j a NaN) (nth j loc NaN) (nth j scale NaN))
             else c j t)).
Proof.
  intros Hrows Hdf Hp. unfold gamma_back_body.
  destruct (length (month_rows time month) =? 0)%nat eqn:E1;
    [apply length_zero_iff in E1; contradiction |].
  destruct (length df =? 0)%nat eqn:E2;
    [apply length_zero_iff in E2; contradiction |].
  cbn [orb]. unfold gamma_params in Hp.
  destruct data as [d1|d2|d3].
  - destruct (mapM (fun s => getitem (gamma_shape gs) (s, month)) (seq 0 (length df)))
      as [sh|] eqn:Esh; [|cbn in Hp; discriminate].
    rewrite bind_Ok in Hp. rewrite bind_Ok.
    destruct (mapM (fun s => getitem (gamma_scale gs) (s, month)) (seq 0 (length df)))
      as [sc|] eqn:Esc; [|cbn in Hp; discriminate].
    rewrite bind_Ok in Hp. inversion Hp; subst a loc scale. clear Hp.
    rewrite !bind_Ok. f_equal.
    rewrite !map_map. cbn [fst snd]. rewrite loc_set_rows_cells.
    apply frame_of_cells_ext. intros j t Hj Ht.
    destruct (bool_decide (t ∈ month_rows time month)); [|reflexivity].
    rewrite (nth_map_default _ _ _ NaN) by now rewrite length_imap, length_map.
    rewrite (nth_imap _ _ _ NaN) by now rewrite length_map.
    rewrite (nth_map_default _ _ _ []) by exact Hj.
    now rewrite nth_repeat_lt.
  - destruct (mapM (fun s => getitem (gamma_shape gs) (s, month)) (seq 0 (length df)))
      as [sh|] eqn:Esh; [|cbn in Hp; discriminate].
    rewrite bind_Ok in Hp. rewrite bind_Ok.
    destruct (mapM (fun s => getitem (gamma_scale gs) (s, month)) (seq 0 (length df)))
      as [sc|] eqn:Esc; [|cbn in Hp; discriminate].
    rewrite bind_Ok in Hp. inversion Hp; subst a loc scale. clear Hp.
    rewrite !bind_Ok. f_equal.
    rewrite !map_map. cbn [fst snd]. rewrite loc_set_rows_cells.
    apply frame_of_cells_ext. intros j t Hj Ht.
    destruct (bool_decide (t ∈ month_rows time month)); [|reflexivity].
    rewrite (nth_map_default _ _ _ NaN) by now rewrite length_imap, length_map.
    rewrite (nth_imap _ _ _ NaN) by now rewrite length_map.
    rewrite (nth_map_default _ _ _ []) by exact Hj.
    now rewrite nth_repeat_lt.
  - destruct gg as [ds|]; [|cbn in Hp; discriminate]. rewrite bind_Ok in Hp. rewrite bind_Ok.
    destruct (getitem (grid_shape ds) month) as [ga|] eqn:E3; [|cbn in Hp; discriminate].
    rewrite bind_Ok in Hp. rewrite bind_Ok.
    destruct (getitem (grid_scale ds) month) as [gsc|] eqn:E4; [|cbn in Hp; discriminate].
    rewrite bind_Ok in Hp. rewrite bind_Ok.
    destruct (broadcast_to (length df) (concat ga)) as [af|] eqn:E5;
      [|cbn in Hp; discriminate].
    rewrite bind_Ok in Hp. rewrite bind_Ok.
    destruct (broadcast_to (length df) (concat (map (map (fun _ => Num 0)) gsc)))
      as [lf|] eqn:E6; [|cbn in Hp; discriminate].
    rewrite bind_Ok in Hp. rewrite bind_Ok.
    destruct (broadcast_to (length df) (concat gsc)) as [sf|] eqn:E7;
      [|cbn in Hp; discriminate].
    rewrite bind_Ok in Hp. rewrite bind_Ok. inversion Hp; subst a loc scale. clear Hp.
    rewrite bind_Ok. f_equal.
    rewrite !map_map. cbn [fst snd]. rewrite loc_set_rows_cells.
    apply frame_of_cells_ext. intros j t Hj Ht.
    destruct (bool_decide (t ∈ month_rows time month)); [|reflexivity].
    rewrite (nth_map_default _ _ _ NaN) by now rewrite length_imap, length_map.
    rewrite (nth_imap _ _ _ NaN) by now rewrite length_map.
    now rewrite (nth_map_default _ _ _ []) by exact Hj.
Qed.
Lemma gamma_back_month data df time min_est gs gg k :
  (1 <= k <= 12)%nat ->
  gamma_back_ok data df time gs gg ->
  gamma_back_body data df time min_est gs gg
    (frame_of_cells (length df) (length time)
       (gamma_back_cells_upto data df time min_est gs gg k)) k
  = Ok (frame_of_cells (length df) (length time)
          (gamma_back_cells_upto data df time min_est gs gg (S k))).
Proof.
  intros Hk Hok.
  destruct (decide (month_rows time k = [])) as [Hr|Hr];
    [|destruct (decide (df = [])) as [Hd|Hd]].
  - unfold gamma_back_body. rewrite Hr. cbn [length Nat.eqb orb]. f_equal.
    apply frame_of_cells_ext. intros j t Hj Ht. unfold gamma_back_cells_upto.
    assert (month_of (nth t time 0%nat) <> k).
    { intros E. assert (Hin : t ∈ month_rows time k) by now apply month_rows_elem.
      rewrite Hr in Hin. inversion Hin. }
    destruct (Nat.ltb_spec (month_of (nth t time 0%nat)) k),
             (Nat.ltb_spec (month_of (nth t time 0%nat)) (S k)); try lia; reflexivity.
  - unfold gamma_back_body. subst df. cbn [length Nat.eqb orb].
    rewrite orb_true_r. reflexivity.
  - destruct (Hok k Hk Hr Hd) as ([[a loc] scale] & Hp).
    rewrite (gamma_back_body_cells _ _ _ _ _ _ _ _ a loc scale Hr Hd Hp). f_equal.
    apply frame_of_cells_ext. intros j t Hj Ht.
    unfold gamma_back_cells_upto, gamma_back_cell.
    destruct (bool_decide_reflect (t ∈ month_rows time k)) as [Hin|Hin].
    + apply month_rows_elem in Hin. destruct Hin as [_ Hm]. rewrite Hm, Hp.
      destruct (Nat.ltb_spec k (S k)); [reflexivity | lia].
    + rewrite month_rows_elem in Hin.
      destruct (Nat.ltb_spec (month_of (nth t time 0%nat)) k),
               (Nat.ltb_spec (month_of (nth t time 0%nat)) (S k)); try lia; reflexivity.
Qed.

Lemma gamma_back_transform_cells data time settings gs gg df :
  frame_of_data data time = Ok df ->
  gamma_back_ok data df time gs gg ->
  gamma_back_transform data time settings gs gg
  = Ok (array_of_frame data (length time)
          (frame_of_cells (length df) (length time)
             (gamma_back_cell data df time
                (default (Num 0.01) (min_est_value settings)) gs gg))).
Proof.
  intros Hdf Hok. unfold gamma_back_transform. rewrite Hdf, bind_Ok.
  set (me := default (Num 0.01) (min_est_value settings)).
  destruct (for_each_seq
              (fun k back => back = frame_of_cells (length df) (length time)
                                      (gamma_back_cells_upto data df time me gs gg k))
              (gamma_back_body data df time me gs gg)
              1%nat 12%nat (nan_frame (length time) (seq 0 (length df))))
    as (back & Hrun & Hback).
  - rewrite nan_frame_cells. apply frame_of_cells_ext. intros j t _ _.
    unfold gamma_back_cells_upto. pose proof (month_of_range (nth t time 0%nat)).
    destruct (Nat.ltb_spec (month_of (nth t time 0%nat)) 1); [lia | reflexivity].
  - intros k back Hk ->. eexists. split; [|reflexivity].
    apply gamma_back_month; [lia | exact Hok].
  - rewrite Hrun, bind_Ok, Hback. do 2 f_equal.
    apply frame_of_cells_ext. intros j t _ _.
    unfold gamma_back_cells_upto. pose proof (month_of_range (nth t time 0%nat)).
    change (1 + 12)%nat with 13%nat.
    destruct (Nat.ltb_spec (month_of (nth t time 0%nat)) 13); [reflexivity | lia].
Qed.

End GammaBack.

(** ** The cells of the array an inverse transform returns *)

Lemma filter_small_settled min_est v : settled min_est (filter_small min_est v).
Proof.
  unfold settled, filter_small.
  destruct (ltb v min_est) eqn:E; cbn [nan_to_num]; [exists 0; auto |].
  destruct v as [|x]; cbn [nan_to_num]; [exists 0; auto |].
  exists x. auto.
Qed.

Lemma zero_settled min_est : settled min_est (Num 0).
Proof. exists 0. auto. Qed.

Lemma Forall_concat {A} (P : A -> Prop) (l : list (list A)) :
  Forall (Forall P) l -> Forall P (concat l).
Proof. induction 1; cbn; [constructor | now apply Forall_app]. Qed.

Lemma Forall_reshape3 {P : list fl -> Prop} nrows ncols (a : list (list fl)) :
  Forall P a -> Forall (Forall P) (reshape3 nrows ncols a).
Proof.
  revert a. induction nrows as [|nrows IH]; intros a H; cbn; [constructor |].
  constructor; [now apply Forall_take | apply IH; now apply Forall_drop].
Qed.

Lemma matrix_of_cells_Forall (P : fl -> Prop) n ntime c :
  (forall j t, (j < n)%nat -> (t < ntime)%nat -> P (c j t)) ->
  Forall (Forall P) (matrix_of_cells n ntime c).
Proof.
  intros H. unfold matrix_of_cells. apply Forall_forall. intros row Hrow.
  apply list_elem_of_In, in_map_iff in Hrow. destruct Hrow as (t & <- & Ht).
  apply in_seq in Ht. apply Forall_forall. intros v Hv.
  apply list_elem_of_In, in_map_iff in Hv. destruct Hv as (j & <- & Hj).
  apply in_seq in Hj. apply H; lia.
Qed.

Lemma transpose_matrix_Forall (P : fl -> Prop) n ntime c :
  (forall j t, (j < n)%nat -> (t < ntime)%nat -> P (c j t)) ->
  Forall (Forall P) (transpose (matrix_of_cells n ntime c)).
Proof.
  intros H. unfold transpose. apply Forall_forall. intros col Hcol.
  apply list_elem_of_In, in_map_iff in Hcol. destruct Hcol as (j & <- & Hj).
  apply in_seq in Hj. apply Forall_forall. intros v Hv.
  apply list_elem_of_In, in_map_iff in Hv. destruct Hv as (row & <- & Hrow).
  unfold matrix_of_cells in Hrow, Hj. apply in_map_iff in Hrow.
  destruct Hrow as (t & <- & Ht). apply in_seq in Ht.
  assert (Hjn : (j < n)%nat).
  { destruct ntime as [|ntime]; [lia |]. cbn in Hj.
    rewrite length_map, length_seq in Hj. lia. }
  rewrite nth_map_seq by exact Hjn. apply H; lia.
Qed.

Lemma array_of_frame_Forall (P : fl -> Prop) data n ntime c :
  (forall j t, (j < n)%nat -> (t < ntime)%nat -> P (c j t)) ->
  Forall P (cells (array_of_frame data ntime (frame_of_cells n ntime c))).
Proof.
  intros H. unfold array_of_frame. rewrite to_numpy_cells.
  destruct data as [a|a|a]; cbn [cells].
  - now apply Forall_concat, matrix_of_cells_Forall.
  - now apply Forall_concat, matrix_of_cells_Forall.
  - apply Forall_concat, Forall_concat, Forall_reshape3.
    now apply transpose_matrix_Forall.
Qed.

Lemma filter_small_cases min_est v :
  filter_small min_est v = if ltb v min_est || isnan v then Num 0 else v.
Proof.
  unfold filter_small. destruct (ltb v min_est); [reflexivity |].
  destruct v; reflexivity.
Qed.

Lemma clip_not_above z lo hi : gtb (clip z lo hi) (Num hi) = false.
Proof.
  destruct z as [|x]; [reflexivity |]. cbn [clip]. apply gtb_false, Rmin_r.
Qed.

Section InverseClaims.
Context {libs : Libs}.

(** C7.  On input that raises no exception (the frame can be built, the
    tables or gamma parameters can be fetched), the inverse
    quantile-normal transform and the gamma inverse transform each
    return the array of their cells, and every cell is a filtered
    reconstructed value.  With [v] the value reconstructed for the cell
    (the extrapolating interpolation of the stratum's table at
    [norm.cdf z], or [gamma.ppf] at the cell's probability with the
    cell's parameters), the cell is exactly 0 when [v] is below
    [min_est_value] or missing, and [v] itself otherwise; the cell of a
    stratum without usable table is 0.  Hence every cell of either
    result is a number that is 0 or not below [min_est_value]: none is
    missing, none lies strictly between 0 and [min_est_value]. *)
Theorem small_values_become_zero
    (data : ndarray) (time : list nat) (tbl : monthly_cdfs_t)
    (settings : Settings) (df : list (list fl))
    (gdata : ndarray) (gtime : list nat) (gsettings : Settings)
    (gs : gamma_station) (gg : option gamma_gridded) (gdf : list (list fl)) :
  frame_of_data data time = Ok df ->
  inverse_ok (default true (pooled settings))
    (default "interp1d"%string (interp_method settings)) tbl time (length df) ->
  frame_of_data gdata gtime = Ok gdf ->
  gamma_back_ok gdata gdf gtime gs gg ->
  let min_est := default (Num 0.01) (min_est_value settings) in
  let gmin_est := default (Num 0.01) (min_est_value gsettings) in
  exists cell_ecdf cell_gamma,
    inverse_normal_quantile_transform data time tbl settings
    = Ok (array_of_frame data (length time)
            (frame_of_cells (length df) (length time) cell_ecdf)) /\
    gamma_back_transform gdata gtime gsettings gs gg
    = Ok (array_of_frame gdata (length gtime)
            (frame_of_cells (length gdf) (length gtime) cell_gamma)) /\
    (* the empirical CDF cells *)
    (forall j t, (j < length df)%nat -> (t < length time)%nat ->
       match table_for tbl (if default true (pooled settings) then None else Some j)
               (month_of (nth t time 0%nat)) with
       | Some e =>
           let v := interp1d_extrapolate (CDF e) (Value e)
                      (norm_cdf (nth t (nth j df []) NaN)) in
           cell_ecdf j t = if ltb v min_est || isnan v then Num 0 else v
       | None => cell_ecdf j t = Num 0
       end) /\
    (* the gamma cells *)
    (forall j t, (j < length gdf)%nat -> (t < length gtime)%nat ->
       exists a loc scale,
         gamma_params gdata (length gdf) gs gg (month_of (nth t gtime 0%nat))
         = Ok (a, loc, scale) /\
         let v := gamma_ppf (cum_probs_of gdata (nth t (nth j gdf []) NaN))
                    (nth j a NaN) (nth j loc NaN) (nth j scale NaN) in
         cell_gamma j t = if ltb v gmin_est || isnan v then Num 0 else v) /\
    (* no cell is missing or a small value *)
    Forall (settled min_est)
      (cells (array_of_frame data (length time)
                (frame_of_cells (length df) (length time) cell_ecdf))) /\
    Forall (settled gmin_est)
      (cells (array_of_frame gdata (length gtime)
                (frame_of_cells (length gdf) (length gtime) cell_gamma))).
Proof.
  intros Hdf Hinv Hgdf Hgam min_est gmin_est.
  assert (Hpar : forall j t, (j < length gdf)%nat -> (t < length gtime)%nat ->
            exists ps, gamma_params gdata (length gdf) gs gg
                         (month_of (nth t gtime 0%nat)) = Ok ps).
  { intros j t Hj Ht. apply Hgam.
    - apply month_of_range.
    - intros E. assert (Hin : t ∈ month_rows gtime (month_of (nth t gtime 0%nat)))
        by now apply month_rows_elem.
      rewrite E in Hin. inversion Hin.
    - intros ->. cbn in Hj. lia. }
  exists (inverse_cell (default true (pooled settings)) df time tbl min_est),
         (gamma_back_cell gdata gdf gtime gmin_est gs gg).
  split; [now apply (inverse_normal_quantile_transform_cells data time tbl settings df) |].
  split; [now apply (gamma_back_transform_cells gdata gtime gsettings gs gg gdf) |].
  split; [|split; [|split]].
  - intros j t _ _. unfold inverse_cell.
    destruct (table_for _ _ _); [apply filter_small_cases | reflexivity].
  - intros j t Hj Ht. unfold gamma_back_cell.
    destruct (Hpar j t Hj Ht) as ([[a loc] scale] & Hp). rewrite Hp.
    exists a, loc, scale. split; [reflexivity | apply filter_small_cases].
  - apply array_of_frame_Forall. intros j t _ _. unfold inverse_cell.
    destruct (table_for _ _ _); [apply filter_small_settled | apply zero_settled].
  - apply array_of_frame_Forall. intros j t Hj Ht. unfold gamma_back_cell.
    destruct (Hpar j t Hj Ht) as ([[a loc] scale] & Hp). rewrite Hp.
    apply filter_small_settled.
Qed.

(** C10.  In the gamma inverse transform a two-dimensional (station)
    input hands [norm.cdf z] to [gamma.ppf] as it is, so a z-score [z0]
    whose normal probability [p0] exceeds 0.99999 has [gamma.ppf]
    evaluated at [p0]; a three-dimensional (grid) input hands
    [clip (norm.cdf z) 0 0.99999], which never exceeds 0.99999.
    [gamma.ppf] being uninterpreted, the cell equations say which
    probability each path passes. *)
Theorem gamma_back_clips_on_grid_only
    (z0 p0 : R) (stamp : nat) (a s : fl) (gs : gamma_station)
    (gg : option gamma_gridded) (settings : Settings)
    (data2 : list (list fl)) (time2 : list nat) (df2 : list (list fl))
    (gs2 : gamma_station) (gg2 : option gamma_gridded)
    (data3 : list (list (list fl))) (time3 : list nat) (df3 : list (list fl))
    (gs3 : gamma_station) (gg3 : option gamma_gridded) :
  norm_cdf (Num z0) = Num p0 -> 0.99999 < p0 ->
  gamma_shape gs !! (0%nat, month_of stamp) = Some a ->
  gamma_scale gs !! (0%nat, month_of stamp) = Some s ->
  frame_of_data (Array2 data2) time2 = Ok df2 ->
  gamma_back_ok (Array2 data2) df2 time2 gs2 gg2 ->
  frame_of_data (Array3 data3) time3 = Ok df3 ->
  gamma_back_ok (Array3 data3) df3 time3 gs3 gg3 ->
  let min_est := default (Num 0.01) (min_est_value settings) in
  (* stations: the probability of [norm.cdf] goes to [gamma.ppf] as it is *)
  (exists cell2,
     gamma_back_transform (Array2 data2) time2 settings gs2 gg2
     = Ok (array_of_frame (Array2 data2) (length time2)
             (frame_of_cells (length df2) (length time2) cell2)) /\
     forall j t, (j < length df2)%nat -> (t < length time2)%nat ->
       exists a loc scale,
         cell2 j t
         = filter_small min_est
             (gamma_ppf (norm_cdf (nth t (nth j df2 []) NaN)) a loc scale)) /\
  (* one station, one time stamp, the z-score [z0] *)
  gamma_back_transform (Array2 [[Num z0]]) [stamp] settings gs gg
  = Ok (Array2 [[filter_small min_est (gamma_ppf (Num p0) a (Num 0) s)]]) /\
  (* grid: the probability is clipped first *)
  (exists cell3,
     gamma_back_transform (Array3 data3) time3 settings gs3 gg3
     = Ok (array_of_frame (Array3 data3) (length time3)
             (frame_of_cells (length df3) (length time3) cell3)) /\
     forall j t, (j < length df3)%nat -> (t < length time3)%nat ->
       exists a loc scale p,
         cell3 j t = filter_small min_est (gamma_ppf p a loc scale) /\
         p = clip (norm_cdf (nth t (nth j df3 []) NaN)) 0 0.99999 /\
         gtb p (Num 0.99999) = false).
Proof.
  intros Hcdf Hp0 Ha Hs Hdf2 Hok2 Hdf3 Hok3 min_est.
  split; [|split].
  - eexists. split; [now apply (gamma_back_transform_cells _ _ _ _ _ df2) |].
    intros j t Hj Ht. unfold gamma_back_cell.
    destruct (Hok2 (month_of (nth t time2 0%nat))) as ([[a' loc'] scale'] & Hp).
    + apply month_of_range.
    + intros E. assert (Hin : t ∈ month_rows time2 (month_of (nth t time2 0%nat)))
        by now apply month_rows_elem.
      rewrite E in Hin. inversion Hin.
    + intros ->. cbn in Hj. lia.
    + rewrite Hp. eexists. eexists. eexists. reflexivity.
  - assert (Hpar : gamma_params (Array2 [[Num z0]]) 1 gs gg (month_of stamp)
                   = Ok ([a], [Num 0], [s])).
    { unfold gamma_params. cbn [seq mapM].
      rewrite (getitem_some _ _ _ Ha), (getitem_some _ _ _ Hs). reflexivity. }
    rewrite (gamma_back_transform_cells _ _ _ _ _ [[Num z0]]).
    + unfold array_of_frame. rewrite to_numpy_cells. cbn [length matrix_of_cells seq map].
      unfold gamma_back_cell. cbn [length nth]. rewrite Hpar. cbn [nth cum_probs_of].
      unfold cum_probs_station. now rewrite Hcdf.
    + reflexivity.
    + intros month Hm Hrows _. cbn [length].
      assert (month = month_of stamp).
      { unfold month_rows in Hrows. cbn [length seq List.filter nth] in Hrows.
        destruct (Nat.eqb_spec (month_of stamp) month); [congruence | contradiction]. }
      subst month. eexists. exact Hpar.
  - eexists. split; [now apply (gamma_back_transform_cells _ _ _ _ _ df3) |].
    intros j t Hj Ht. unfold gamma_back_cell.
    destruct (Hok3 (month_of (nth t time3 0%nat))) as ([[a' loc'] scale'] & Hp).
    + apply month_of_range.
    + intros E. assert (Hin : t ∈ month_rows time3 (month_of (nth t time3 0%nat)))
        by now apply month_rows_elem.
      rewrite E in Hin. inversion Hin.
    + intros ->. cbn in Hj. lia.
    + rewrite Hp. eexists. eexists. eexists. eexists.
      split; [reflexivity |]. split; [reflexivity |]. apply clip_not_above.
Qed.

End InverseClaims.

(** The twelve cases of a month between 1 and 12. *)
Ltac months_1_12 month Hm tac :=
  let Hin := fresh "Hin" in
  assert (Hin : month ∈ seq 1 12) by (apply elem_of_seq; lia);
  cbn [seq] in Hin;
  repeat (apply elem_of_cons in Hin; destruct Hin as [->|Hin]);
  [.. | inversion Hin]; tac.

Lemma sample_tables_all_lookup month :
  (1 <= month <= 12)%nat ->
  lookup_cdf sample_tables_all None month = Ok (Some sample_table).
Proof. intros Hm. months_1_12 month Hm ltac:(reflexivity). Qed.

(** C7 on the sample z-scores, with a table in every month, and on the
    sample grid. *)
Lemma small_values_become_zero_witness :
  exists cell_ecdf cell_gamma,
    inverse_normal_quantile_transform (libs := sample_libs)
      (Array2 sample_z_scores) sample_times sample_tables_all sample_settings
    = Ok (array_of_frame (Array2 sample_z_scores) (length sample_times)
            (frame_of_cells (length sample_z_scores) (length sample_times)
               cell_ecdf)) /\
    gamma_back_transform (libs := sample_libs)
      (Array3 sample_grid) sample_times sample_settings
      sample_gamma_station (Some sample_gamma_gridded)
    = Ok (array_of_frame (Array3 sample_grid) (length sample_times)
            (frame_of_cells (length [[Num 5; NaN]]) (length sample_times)
               cell_gamma)) /\
    (forall j t, (j < length sample_z_scores)%nat -> (t < length sample_times)%nat ->
       match table_for sample_tables_all
               (if default true (pooled sample_settings) then None else Some j)
               (month_of (nth t sample_times 0%nat)) with
       | Some e =>
           let v := interp1d_extrapolate (Libs := sample_libs) (CDF e) (Value e)
                      (norm_cdf (Libs := sample_libs)
                         (nth t (nth j sample_z_scores []) NaN)) in
           cell_ecdf j t = if ltb v (Num 0.01) || isnan v then Num 0 else v
       | None => cell_ecdf j t = Num 0
       end) /\
    (forall j t, (j < length [[Num 5; NaN]])%nat -> (t < length sample_times)%nat ->
       exists a loc scale,
         gamma_params (Array3 sample_grid) (length [[Num 5; NaN]])
           sample_gamma_station (Some sample_gamma_gridded)
           (month_of (nth t sample_times 0%nat))
         = Ok (a, loc, scale) /\
         let v := gamma_ppf (Libs := sample_libs)
                    (cum_probs_of (libs := sample_libs) (Array3 sample_grid)
                       (nth t (nth j [[Num 5; NaN]] []) NaN))
                    (nth j a NaN) (nth j loc NaN) (nth j scale NaN) in
         cell_gamma j t = if ltb v (Num 0.01) || isnan v then Num 0 else v) /\
    Forall (settled (Num 0.01))
      (cells (array_of_frame (Array2 sample_z_scores) (length sample_times)
                (frame_of_cells (length sample_z_scores) (length sample_times)
                   cell_ecdf))) /\
    Forall (settled (Num 0.01))
      (cells (array_of_frame (Array3 sample_grid) (length sample_times)
                (frame_of_cells (length [[Num 5; NaN]]) (length sample_times)
                   cell_gamma))).
Proof.
  apply (small_values_become_zero (libs := sample_libs)
           (Array2 sample_z_scores) sample_times sample_tables_all sample_settings
           sample_z_scores
           (Array3 sample_grid) sample_times sample_settings
           sample_gamma_station (Some sample_gamma_gridded) [[Num 5; NaN]]).
  - reflexivity.
  - intros month station Hm Hst.
    apply list_elem_of_singleton in Hst. subst station.
    exists (Some sample_table).
    split; [now apply sample_tables_all_lookup | reflexivity].
  - reflexivity.
  - intros month Hm _ _. months_1_12 month Hm ltac:(eexists; reflexivity).
Defined.

(** C10 on the samples, with the z-score 5, whose probability under the
    stand-in distribution is 1. *)
Lemma gamma_back_clips_on_grid_only_witness :
  let p0 := Rmin (Rmax ((5 + 5) / 10) 0) 1 in
  (exists cell2,
     gamma_back_transform (libs := sample_libs) (Array2 sample_z_scores)
       sample_times sample_settings sample_gamma_station None
     = Ok (array_of_frame (Array2 sample_z_scores) (length sample_times)
             (frame_of_cells (length sample_z_scores) (length sample_times) cell2)) /\
     forall j t, (j < length sample_z_scores)%nat -> (t < length sample_times)%nat ->
       exists a loc scale,
         cell2 j t
         = filter_small (Num 0.01)
             (gamma_ppf (Libs := sample_libs)
                (norm_cdf (Libs := sample_libs)
                   (nth t (nth j sample_z_scores []) NaN)) a loc scale)) /\
  gamma_back_transform (libs := sample_libs) (Array2 [[Num 5]]) [0%nat]
    sample_settings sample_gamma_station None
  = Ok (Array2 [[filter_small (Num 0.01)
                   (gamma_ppf (Libs := sample_libs) (Num p0) (Num 2) (Num 0) (Num 3))]]) /\
  (exists cell3,
     gamma_back_transform (libs := sample_libs) (Array3 sample_grid)
       sample_times sample_settings sample_gamma_station (Some sample_gamma_gridded)
     = Ok (array_of_frame (Array3 sample_grid) (length sample_times)
             (frame_of_cells 1 (length sample_times) cell3)) /\
     forall j t, (j < 1)%nat -> (t < length sample_times)%nat ->
       exists a loc scale p,
         cell3 j t
         = filter_small (Num 0.01) (gamma_ppf (Libs := sample_libs) p a loc scale) /\
         p = clip (norm_cdf (Libs := sample_libs)
                     (nth t (nth j [[Num 5; NaN]] []) NaN)) 0 0.99999 /\
         gtb p (Num 0.99999) = false).
Proof.
  apply (gamma_back_clips_on_grid_only (libs := sample_libs)
           5 (Rmin (Rmax ((5 + 5) / 10) 0) 1) 0%nat (Num 2) (Num 3)
           sample_gamma_station None sample_settings
           sample_z_scores sample_times sample_z_scores sample_gamma_station None
           sample_grid sample_times [[Num 5; NaN]] sample_gamma_station
           (Some sample_gamma_gridded)).
  - reflexivity.
  - unfold Rmin, Rmax.
    destruct (Rle_dec ((5 + 5) / 10) 0); [lra |].
    destruct (Rle_dec ((5 + 5) / 10) 1); lra.
  - reflexivity.
  - reflexivity.
  - reflexivity.
  - intros month Hm _ _. months_1_12 month Hm ltac:(eexists; reflexivity).
  - reflexivity.
  - intros month Hm _ _. months_1_12 month Hm ltac:(eexists; reflexivity).
Defined.
(* ===================================================================== *)
(** * Part II, continued: further properties of the transformation code *)
(* ===================================================================== *)

(** ** The power transforms, cell by cell *)

Lemma zip_with_map_r {A B C} (f : A -> B -> C) (g : A -> B) (l : list A) :
  zip_with f l (map g l) = map (fun x => f x (g x)) l.
Proof. induction l as [|a l IH]; cbn; [reflexivity | now rewrite IH]. Qed.

Lemma ndmask_ndmap mask v f a :
  ndmask mask v a (ndmap f a) = ndmap (fun x => if mask x then v else f x) a.
Proof.
  destruct a as [a|a|a]; cbn; f_equal.
  - apply zip_with_map_r.
  - rewrite zip_with_map_r. apply map_ext. intros r. apply zip_with_map_r.
  - rewrite zip_with_map_r. apply map_ext. intros p.
    rewrite zip_with_map_r. apply map_ext. intros r. apply zip_with_map_r.
Qed.

Lemma ndmap_ext f g a : (forall x, f x = g x) -> ndmap f a = ndmap g a.
Proof.
  intros E. destruct a as [a|a|a]; cbn; f_equal.
  - now apply map_ext.
  - apply map_ext. intros. now apply map_ext.
  - apply map_ext. intros. apply map_ext. intros. now apply map_ext.
Qed.

Lemma biasadjustment_from_array l a sigma_square texp w :
  heap w !! l = Some a ->
  let l1 := fresh (dom (heap w)) in
  let h1 := <[l1 := ndmap (clamp_below (- texp)) a]> (heap w) in
  (data ← copy l;
   a ← load data;
   _ ← store data (ndmap (clamp_below (- texp)) a);
   a ← load data;
   inv ← lift (py_inv texp);
   datat ← alloc (ndmap (fun x =>
                          mul (power (add (div x (Num texp)) (Num 1)) (Num texp))
                              (add (Num 1)
                                   (div (Num (sigma_square * (1 - inv)))
                                        (mul (Num 2)
                                             (power (add (div x (Num texp)) (Num 1))
                                                    (Num 2))))))
                       a);
   d ← load datat;
   _ ← store datat (ndmask (fun x => eqb x (Num (- texp))) (Num 0) a d);
   mret datat) w
  = if Req_dec_T texp 0 then (Raise ZeroDivisionError, mkWorld h1 (stdout w))
    else (Ok (fresh (dom h1)),
          mkWorld (<[fresh (dom h1) := ndmap (biasadjustment_cell sigma_square texp) a]> h1)
                  (stdout w)).
Proof.
  intros H l1 h1.
  rewrite bind_run, (copy_run l a) by exact H. fold l1.
  rewrite bind_run, (load_run l1 a) by (cbn; apply lookup_insert_eq).
  rewrite bind_run, (store_run l1 _ a) by (cbn; apply lookup_insert_eq).
  cbn [heap stdout]. rewrite insert_insert_eq. fold h1.
  rewrite bind_run, (load_run l1 (ndmap (clamp_below (- texp)) a))
    by (cbn; apply lookup_insert_eq).
  rewrite bind_run. unfold lift at 1, py_inv.
  destruct (Req_dec_T texp 0) as [E0|N0]; [reflexivity |].
  rewrite bind_run. unfold alloc at 1. cbn [heap stdout].
  set (l2 := fresh (dom h1)).
  rewrite bind_run.
  match goal with |- context [load l2 (mkWorld (<[l2 := ?d]> h1) ?o)] =>
    rewrite (load_run l2 d) by (cbn; apply lookup_insert_eq);
    rewrite bind_run, (store_run l2 _ d) by (cbn; apply lookup_insert_eq)
  end.
  cbn [heap stdout]. rewrite insert_insert_eq.
  unfold mret, M_ret. f_equal. f_equal. f_equal.
  rewrite ndmask_ndmap, ndmap_ndmap. apply ndmap_ext. intros x.
  unfold biasadjustment_cell. reflexivity.
Qed.

Lemma biasadjustment_run l a sigma_square texp w :
  heap w !! l = Some a -> texp <> 0 ->
  let h1 := <[fresh (dom (heap w)) := ndmap (clamp_below (- texp)) a]> (heap w) in
  boxcox_back_transform_biasadjustment (Ref l) sigma_square texp w
  = (Ok (fresh (dom h1)),
     mkWorld (<[fresh (dom h1) := ndmap (biasadjustment_cell sigma_square texp) a]> h1)
             (stdout w)).
Proof.
  intros H He h1. unfold boxcox_back_transform_biasadjustment.
  change (match Ref l with Ref l0 => copy l0 | PyList a0 => alloc a0 end)
    with (copy l).
  rewrite (biasadjustment_from_array l a sigma_square texp w H).
  destruct (Req_dec_T texp 0); [contradiction | reflexivity].
Qed.

Lemma back_cell_nan texp : texp <> 0 -> back_cell texp NaN = NaN.
Proof.
  intros He. unfold back_cell, clamp_below. cbn.
  destruct (Req_dec_T texp 0); [contradiction | reflexivity].
Qed.

(** The back transform on a number: the clamped base raised to [texp]. *)
Lemma back_cell_num texp x :
  0 < texp ->
  back_cell texp (Num x)
  = if Rle_dec x (- texp) then Num 0 else Num (Rpower (x / texp + 1) texp).
Proof.
  intros He. unfold back_cell, clamp_below, ltb.
  assert (Hdiv : forall y, - texp < y -> 0 < y / texp + 1).
  { intros y Hy. apply Rmult_lt_reg_r with texp; [lra |].
    replace ((y / texp + 1) * texp) with (y + texp) by (field; lra). lra. }
  destruct (Rlt_dec x (- texp)) as [Hlt|Hge].
  - destruct (Rle_dec x (- texp)); [|lra].
    cbn [div]. destruct (Req_dec_T texp 0); [lra |]. cbn [add power].
    destruct (Req_dec_T texp 0); [lra |].
    replace (- texp / texp + 1) with 0 by (field; lra).
    destruct (Rlt_dec 0 0); [lra |]. destruct (Req_dec_T 0 0); [|lra].
    destruct (Rlt_dec 0 texp); [reflexivity | lra].
  - cbn [div]. destruct (Req_dec_T texp 0); [lra |]. cbn [add power].
    destruct (Req_dec_T texp 0); [lra |].
    destruct (Rle_dec x (- texp)) as [Hle|Hgt].
    + assert (x = - texp) by lra. subst x.
      replace (- texp / texp + 1) with 0 by (field; lra).
      destruct (Rlt_dec 0 0); [lra |]. destruct (Req_dec_T 0 0); [|lra].
      destruct (Rlt_dec 0 texp); [reflexivity | lra].
    + assert (0 < x / texp + 1) by (apply Hdiv; lra).
      destruct (Rlt_dec 0 (x / texp + 1)); [reflexivity | lra].
Qed.

(** The bias-adjusted transform on a number: the back transform times
    the correction factor. *)
Lemma biasadjustment_cell_num sigma_square texp x :
  0 < texp ->
  biasadjustment_cell sigma_square texp (Num x)
  = if Rle_dec x (- texp) then Num 0
    else Num (Rpower (x / texp + 1) texp
              * (1 + sigma_square * (1 - 1 / texp) / (2 * Rpower (x / texp + 1) 2))).
Proof.
  intros He. unfold biasadjustment_cell, clamp_below, ltb, eqb.
  destruct (Rlt_dec x (- texp)) as [Hlt|Hge].
  - destruct (Req_dec_T (- texp) (- texp)); [|lra].
    destruct (Rle_dec x (- texp)); [reflexivity | lra].
  - destruct (Req_dec_T x (- texp)) as [Heq|Hne].
    + destruct (Rle_dec x (- texp)); [reflexivity | lra].
    + destruct (Rle_dec x (- texp)); [lra |].
      assert (Hb : 0 < x / texp + 1).
      { apply Rmult_lt_reg_r with texp; [lra |].
        replace ((x / texp + 1) * texp) with (x + texp) by (field; lra). lra. }
      cbn [div]. destruct (Req_dec_T texp 0); [lra |]. cbn [add power].
      destruct (Req_dec_T texp 0); [lra |].
      destruct (Req_dec_T 2 0); [lra |].
      destruct (Rlt_dec 0 (x / texp + 1)); [|lra].
      cbn [mul div].
      assert (0 < Rpower (x / texp + 1) 2) by (unfold Rpower; apply exp_pos).
      destruct (Req_dec_T (2 * Rpower (x / texp + 1) 2) 0); [lra |].
      reflexivity.
Qed.

Lemma biasadjustment_cell_nan sigma_square texp :
  texp <> 0 -> biasadjustment_cell sigma_square texp NaN = NaN.
Proof.
  intros He. unfold biasadjustment_cell, clamp_below. cbn.
  destruct (Req_dec_T texp 0); [contradiction | reflexivity].
Qed.

(** X1.  Without variance the bias-adjusted back transform is the plain
    back transform: for an exponent [texp > 0] and [sigma_square = 0] both
    calls return a new array, and the two arrays hold the same cells,
    missing cells and cells below the clamp included. *)
Theorem biasadjustment_without_variance (w : world) (l : loc) (a : ndarray)
    (texp : R) :
  heap w !! l = Some a -> 0 < texp ->
  exists l1 w1 l2 w2 out,
    boxcox_back_transform_biasadjustment (Ref l) 0 texp w = (Ok l1, w1) /\
    boxcox_back_transform (Ref l) texp w = (Ok l2, w2) /\
    heap w1 !! l1 = Some out /\ heap w2 !! l2 = Some out.
Proof.
  intros H He.
  rewrite (biasadjustment_run l a 0 texp w H) by lra.
  rewrite (boxcox_back_transform_run l a texp w H).
  do 4 eexists. exists (ndmap (back_cell texp) a).
  split; [reflexivity |]. split; [reflexivity |].
  cbn [heap]. rewrite !lookup_insert_eq. split; [|reflexivity].
  f_equal. apply ndmap_ext. intros [|x].
  - rewrite back_cell_nan, biasadjustment_cell_nan by lra. reflexivity.
  - rewrite back_cell_num, biasadjustment_cell_num by lra.
    destruct (Rle_dec x (- texp)); [reflexivity |].
    f_equal. unfold Rdiv. ring.
Qed.

(** X1 on an array with a cell below the clamp and the exponent 4. *)
Lemma biasadjustment_without_variance_witness :
  exists l1 w1 l2 w2 out,
    boxcox_back_transform_biasadjustment (Ref 1%positive) 0 4 sample_world
      = (Ok l1, w1) /\
    boxcox_back_transform (Ref 1%positive) 4 sample_world = (Ok l2, w2) /\
    heap w1 !! l1 = Some out /\ heap w2 !! l2 = Some out.
Proof.
  apply (biasadjustment_without_variance sample_world 1%positive
           (Array1 [Num (-1); Num 2]) 4).
  - reflexivity.
  - lra.
Defined.

(** X3.  The exponent 0 is not a logarithm: with [texp = 0] the forward
    transform and the bias-adjusted back transform raise
    [ZeroDivisionError] (the quotient [1 / texp] of two Python numbers)
    and leave the caller's array as it was, while the plain back transform
    divides inside NumPy, raises nothing and returns an array of ones. *)
Theorem boxcox_zero_exponent (w : world) (l : loc) (a : ndarray)
    (sigma_square : R) :
  heap w !! l = Some a ->
  (exists w1, boxcox_transform (Ref l) 0 w = (Raise ZeroDivisionError, w1) /\
              heap w1 !! l = Some a) /\
  (exists w1, boxcox_back_transform_biasadjustment (Ref l) sigma_square 0 w
                = (Raise ZeroDivisionError, w1) /\
              heap w1 !! l = Some a) /\
  (exists l2 w2, boxcox_back_transform (Ref l) 0 w = (Ok l2, w2) /\
                 heap w2 !! l2 = Some (ndmap (fun _ => Num 1) a) /\
                 heap w2 !! l = Some a).
Proof.
  intros H. split; [|split].
  - unfold boxcox_transform, as_ndarray.
    rewrite bind_run. unfold mret at 1, M_ret at 1.
    rewrite (boxcox_from_array l a 0 w H).
    unfold py_inv. destruct (Req_dec_T 0 0); [|lra].
    eexists. split; [reflexivity |].
    cbn [heap]. apply insert_fresh_lookup, H.
  - unfold boxcox_back_transform_biasadjustment.
    change (match Ref l with Ref l0 => copy l0 | PyList a0 => alloc a0 end)
      with (copy l).
    rewrite (biasadjustment_from_array l a sigma_square 0 w H).
    destruct (Req_dec_T 0 0); [|lra].
    eexists. split; [reflexivity |].
    cbn [heap]. apply insert_fresh_lookup, H.
  - rewrite (boxcox_back_transform_run l a 0 w H).
    do 2 eexists. split; [reflexivity |].
    cbn [heap]. rewrite lookup_insert_eq. split.
    + f_equal. apply ndmap_ext. intros x.
      unfold back_cell.
      assert (E : div (clamp_below (- 0) x) (Num 0) = NaN).
      { destruct (clamp_below (- 0) x); cbn; [reflexivity |].
        destruct (Req_dec_T 0 0); [reflexivity | lra]. }
      rewrite E. cbn. destruct (Req_dec_T 0 0); [reflexivity | lra].
    + repeat (apply insert_fresh_lookup). exact H.
Qed.

(** X3 on the sample array. *)
Lemma boxcox_zero_exponent_witness :
  (exists w1, boxcox_transform (Ref 1%positive) 0 sample_world
                = (Raise ZeroDivisionError, w1) /\
              heap w1 !! 1%positive = Some (Array1 [Num (-1); Num 2])) /\
  (exists w1, boxcox_back_transform_biasadjustment (Ref 1%positive) 1 0 sample_world
                = (Raise ZeroDivisionError, w1) /\
              heap w1 !! 1%positive = Some (Array1 [Num (-1); Num 2])) /\
  (exists l2 w2, boxcox_back_transform (Ref 1%positive) 0 sample_world = (Ok l2, w2) /\
                 heap w2 !! l2
                   = Some (ndmap (fun _ => Num 1) (Array1 [Num (-1); Num 2])) /\
                 heap w2 !! 1%positive = Some (Array1 [Num (-1); Num 2])).
Proof.
  apply (boxcox_zero_exponent sample_world 1%positive (Array1 [Num (-1); Num 2]) 1).
  reflexivity.
Defined.

(** ** The order of the cells under the forward transform *)

Lemma round_inv A z v : Rounded.round A z = Some v -> v = Rounded.rnd A z.
Proof.
  unfold Rounded.round. destruct (Rle_dec _ _); [|discriminate]. congruence.
Qed.

(** What a finite result of the forward transform of a cell is made of. *)
Lemma boxcox_cell_some A e o c y :
  0 < e -> Rounded.py_inv A e = Ok o ->
  Rounded.boxcox_cell A o (Some c) = Some y ->
  exists i p,
    o = Some i /\ i = Rounded.rnd A (1 / e) /\ i <> 0 /\
    Rounded.fpow A c i = Some p /\
    y = Rounded.rnd A (Rounded.rnd A (p - 1) / i).
Proof.
  intros He Ho Hy. unfold Rounded.py_inv in Ho.
  destruct (Req_dec_T e 0); [lra |]. inversion Ho; subst o. clear Ho.
  unfold Rounded.boxcox_cell in Hy. cbn [mbind option_bind] in Hy.
  destruct (Rounded.round A (1 / e)) as [i|] eqn:Ei; [|discriminate].
  cbn [mbind option_bind] in Hy.
  destruct (Rounded.fpow A c i) as [p|] eqn:Ep; [|discriminate].
  cbn [mbind option_bind] in Hy. unfold Rounded.sub in Hy.
  destruct (Rounded.round A (p - 1)) as [s|] eqn:Es; [|discriminate].
  cbn [mbind option_bind] in Hy. unfold Rounded.div in Hy.
  destruct (Req_dec_T i 0) as [|Hi]; [discriminate |].
  apply round_inv in Ei, Es, Hy. subst s.
  exists i, p. auto.
Qed.

(** X4.  In float64 arithmetic the forward power transform does not
    reverse the order of two cells.  For an exponent [e > 0] and two
    finite cells [x <= x'] whose transforms [y] and [y'] are finite,
    [y <= y'], provided [pow] does not reverse the order of two bases; and
    when both cells are at or below 0 the two results are the same, the
    value of the cell 0, which no cell undercuts.  (Nothing strict holds:
    a small positive cell can round to the value of the cell 0.) *)
Theorem boxcox_transform_order (A : Rounded.arith) (u eta : R)
    (e x x' y y' : R) :
  Rounded.ieee u eta A -> Rounded.fpow_monotone A ->
  0 < e -> x <= x' ->
  Rounded.boxcox_transform A [Some x; Some x'] e = Ok [Some y; Some y'] ->
  y <= y' /\ (x' <= 0 -> y = y').
Proof.
  intros HA Hmono He Hx Hrun. unfold Rounded.boxcox_transform in Hrun.
  destruct (Rounded.py_inv A e) as [o|] eqn:Ho; [|discriminate].
  cbn [mbind result_bind map fmap option_fmap option_map] in Hrun.
  inversion Hrun as [[Hy Hy']]. clear Hrun.
  destruct (boxcox_cell_some A e o _ y He Ho Hy) as (i & p & -> & Ei & Hi & Hp & ->).
  destruct (boxcox_cell_some A e (Some i) _ y' He Ho Hy')
    as (i' & p' & Eo & _ & _ & Hp' & ->).
  inversion Eo; subst i'. clear Eo.
  assert (Hi0 : 0 < i).
  { assert (0 <= i); [|lra]. rewrite Ei, <- (Rounded.rnd_zero u eta A HA).
    apply (Rounded.rnd_monotone u eta A HA).
    left. apply Rdiv_lt_0_compat; lra. }
  assert (Hc : 0 <= Rounded.clamp_below 0 x <= Rounded.clamp_below 0 x').
  { unfold Rounded.clamp_below.
    destruct (Rlt_dec x 0); destruct (Rlt_dec x' 0); lra. }
  split.
  - pose proof (Hmono _ _ _ _ _ Hc Hi0 Hp Hp') as Hpp.
    apply (Rounded.rnd_monotone u eta A HA).
    apply Rmult_le_compat_r; [left; now apply Rinv_0_lt_compat |].
    apply (Rounded.rnd_monotone u eta A HA). lra.
  - intros Hx'. unfold Rounded.clamp_below in Hp, Hp'.
    destruct (Rlt_dec x 0); destruct (Rlt_dec x' 0);
      try (assert (x = 0) by lra; subst x);
      try (assert (x' = 0) by lra; subst x');
      rewrite Hp in Hp'; inversion Hp'; reflexivity.
Qed.

Lemma exact_fpow_monotone : Rounded.fpow_monotone Rounded.exact.
Proof.
  intros a a' b p p' Ha Hb Hp Hp'. cbn in Hp, Hp'.
  inversion Hp; inversion Hp'; subst.
  destruct (Req_dec_T a 0) as [E|E]; destruct (Req_dec_T a' 0) as [E'|E'].
  - lra.
  - left. apply exp_pos.
  - lra.
  - apply Rle_Rpower_l; lra.
Qed.

Lemma exact_round z : Rabs z <= 10 ^ 308 -> Rounded.round Rounded.exact z = Some z.
Proof.
  intros H. unfold Rounded.round, Rounded.exact.
  cbn [Rounded.rnd Rounded.max_float].
  destruct (Rle_dec (Rabs z) (10 ^ 308)); [reflexivity | contradiction].
Qed.

Lemma Rpower_base_1 y : Rpower 1 y = 1.
Proof. unfold Rpower. now rewrite ln_1, Rmult_0_r, exp_0. Qed.

(** X4 in exact arithmetic on the cells -1 and 1 with the exponent 4. *)
Lemma boxcox_transform_order_witness :
  (0 - 1) / (1 / 4) <= (1 - 1) / (1 / 4) /\
  (1 <= 0 -> (0 - 1) / (1 / 4) = (1 - 1) / (1 / 4)).
Proof.
  apply (boxcox_transform_order Rounded.exact 0 0 4 (-1) 1).
  - apply exact_is_ieee; lra.
  - apply exact_fpow_monotone.
  - lra.
  - lra.
  - unfold Rounded.boxcox_transform, Rounded.py_inv.
    destruct (Req_dec_T 4 0); [lra |].
    rewrite exact_round by (apply Rabs_le; lra).
    cbn [mbind result_bind map fmap option_fmap option_map].
    unfold Rounded.clamp_below.
    destruct (Rlt_dec (-1) 0); [|lra]. destruct (Rlt_dec 1 0); [lra |].
    unfold Rounded.boxcox_cell. cbn [mbind option_bind Rounded.fpow Rounded.exact].
    destruct (Req_dec_T 0 0); [|lra]. destruct (Req_dec_T 1 0); [lra |].
    rewrite Rpower_base_1.
    unfold Rounded.sub. rewrite !exact_round by (apply Rabs_le; lra).
    cbn [mbind option_bind]. unfold Rounded.div.
    destruct (Req_dec_T (1 / 4) 0); [lra |].
    rewrite !exact_round by (apply Rabs_le; lra). reflexivity.
Defined.

(** ** The tables: order, ranks, and the interpolation at an observation *)




Lemma positive_not_nan l : Forall positive_cell l -> Forall (fun a => isnan a = false) l.
Proof. intros H. eapply Forall_impl; [exact H |]. now intros [|x]. Qed.






Lemma nth_arange_div n c :
  (1 <= c <= n)%nat -> nth (c - 1) (arange_div n) NaN = Num (INR c / INR n).
Proof.
  intros Hc. apply nth_lookup_Some with (d := NaN) (i := (c - 1)%nat).
  rewrite arange_div_lookup by lia.
  replace (S (c - 1)) with c by lia. reflexivity.
Qed.




Lemma create_cdf_df_perm data data' :
  Permutation (positive_obs data) (positive_obs data') ->
  create_cdf_df data = create_cdf_df data'.
Proof.
  intros P. unfold create_cdf_df. fold (positive_obs data) (positive_obs data').
  assert (E : np_sort (positive_obs data) = np_sort (positive_obs data')).
  { apply sorted_perm_unique; try apply np_sort_sorted.
    - apply positive_not_nan.
      eapply Permutation_Forall; [symmetry; apply np_sort_perm | apply filter_positive].
    - rewrite np_sort_perm, P. symmetry. apply np_sort_perm. }
  now rewrite E.
Qed.

Lemma positive_obs_fixed l : Forall positive_cell l -> positive_obs l = l.
Proof.
  unfold positive_obs. induction 1 as [|a l Ha _ IH]; cbn [List.filter]; [reflexivity |].
  apply gtb_positive in Ha. now rewrite Ha, IH.
Qed.

(** X7.  A table depends on the positive observations only, and not on
    their order: two series whose positive observations are the same up
    to order give the same table, row by row. *)
Theorem create_cdf_df_order_irrelevant (data data' : list fl) :
  Permutation (positive_obs data) (positive_obs data') ->
  create_cdf_df data = create_cdf_df data'.
Proof. apply create_cdf_df_perm. Qed.

(** X7 on two series that differ by the order and by a zero and a missing
    value. *)
Lemma create_cdf_df_order_irrelevant_witness :
  create_cdf_df [Num 4; NaN; Num 2] = create_cdf_df [Num 0; Num 2; Num 4].
Proof.
  apply (create_cdf_df_order_irrelevant [Num 4; NaN; Num 2] [Num 0; Num 2; Num 4]).
  unfold positive_obs. cbn [List.filter].
  rewrite (gtb_true 4 0), (gtb_true 2 0), (gtb_false 0 0) by lra.
  cbn. apply perm_swap.
Defined.

Lemma arange_div_strict n : StronglySorted fl_lt (arange_div n).
Proof.
  unfold arange_div.
  assert (G : forall a len, (1 <= a)%nat -> (a + len <= S n)%nat ->
            StronglySorted fl_lt (map (fun k => Num (INR k / INR n)) (seq a len))).
  { intros a len. revert a. induction len as [|len IH]; intros a Ha Hb; cbn.
    - constructor.
    - constructor; [apply IH; lia |].
      apply Forall_forall. intros p Hp.
      apply list_elem_of_In, in_map_iff in Hp. destruct Hp as (k & <- & Hk).
      apply in_seq in Hk. cbn.
      assert (0 < INR n) by (apply lt_0_INR; lia).
      assert (INR a < INR k) by (apply lt_INR; lia).
      unfold Rdiv. apply Rmult_lt_compat_r; [now apply Rinv_0_lt_compat | assumption]. }
  apply G; lia.
Qed.

(** X8.  The probability column of a table holds the ranks over the
    count: with [n] positive observations the table has [n] rows, row [k]
    (from 0) carries [(k + 1) / n], the column is strictly increasing and
    its last entry is exactly 1.  A table rebuilt from its own value
    column is the same table. *)
Theorem create_cdf_df_ranks (data : list fl) :
  let table := create_cdf_df data in
  let n := length (positive_obs data) in
  length table = n /\
  (forall k, (k < n)%nat -> CDF table !! k = Some (Num (INR (S k) / INR n))) /\
  StronglySorted fl_lt (CDF table) /\
  (table <> [] -> List.last (CDF table) NaN = Num 1) /\
  create_cdf_df (Value table) = table.
Proof.
  cbv zeta. split; [apply create_cdf_df_length |].
  split; [intros k Hk; rewrite create_cdf_df_CDF; now apply arange_div_lookup |].
  split; [rewrite create_cdf_df_CDF; apply arange_div_strict |].
  split.
  - intros Hne.
    assert (Hn : (1 <= length (positive_obs data))%nat).
    { pose proof (create_cdf_df_length data) as E. unfold positive_obs.
      rewrite <- E. destruct (create_cdf_df data); [congruence | cbn; lia]. }
    rewrite create_cdf_df_CDF. fold (positive_obs data).
    rewrite <- nth_last, arange_div_length.
    rewrite nth_arange_div by lia. f_equal. field.
    apply not_0_INR. lia.
  - apply create_cdf_df_perm.
    rewrite positive_obs_fixed by apply create_cdf_df_positive.
    rewrite create_cdf_df_Value. apply np_sort_perm.
Qed.

(** ** The noise on the tables *)

Lemma insert_row_perm r l : Permutation (insert_row r l) (r :: l).
Proof.
  induction l as [|b l IH]; cbn; [reflexivity |].
  destruct (sort_leb r.1 b.1); [reflexivity |].
  rewrite IH. apply perm_swap.
Qed.

Lemma sort_rows_perm l : Permutation (sort_rows l) l.
Proof.
  induction l as [|a l IH]; cbn; [reflexivity |].
  unfold sort_rows in *. cbn. rewrite insert_row_perm. now constructor.
Qed.

Lemma insert_row_sorted r l :
  Sorted (fun a b : fl * fl => sort_le a.1 b.1) l ->
  Sorted (fun a b : fl * fl => sort_le a.1 b.1) (insert_row r l).
Proof.
  induction 1 as [|b l Hs IH Hhd]; cbn; [repeat constructor |].
  destruct (sort_leb r.1 b.1) eqn:E.
  - repeat constructor; assumption.
  - constructor; [assumption |].
    apply sort_leb_total in E.
    destruct Hhd as [|c l Hbc]; cbn; [repeat constructor; exact E |].
    destruct (sort_leb r.1 c.1); constructor; assumption.
Qed.

Lemma sort_rows_Value_sorted l : StronglySorted sort_le (Value (sort_rows l)).
Proof.
  assert (S1 : StronglySorted (fun a b : fl * fl => sort_le a.1 b.1) (sort_rows l)).
  { apply Sorted_StronglySorted.
    - intros a b c. apply sort_leb_trans.
    - unfold sort_rows. induction l; cbn; [constructor | now apply insert_row_sorted]. }
  unfold Value. induction S1 as [|a l' _ IH Hall]; cbn; constructor; [exact IH |].
  apply Forall_forall. intros x Hx.
  apply list_elem_of_In, in_map_iff in Hx. destruct Hx as (b & <- & Hb).
  rewrite Forall_forall in Hall. apply Hall. now apply list_elem_of_In.
Qed.

Lemma unit_draws_shift g n : unit_draws g -> unit_draws (fun k => g (n + k)%nat).
Proof. intros H k. apply H. Qed.

Lemma add_noise_to_table_spec level t g :
  0 <= level -> unit_draws g ->
  noisy_table level t (add_noise_to_table level t g).1 /\
  unit_draws (add_noise_to_table level t g).2.
Proof.
  intros Hl Hg. unfold add_noise_to_table, uniform. cbn [fst snd].
  split; [|now apply unit_draws_shift].
  exists (map (fun k => - level + (level - - level) * g k) (seq 0 (length t))).
  split; [now rewrite length_map, length_seq |].
  split; [|split].
  - apply Forall_forall. intros d Hd.
    apply list_elem_of_In, in_map_iff in Hd. destruct Hd as (k & <- & _).
    specialize (Hg k). nra.
  - rewrite sort_rows_perm, map_map. reflexivity.
  - apply sort_rows_Value_sorted.
Qed.

Lemma map_items_spec {K V St} (f : V -> St -> V * St) (P : St -> Prop)
    (Rel : V -> V -> Prop) :
  (forall v s, P s -> Rel v (f v s).1 /\ P (f v s).2) ->
  forall (d : odict K V) s, P s ->
    same_keys Rel d (map_items f d s).1 /\ P (map_items f d s).2.
Proof.
  intros Hf. induction d as [|[k v] d IH]; intros s Hs; cbn.
  - split; [constructor | exact Hs].
  - destruct (Hf v s Hs) as [Hv Hs1].
    destruct (f v s) as [v' s1]. cbn [fst snd] in *.
    destruct (IH s1 Hs1) as [Hd Hs2].
    destruct (map_items f d s1) as [d' s2]. cbn [fst snd] in *.
    split; [|exact Hs2]. constructor; [|exact Hd]. now split.
Qed.

Lemma interpolate_with_noise_spec cdfs level g :
  0 <= level -> unit_draws g ->
  same_keys (same_keys (noisy_table level)) cdfs
    (interpolate_with_noise cdfs level g).1 /\
  unit_draws (interpolate_with_noise cdfs level g).2.
Proof.
  intros Hl Hg. unfold interpolate_with_noise.
  apply (map_items_spec _ unit_draws); [|exact Hg].
  intros months s Hs.
  apply (map_items_spec _ unit_draws); [|exact Hs].
  intros t s' Hs'. now apply add_noise_to_table_spec.
Qed.

(** X9.  Whatever the generator draws, [interpolate_with_noise] keeps
    the stations and the months of the dict, in their order, and turns
    each table into a table with the same number of rows whose values
    moved by at most [noise_level], whose value column is sorted, and
    whose probabilities are those of the original rows: whole rows are
    sorted, so the probability column is a rearrangement of the original
    one and need not be sorted any more. *)
Theorem interpolate_with_noise_tables (cdfs : odict Z (odict nat cdf_df))
    (noise_level : R) (g : rng) :
  0 <= noise_level -> unit_draws g ->
  same_keys (same_keys (noisy_table noise_level)) cdfs
    (interpolate_with_noise cdfs noise_level g).1 /\
  unit_draws (interpolate_with_noise cdfs noise_level g).2.
Proof. apply interpolate_with_noise_spec. Qed.

(** X9 on a dict with one table of two equal values and a generator that
    draws 0.75 first and 0.25 from then on. *)
Lemma interpolate_with_noise_tables_witness :
  let cdfs : odict Z (odict nat cdf_df) :=
    [(0%Z, [(1%nat, [(Num 4, Num 0.5); (Num 4, Num 1)])])] in
  let g : rng := fun k => match k with O => 0.75 | S _ => 0.25 end in
  same_keys (same_keys (noisy_table 0.000001)) cdfs
    (interpolate_with_noise cdfs 0.000001 g).1 /\
  unit_draws (interpolate_with_noise cdfs 0.000001 g).2.
Proof.
  intros cdfs g.
  apply (interpolate_with_noise_tables cdfs 0.000001 g).
  - lra.
  - intros [|k]; cbn; lra.
Defined.

(** The probability column after noise can run against the values: two
    equal values whose draws put the second row first. *)
Example interpolate_with_noise_reorders :
  let g : rng := fun k => match k with O => 0.75 | S _ => 0.25 end in
  CDF (add_noise_to_table 0.000001 [(Num 4, Num 0.5); (Num 4, Num 1)] g).1
  = [Num 1; Num 0.5].
Proof.
  cbv zeta. unfold add_noise_to_table, uniform. cbn [fst snd length seq map].
  cbn [Value CDF map fst snd zip_with add combine].
  unfold sort_rows. cbn [fold_right insert_row fst snd sort_leb].
  rcmp. reflexivity.
Qed.

(** ** Building the monthly tables *)

Lemma make_df_rect data times :
  Forall (fun row => length row = length times) data -> make_df data times = Ok data.
Proof.
  intros Hrect. unfold make_df. rewrite (proj2 (forallb_forall _ _)); [reflexivity |].
  intros row Hin. apply Nat.eqb_eq. rewrite Forall_forall in Hrect.
  apply Hrect. now apply list_elem_of_In.
Qed.

Lemma lookup_list_to_map_keyed `{Countable K} {V} (kf : nat -> K) (F : nat -> V)
    (l : list nat) (s : nat) :
  (forall a b, kf a = kf b -> a = b) -> s ∈ l ->
  (list_to_map (map (fun i => (kf i, F i)) l) : gmap K V) !! kf s = Some (F s).
Proof.
  intros Hinj. induction l as [|a l IH]; intros Hin; [inversion Hin |].
  cbn [map]. rewrite list_to_map_cons.
  destruct (decide (kf a = kf s)) as [E|N].
  - rewrite E, lookup_insert_eq. apply Hinj in E. now subst.
  - rewrite lookup_insert_ne by exact N. apply IH.
    apply elem_of_cons in Hin. destruct Hin as [->|Hin]; [congruence | exact Hin].
Qed.

Lemma lookup_list_to_map_other `{Countable K} {V} (kf : nat -> K) (F : nat -> V)
    (l : list nat) (key : K) :
  (forall i, i ∈ l -> kf i <> key) ->
  (list_to_map (map (fun i => (kf i, F i)) l) : gmap K V) !! key = None.
Proof.
  induction l as [|a l IH]; intros Hk; [reflexivity |].
  cbn [map]. rewrite list_to_map_cons.
  rewrite lookup_insert_ne by (apply Hk; now left).
  apply IH. intros i Hi. apply Hk. now right.
Qed.

(** The months of a dict built over [range(1, 13)]. *)
Lemma lookup_months {V} (F : nat -> V) month :
  (list_to_map (map (fun i => (i, F i)) (seq 1 12)) : gmap nat V) !! month
  = if (1 <=? month)%nat && (month <=? 12)%nat then Some (F month) else None.
Proof.
  destruct (Nat.leb_spec 1 month); destruct (Nat.leb_spec month 12); cbn [andb].
  - apply (lookup_list_to_map_keyed (fun i => i) F); [auto |].
    apply elem_of_seq. lia.
  - apply (lookup_list_to_map_other (fun i => i) F).
    intros i Hi. apply elem_of_seq in Hi. lia.
  - apply (lookup_list_to_map_other (fun i => i) F).
    intros i Hi. apply elem_of_seq in Hi. lia.
  - apply (lookup_list_to_map_other (fun i => i) F).
    intros i Hi. apply elem_of_seq in Hi. lia.
Qed.

Lemma same_keys_lookup `{Countable K} {V} (Rel : V -> V -> Prop)
    (d d' : odict K V) (k : K) :
  same_keys Rel d d' ->
  option_Forall2 Rel ((list_to_map d : gmap K V) !! k)
                     ((list_to_map d' : gmap K V) !! k).
Proof.
  induction 1 as [|[k1 v1] [k2 v2] d d' [Hk Hv] _ IH]; cbn in *.
  - rewrite !lookup_empty. constructor.
  - subst k2. destruct (decide (k1 = k)) as [->|N].
    + rewrite !lookup_insert_eq. now constructor.
    + rewrite !lookup_insert_ne by exact N. exact IH.
Qed.

Lemma same_keys_table_at (Rel : cdf_df -> cdf_df -> Prop)
    (cdfs cdfs' : odict Z (odict nat cdf_df)) key month :
  same_keys (same_keys Rel) cdfs cdfs' ->
  option_Forall2 Rel (table_at (dict_of cdfs) key month)
                     (table_at (dict_of cdfs') key month).
Proof.
  intros Hs. unfold table_at, dict_of.
  assert (Hm : same_keys (fun m m' : gmap nat cdf_df =>
                            forall k, option_Forall2 Rel (m !! k) (m' !! k))
                 (map (fun sm => (sm.1, list_to_map sm.2)) cdfs)
                 (map (fun sm => (sm.1, list_to_map sm.2)) cdfs')).
  { induction Hs as [|[k1 v1] [k2 v2] d d' [Hk Hv] _ IH]; cbn in *; constructor;
      [|exact IH].
    split; [exact Hk |]. cbn. intros k. now apply same_keys_lookup. }
  pose proof (same_keys_lookup _ _ _ key Hm) as Hl.
  destruct Hl as [m m' Hmm|]; cbn; [apply Hmm | constructor].
Qed.

Lemma same_keys_refl {K V} (d : odict K V) : same_keys eq d d.
Proof. induction d; constructor; auto. Qed.

(** The tables of the unpooled branch before noise. *)
Lemma table_at_station_dict (T : nat -> nat -> cdf_df) n s month :
  (s < n)%nat -> (1 <= month <= 12)%nat ->
  table_at
    (dict_of (map (fun station =>
                     (Z.of_nat station,
                      map (fun month => (month, T station month)) (seq 1 12)))
                  (seq 0 n)))
    (Z.of_nat s) month
  = Some (T s month).
Proof.
  intros Hs Hm. unfold table_at, dict_of. rewrite map_map. cbn [fst snd].
  rewrite (lookup_list_to_map_keyed Z.of_nat
             (fun station => list_to_map
                (map (fun month => (month, T station month)) (seq 1 12))));
    [|intros a b; apply Nat2Z.inj | apply elem_of_seq; lia].
  cbn [mbind option_bind]. rewrite lookup_months.
  destruct (Nat.leb_spec 1 month); [|lia].
  destruct (Nat.leb_spec month 12); [reflexivity | lia].
Qed.

Lemma calculate_per_station_run (stn_var : list (list fl))
    (time : list nat) (settings : Settings) (g : rng) :
  default true (pooled settings) = false ->
  Forall (fun row => length row = length time) stn_var ->
  unit_draws g ->
  exists m g',
    calculate_monthly_cdfs stn_var time settings None g = (Ok (ByStation m), g') /\
    (default true (add_noise settings) = false -> g' = g) /\
    forall s month, (s < length stn_var)%nat -> (1 <= month <= 12)%nat ->
      exists t,
        table_at m (Z.of_nat s) month = Some t /\
        if default true (add_noise settings)
        then noisy_table 0.000001
               (create_cdf_df (station_month_values stn_var time s month)) t
        else t = create_cdf_df (station_month_values stn_var time s month).
Proof.
  intros Hp Hrect Hg. unfold calculate_monthly_cdfs.
  rewrite Hp, (make_df_rect _ _ Hrect).
  set (cdfs := map _ (seq 0 (length stn_var))).
  destruct (default true (add_noise settings)).
  - destruct (interpolate_with_noise_spec cdfs 0.000001 g) as [Hs _];
      [lra | exact Hg |].
    destruct (interpolate_with_noise cdfs 0.000001 g) as [cdfs' g'].
    cbn [fst] in Hs.
    do 2 eexists. split; [reflexivity |]. split; [discriminate |].
    intros s month Hs' Hm.
    pose proof (same_keys_table_at _ _ _ (Z.of_nat s) month Hs) as Ht.
    unfold cdfs in Ht at 1.
    rewrite (table_at_station_dict
               (fun station month =>
                  create_cdf_df (station_month_values stn_var time station month)))
      in Ht by assumption.
    inversion Ht as [t t' Hrel E1 E2|]; subst.
    exists t'. split; [reflexivity | exact Hrel].
  - do 2 eexists. split; [reflexivity |]. split; [reflexivity |].
    intros s month Hs' Hm. eexists. split; [|reflexivity].
    unfold cdfs.
    now rewrite (table_at_station_dict
               (fun station month =>
                  create_cdf_df (station_month_values stn_var time station month))).
Qed.

(** X11.  In the unpooled mode without a neighbour table
    [calculate_monthly_cdfs] returns a table for every station of the
    data and every month 1 to 12, also for a station or a month without
    any observation.  Without noise the table is the one built from the
    station's observations of the month, and the generator is untouched;
    with noise (the default) it is that table after noise of size at most
    0.000001. *)
Theorem calculate_monthly_cdfs_per_station (stn_var : list (list fl))
    (time : list nat) (settings : Settings) (g : rng) :
  default true (pooled settings) = false ->
  Forall (fun row => length row = length time) stn_var ->
  unit_draws g ->
  exists m g',
    calculate_monthly_cdfs stn_var time settings None g = (Ok (ByStation m), g') /\
    (default true (add_noise settings) = false -> g' = g) /\
    forall s month, (s < length stn_var)%nat -> (1 <= month <= 12)%nat ->
      exists t,
        table_at m (Z.of_nat s) month = Some t /\
        if default true (add_noise settings)
        then noisy_table 0.000001
               (create_cdf_df (station_month_values stn_var time s month)) t
        else t = create_cdf_df (station_month_values stn_var time s month).
Proof. apply calculate_per_station_run. Qed.

(** X11 on the sample data, with the default noise. *)
Lemma calculate_monthly_cdfs_per_station_witness :
  let settings := mkSettings (Some false) None None None None None None in
  exists m g',
    calculate_monthly_cdfs sample_data sample_times settings None (fun _ => 0.5)
      = (Ok (ByStation m), g') /\
    (default true (add_noise settings) = false -> g' = fun _ => 0.5) /\
    forall s month, (s < length sample_data)%nat -> (1 <= month <= 12)%nat ->
      exists t,
        table_at m (Z.of_nat s) month = Some t /\
        if default true (add_noise settings)
        then noisy_table 0.000001
               (create_cdf_df (station_month_values sample_data sample_times s month)) t
        else t = create_cdf_df (station_month_values sample_data sample_times s month).
Proof.
  intros settings.
  apply (calculate_monthly_cdfs_per_station sample_data sample_times settings
           (fun _ => 0.5)).
  - reflexivity.
  - repeat constructor.
  - intros k. lra.
Defined.

(** ** The forward transform with tables built from the same data *)





Lemma column_not_blank (data : list (list fl)) (times : list nat) j t x :
  Forall (fun row => length row = length times) data ->
  (j < length data)%nat -> (t < length times)%nat ->
  nth t (nth j data []) NaN = Num x ->
  forallb isnan (nth j data []) = false.
Proof.
  intros Hrect Hj Ht Hv.
  apply not_true_is_false. intros Hall. rewrite forallb_forall in Hall.
  assert (Hin : In (Num x) (nth j data [])).
  { rewrite <- Hv. apply nth_In.
    rewrite Forall_forall in Hrect.
    rewrite (Hrect (nth j data [])); [exact Ht |].
    apply list_elem_of_In, nth_In. exact Hj. }
  specialize (Hall _ Hin). discriminate.
Qed.

Section OwnTables.
Context {libs : Libs}.


End OwnTables.


(** ** Loops that raise *)

(** A loop over [seq a n] whose body keeps an invariant or raises [e]. *)
Lemma for_each_seq_outcome {St} (P : nat -> St -> Prop)
    (body : St -> nat -> result St) (e : exn) a n s :
  P a s ->
  (forall k st, (a <= k < a + n)%nat -> P k st ->
     (exists st', body st k = Ok st' /\ P (S k) st') \/ body st k = Raise e) ->
  (exists s', for_each (seq a n) body s = Ok s' /\ P (a + n)%nat s') \/
  for_each (seq a n) body s = Raise e.
Proof.
  revert a s. induction n as [|n IH]; intros a s H0 Hstep; cbn.
  - left. exists s. rewrite Nat.add_0_r. auto.
  - destruct (Hstep a s) as [(s1 & E1 & H1)|E1]; [lia | exact H0 | |].
    + rewrite E1, bind_Ok.
      destruct (IH (S a) s1 H1) as [(s' & E & H')|E].
      * intros k s2 Hk. apply Hstep. lia.
      * left. exists s'. split; [exact E |].
        now replace (a + S n)%nat with (S a + n)%nat by lia.
      * now right.
    + right. now rewrite E1.
Qed.

(** The same loop when some turn raises [e] whatever the state. *)
Lemma for_each_seq_raise {St} (P : nat -> St -> Prop)
    (body : St -> nat -> result St) (e : exn) a n s :
  P a s ->
  (forall k st, (a <= k < a + n)%nat -> P k st ->
     (exists st', body st k = Ok st' /\ P (S k) st') \/ body st k = Raise e) ->
  (exists k, (a <= k < a + n)%nat /\ forall st, P k st -> body st k = Raise e) ->
  for_each (seq a n) body s = Raise e.
Proof.
  revert a s. induction n as [|n IH]; intros a s H0 Hstep (k0 & Hk0 & Hfail); [lia |].
  cbn. destruct (Hstep a s) as [(s1 & E1 & H1)|E1]; [lia | exact H0 | |].
  - rewrite E1, bind_Ok.
    destruct (Nat.eq_dec k0 a) as [->|Hne].
    + rewrite (Hfail s H0) in E1. discriminate.
    + apply IH; [exact H1 | intros k s2 Hk; apply Hstep; lia |].
      exists k0. split; [lia | exact Hfail].
  - now rewrite E1.
Qed.

(** ** The forward transform: tables that are missing or do not cover a
    value *)

Lemma has_column_labels (fr : frame) s c :
  map fst fr = seq 0 c -> has_column fr s = (s <? c)%nat.
Proof.
  intros Hl. unfold has_column.
  destruct (Nat.ltb_spec s c) as [H|H].
  - apply existsb_exists.
    assert (Hin : In s (map fst fr)) by (rewrite Hl; apply in_seq; lia).
    apply in_map_iff in Hin. destruct Hin as (lc & E & Hin).
    exists lc. split; [exact Hin |]. rewrite E. apply Nat.eqb_refl.
  - apply not_true_is_false. intros E. apply existsb_exists in E.
    destruct E as (lc & Hin & E). apply Nat.eqb_eq in E.
    assert (Hs : In s (map fst fr)) by (apply in_map_iff; exists lc; auto).
    rewrite Hl in Hs. apply in_seq in Hs. lia.
Qed.

Lemma loc_set_column_labels ntime (fr : frame) s upd :
  map fst (loc_set_column ntime fr s upd)
  = if has_column fr s then map fst fr else map fst fr ++ [s].
Proof.
  unfold loc_set_column. destruct (has_column fr s).
  - rewrite map_map. apply map_ext. intros lc.
    now destruct (lc.1 =? s)%nat.
  - now rewrite map_app.
Qed.

Lemma lookup_cdf_outcome tbl s k :
  (exists o, lookup_cdf tbl (Some s) k = Ok o) \/
  lookup_cdf tbl (Some s) k = Raise KeyError.
Proof.
  destruct tbl as [m|m]; cbn; [now right |].
  unfold getitem. destruct (m !! Z.of_nat s) as [months|]; cbn; [|now right].
  destruct (months !! k); cbn; [left; eauto | now right].
Qed.

Lemma lookup_cdf_station_none m s month :
  table_at m (Z.of_nat s) month = None ->
  lookup_cdf (ByStation m) (Some s) month = Raise KeyError.
Proof.
  unfold table_at, lookup_cdf, getitem.
  destruct (m !! Z.of_nat s) as [months|]; cbn; [|reflexivity].
  now intros ->.
Qed.

Section MissingTables.
Context {libs : Libs}.

Lemma nqt_body_raise df times tbl month fr s :
  lookup_cdf tbl (Some s) month = Raise KeyError ->
  nqt_body df times tbl month fr (Some s) = Raise KeyError.
Proof. intros Hl. unfold nqt_body. now rewrite Hl. Qed.

Lemma nqt_station_step data times tbl k c s fr :
  times <> [] -> c = 0%nat \/ c = length data -> (s < length data)%nat ->
  map fst fr = seq 0 (Nat.max c s) ->
  (exists fr', nqt_body data times tbl k fr (Some s) = Ok fr' /\
               map fst fr' = seq 0 (Nat.max c (S s))) \/
  nqt_body data times tbl k fr (Some s) = Raise KeyError.
Proof.
  intros Htimes Hc Hs Hl.
  destruct (lookup_cdf_outcome tbl s k) as [[o Ho]|Ho].
  - left. rewrite (nqt_body_keyed _ _ _ _ _ o Htimes Ho).
    eexists. split; [reflexivity |].
    rewrite loc_set_column_labels, (has_column_labels _ _ _ Hl), Hl.
    destruct Hc as [->| ->].
    + rewrite !Nat.max_0_l, Nat.ltb_irrefl. now rewrite seq_S.
    + rewrite !Nat.max_l by lia.
      destruct (Nat.ltb_spec s (length data)); [reflexivity | lia].
  - right. now apply nqt_body_raise.
Qed.

Lemma nqt_stations_outcome data times tbl k c fr :
  times <> [] -> c = 0%nat \/ c = length data ->
  map fst fr = seq 0 c ->
  (exists fr', for_each (map Some (seq 0 (length data)))
                 (nqt_body data times tbl k) fr = Ok fr' /\
               map fst fr' = seq 0 (length data)) \/
  for_each (map Some (seq 0 (length data))) (nqt_body data times tbl k) fr
  = Raise KeyError.
Proof.
  intros Htimes Hc Hl. rewrite for_each_map.
  destruct (for_each_seq_outcome
              (fun s fr => map fst fr = seq 0 (Nat.max c s))
              (fun fr s => nqt_body data times tbl k fr (Some s))
              KeyError 0%nat (length data) fr) as [(fr' & E & Hl')|E].
  - now rewrite Nat.max_0_r.
  - intros s st Hs Hst. apply nqt_station_step; try assumption. lia.
  - left. exists fr'. split; [exact E |]. cbn [Nat.add] in Hl'.
    rewrite Hl'. f_equal. destruct Hc as [->| ->]; lia.
  - now right.
Qed.

Lemma nqt_stations_raise data times tbl k c fr s :
  times <> [] -> c = 0%nat \/ c = length data ->
  map fst fr = seq 0 c ->
  (s < length data)%nat -> lookup_cdf tbl (Some s) k = Raise KeyError ->
  for_each (map Some (seq 0 (length data))) (nqt_body data times tbl k) fr
  = Raise KeyError.
Proof.
  intros Htimes Hc Hl Hs Hfail. rewrite for_each_map.
  apply (for_each_seq_raise (fun s fr => map fst fr = seq 0 (Nat.max c s))).
  - now rewrite Nat.max_0_r.
  - intros s' st Hs' Hst. apply nqt_station_step; try assumption. lia.
  - exists s. split; [lia |]. intros st _. now apply nqt_body_raise.
Qed.

Lemma nqt_fill_returns n ntime nan_columns minz (fr : frame) :
  length fr = n -> exists out, nqt_fill n ntime nan_columns minz fr = Ok out.
Proof.
  intros Hn. unfold nqt_fill.
  destruct (for_each_seq (fun _ (_ : list (list fl)) => True)
              (fun filled col_index =>
                 if bool_decide (col_index ∈ nan_columns)
                 then set_column (length fr) filled col_index NaN
                 else Ok filled)
              0%nat n
              (map (map (nan_to_num minz)) (to_numpy ntime fr)))
    as (out & E & _); [exact I | |eauto].
  intros k st Hk _. destruct (bool_decide (k ∈ nan_columns)); [|eauto].
  unfold set_column. destruct (Nat.ltb_spec k (length fr)); [eauto | lia].
Qed.

(** X13.  In the unpooled mode the forward transform asks for the table
    of every station and of every month from 1 to 12, also where the
    station has no observation in that month: if one of these tables is
    missing from the dict the call raises [KeyError] and returns
    nothing. *)
Theorem unpooled_transform_needs_every_table (data : list (list fl))
    (times : list nat) (m : station_cdfs) (settings : Settings)
    (s month : nat) :
  default true (pooled settings) = false ->
  times <> [] ->
  Forall (fun row => length row = length times) data ->
  (s < length data)%nat -> (1 <= month <= 12)%nat ->
  table_at m (Z.of_nat s) month = None ->
  normal_quantile_transform data times (ByStation m) settings = Raise KeyError.
Proof.
  intros Hp Htimes Hrect Hs Hmonth Hnone.
  unfold normal_quantile_transform. rewrite Hp, (make_df_rect _ _ Hrect), bind_Ok.
  set (nanc := List.filter _ (seq 0 (length data))).
  set (minz := default (Num (-4)) (min_z_value settings)).
  rewrite (for_each_seq_raise
             (fun k (st : frame * option (list (list fl))) =>
                map fst st.1 = seq 0 (if (k =? 1)%nat then 0%nat else length data))
             _ KeyError); [reflexivity | reflexivity | |].
  - intros k [fr o] Hk Hl. cbn [fst snd] in *.
    destruct (nqt_stations_outcome data times (ByStation m) k
                (if (k =? 1)%nat then 0%nat else length data) fr Htimes)
      as [(fr' & E & Hl')|E].
    + destruct (k =? 1)%nat; auto.
    + exact Hl.
    + left. rewrite E, bind_Ok.
      destruct (nqt_fill_returns (length data) (length times) nanc minz fr')
        as [out Eo].
      { rewrite <- (length_map fst), Hl'. apply length_seq. }
      rewrite Eo, bind_Ok. eexists. split; [reflexivity |]. cbn [fst].
      destruct (Nat.eqb_spec (S k) 1); [lia | exact Hl'].
    + right. now rewrite E.
  - exists month. split; [lia |]. intros [fr o] Hl. cbn [fst snd] in *.
    rewrite (nqt_stations_raise data times (ByStation m) month
               (if (month =? 1)%nat then 0%nat else length data) fr s Htimes).
    + reflexivity.
    + destruct (month =? 1)%nat; auto.
    + exact Hl.
    + exact Hs.
    + now apply lookup_cdf_station_none.
Qed.

End MissingTables.

(** X13 on the sample data and an empty dict of tables. *)
Lemma unpooled_transform_needs_every_table_witness :
  normal_quantile_transform (libs := sample_libs) sample_data sample_times
    (ByStation ∅) (mkSettings (Some false) None None None None None None)
  = Raise KeyError.
Proof.
  apply (unpooled_transform_needs_every_table (libs := sample_libs) sample_data
           sample_times ∅ (mkSettings (Some false) None None None None None None)
           0 1).
  - reflexivity.
  - discriminate.
  - repeat constructor.
  - cbn. lia.
  - lia.
  - reflexivity.
Defined.

Lemma sort_rows_length l : length (sort_rows l) = length l.
Proof. apply Permutation_length, sort_rows_perm. Qed.

(** Outside the values of a sorted table [interp1d] gives the fill
    value. *)
Lemma interp1d_outside (e : cdf_df) x :
  StronglySorted sort_le (Value e) ->
  fl_lt (Num x) (hd NaN (Value e)) \/ fl_lt (List.last (Value e) NaN) (Num x) ->
  interp1d (Value e) (CDF e) (Num x) = NaN.
Proof.
  intros Hs Hout. unfold interp1d.
  rewrite combine_Value_CDF, (sort_rows_sorted e Hs). fold (Value e).
  destruct Hout as [H|H].
  - destruct (hd NaN (Value e)) as [|y]; [contradiction |]. cbn in H.
    now rewrite (ltb_true x y).
  - destruct (List.last (Value e) NaN) as [|y]; [contradiction |]. cbn in H.
    rewrite (gtb_true x y) by exact H. now rewrite orb_true_r.
Qed.

(** A missing value goes through a table of two rows or more as a
    missing value. *)
Lemma interp1d_nan (e : cdf_df) :
  (2 <= length e)%nat -> interp1d (Value e) (CDF e) NaN = NaN.
Proof.
  intros Hlen. unfold interp1d. rewrite combine_Value_CDF.
  unfold np_interp. rewrite length_map, sort_rows_length.
  destruct (Nat.eqb_spec (length e) 1); [lia |].
  destruct (ltb NaN _ || gtb NaN _); reflexivity.
Qed.

Section ForwardCells.
Context {libs : Libs}.

(** X14.  A cell whose stratum has no usable table gets [min_z_value],
    whatever the cell holds: in the pooled mode when the month is absent
    from the dict of tables or its table is empty, in the unpooled mode
    when the table of the station and month is empty.  (The column of a
    station without any value is blank instead.) *)
Theorem forward_without_usable_table (data : list (list fl))
    (times : list nat) (tbl : monthly_cdfs_t) (settings : Settings)
    (j t : nat) :
  times <> [] ->
  Forall (fun row => length row = length times) data ->
  tables_ok (default true (pooled settings)) tbl (length data) ->
  (j < length data)%nat -> (t < length times)%nat ->
  table_for tbl (if default true (pooled settings) then None else Some j)
    (month_of (nth t times 0%nat)) = None ->
  forallb isnan (nth j data []) = false ->
  exists out,
    normal_quantile_transform data times tbl settings = Ok out /\
    out !! t ≫= (.!! j) = Some (default (Num (-4)) (min_z_value settings)).
Proof.
  intros Hne Hrect Hok Hj Ht Htab Hcol.
  eexists. split; [now apply normal_quantile_transform_cells |].
  unfold forward_output. rewrite matrix_of_cells_lookup by assumption.
  rewrite Hcol. unfold forward_cell. f_equal.
  destruct (default true (pooled settings)).
  - now rewrite Htab.
  - rewrite Htab. now destruct (gtb _ _).
Qed.

(** X15.  A positive value below the smallest or above the largest value
    of the (sorted) table of its stratum is outside the interpolation
    range: the interpolated probability is the fill value [NaN], and the
    cell comes out as [norm.ppf] of [NaN] with [min_z_value] in place of
    a missing result, not as a large z-score. *)
Theorem forward_outside_table_range (data : list (list fl))
    (times : list nat) (tbl : monthly_cdfs_t) (settings : Settings)
    (j t : nat) (e : cdf_df) (x : R) :
  times <> [] ->
  Forall (fun row => length row = length times) data ->
  tables_ok (default true (pooled settings)) tbl (length data) ->
  (j < length data)%nat -> (t < length times)%nat ->
  table_for tbl (if default true (pooled settings) then None else Some j)
    (month_of (nth t times 0%nat)) = Some e ->
  StronglySorted sort_le (Value e) ->
  nth t (nth j data []) NaN = Num x -> 0 < x ->
  fl_lt (Num x) (hd NaN (Value e)) \/ fl_lt (List.last (Value e) NaN) (Num x) ->
  exists out,
    normal_quantile_transform data times tbl settings = Ok out /\
    out !! t ≫= (.!! j)
    = Some (nan_to_num (default (Num (-4)) (min_z_value settings)) (norm_ppf NaN)).
Proof.
  intros Hne Hrect Hok Hj Ht Htab Hs Hv Hx Hout.
  eexists. split; [now apply normal_quantile_transform_cells |].
  unfold forward_output. rewrite matrix_of_cells_lookup by assumption.
  rewrite (column_not_blank data times j t x) by assumption.
  unfold forward_cell. rewrite Hv. do 2 f_equal.
  assert (Hz : z_score e (Num x) = norm_ppf NaN).
  { unfold z_score. now rewrite (interp1d_outside e x Hs Hout). }
  destruct (default true (pooled settings)).
  - rewrite Htab. unfold mask_positive. rewrite (gtb_true x 0) by exact Hx. exact Hz.
  - rewrite (gtb_true x 0) by exact Hx. rewrite Htab. exact Hz.
Qed.

(** X16.  A cell that is zero, negative or missing, in a column that has
    some value: in the unpooled mode it is never looked up and gets
    [min_z_value]; in the pooled mode it is looked up as a missing value,
    which a table of two rows or more turns into [norm.ppf] of [NaN],
    again with [min_z_value] in place of a missing result. *)
Theorem forward_of_dry_cell (data : list (list fl))
    (times : list nat) (tbl : monthly_cdfs_t) (settings : Settings)
    (j t : nat) :
  times <> [] ->
  Forall (fun row => length row = length times) data ->
  tables_ok (default true (pooled settings)) tbl (length data) ->
  (j < length data)%nat -> (t < length times)%nat ->
  gtb (nth t (nth j data []) NaN) (Num 0) = false ->
  forallb isnan (nth j data []) = false ->
  (forall e, default true (pooled settings) = true ->
     table_for tbl None (month_of (nth t times 0%nat)) = Some e ->
     (2 <= length e)%nat) ->
  exists out,
    normal_quantile_transform data times tbl settings = Ok out /\
    out !! t ≫= (.!! j)
    = Some (nan_to_num (default (Num (-4)) (min_z_value settings))
              (if default true (pooled settings)
               then match table_for tbl None (month_of (nth t times 0%nat)) with
                    | Some _ => norm_ppf NaN
                    | None => NaN
                    end
               else NaN)).
Proof.
  intros Hne Hrect Hok Hj Ht Hdry Hcol Hrows.
  eexists. split; [now apply normal_quantile_transform_cells |].
  unfold forward_output. rewrite matrix_of_cells_lookup by assumption.
  rewrite Hcol. unfold forward_cell. rewrite Hdry. do 2 f_equal.
  destruct (default true (pooled settings)); [|reflexivity].
  destruct (table_for tbl None _) as [e|] eqn:Htab; [|reflexivity].
  unfold mask_positive. rewrite Hdry. unfold z_score.
  now rewrite (interp1d_nan e (Hrows e eq_refl eq_refl)).
Qed.

End ForwardCells.

(** X14 on the sample: the tables have no month 2, and the cell of
    station 1 at the second time stamp gets the default floor -4. *)
Lemma forward_without_usable_table_witness :
  exists out,
    normal_quantile_transform (libs := sample_libs) sample_data sample_times
      sample_tables sample_settings = Ok out /\
    out !! 1%nat ≫= (.!! 1%nat)
    = Some (default (Num (-4)) (min_z_value sample_settings)).
Proof.
  apply (forward_without_usable_table (libs := sample_libs) sample_data
           sample_times sample_tables sample_settings 1 1).
  - discriminate.
  - repeat constructor.
  - intros month _. cbn. eexists. reflexivity.
  - cbn. lia.
  - cbn. lia.
  - reflexivity.
  - reflexivity.
Defined.

(** X15 on the value 9 against the sample table, whose largest value
    is 4. *)
Lemma forward_outside_table_range_witness :
  exists out,
    normal_quantile_transform (libs := sample_libs) [[Num 9; NaN]] sample_times
      sample_tables sample_settings = Ok out /\
    out !! 0%nat ≫= (.!! 0%nat)
    = Some (nan_to_num (default (Num (-4)) (min_z_value sample_settings))
              (norm_ppf (Libs := sample_libs) NaN)).
Proof.
  apply (forward_outside_table_range (libs := sample_libs) [[Num 9; NaN]]
           sample_times sample_tables sample_settings 0 0 sample_table 9).
  - discriminate.
  - repeat constructor.
  - intros month _. cbn. eexists. reflexivity.
  - cbn. lia.
  - cbn. lia.
  - reflexivity.
  - repeat constructor. apply sort_leb_num. lra.
  - reflexivity.
  - lra.
  - right. cbn. lra.
Defined.

(** X16 on a zero in January against the sample table of two rows. *)
Lemma forward_of_dry_cell_witness :
  exists out,
    normal_quantile_transform (libs := sample_libs) [[Num 0; Num 4]] [0%nat; 0%nat]
      sample_tables sample_settings = Ok out /\
    out !! 0%nat ≫= (.!! 0%nat)
    = Some (nan_to_num (default (Num (-4)) (min_z_value sample_settings))
              (if default true (pooled sample_settings)
               then match table_for sample_tables None
                            (month_of (nth 0 [0%nat; 0%nat] 0%nat)) with
                    | Some _ => norm_ppf (Libs := sample_libs) NaN
                    | None => NaN
                    end
               else NaN)).
Proof.
  apply (forward_of_dry_cell (libs := sample_libs) [[Num 0; Num 4]] [0%nat; 0%nat]
           sample_tables sample_settings 0 0).
  - discriminate.
  - repeat constructor.
  - intros month _. cbn. eexists. reflexivity.
  - cbn. lia.
  - cbn. lia.
  - cbn. destruct (Rlt_dec 0 0); [lra | reflexivity].
  - reflexivity.
  - intros e _ He.
    assert (T : table_for sample_tables None (month_of (nth 0 [0%nat; 0%nat] 0%nat))
                = Some sample_table) by reflexivity.
    rewrite T in He. inversion He. cbn. lia.
Defined.

(** ** The inverse transform: interpolation method and grid layout *)

(** A loop whose turns each return whatever the state, or each raise
    [e] whatever the state. *)
Lemma for_each_outcome {A St} (e : exn) (body : St -> A -> result St)
    (l : list A) :
  (forall a, a ∈ l ->
     (forall st, exists st', body st a = Ok st') \/ (forall st, body st a = Raise e)) ->
  (forall st, exists st', for_each l body st = Ok st') \/
  (forall st, for_each l body st = Raise e).
Proof.
  induction l as [|a l IH]; intros Hstep; cbn.
  - left. eauto.
  - destruct (Hstep a) as [Hok|Hfail]; [now left | |].
    + destruct IH as [Hl|Hl].
      * intros b Hb. apply Hstep. now right.
      * left. intros st. destruct (Hok st) as [st1 E1]. rewrite E1, bind_Ok. apply Hl.
      * right. intros st. destruct (Hok st) as [st1 E1]. rewrite E1, bind_Ok. apply Hl.
    + right. intros st. now rewrite Hfail.
Qed.

Lemma for_each_raise {A St} (e : exn) (body : St -> A -> result St)
    (l : list A) :
  (forall a, a ∈ l ->
     (forall st, exists st', body st a = Ok st') \/ (forall st, body st a = Raise e)) ->
  (exists a, a ∈ l /\ forall st, body st a = Raise e) ->
  forall st, for_each l body st = Raise e.
Proof.
  induction l as [|a l IH]; intros Hstep (a0 & Hin & Hfail) st; [inversion Hin |].
  cbn. destruct (Hstep a) as [Hok|Hf]; [now left | |].
  - destruct (Hok st) as [st1 E1]. rewrite E1, bind_Ok.
    apply elem_of_cons in Hin. destruct Hin as [->|Hin].
    + rewrite (Hfail st) in E1. discriminate.
    + apply IH; [intros b Hb; apply Hstep; now right |].
      exists a0. split; [exact Hin | exact Hfail].
  - now rewrite Hf.
Qed.

Section InverseMethod.
Context {libs : Libs}.

Lemma inqt_body_outcome df time tbl interp_method min_est month station pooled :
  interp_method <> "interp1d"%string ->
  inverse_lookups_ok pooled tbl time (length df) ->
  (1 <= month <= 12)%nat -> station ∈ loop_stations pooled (length df) ->
  (table_for tbl station month = None /\
   forall fr, exists fr',
     inqt_body df time tbl interp_method min_est month fr station = Ok fr') \/
  ((exists e, table_for tbl station month = Some e) /\
   forall fr,
     inqt_body df time tbl interp_method min_est month fr station = Raise NameError).
Proof.
  intros Him Hok Hm Hst.
  destruct (Hok month station Hm Hst) as (o & Hl & Hacc).
  unfold table_for, inqt_body. rewrite Hl.
  destruct (usable o) as [e|] eqn:Hu.
  - right. split; [eauto |]. intros fr. rewrite bind_Ok, Hu.
    apply String.eqb_neq in Him. now rewrite Him.
  - left. split; [reflexivity |]. intros fr. rewrite bind_Ok, Hu.
    destruct station as [s|]; [eauto |].
    rewrite (Hacc eq_refl eq_refl). eauto.
Qed.

(** X17.  The inverse quantile transform knows one interpolation method.
    With any other ['interp_method'] in the settings it raises
    [NameError] as soon as a usable table is met (the values are never
    computed), so that it can return only when no table of the loop is
    usable. *)
Theorem inverse_needs_interp1d (data : ndarray) (time : list nat)
    (tbl : monthly_cdfs_t) (settings : Settings) (df : list (list fl))
    (month : nat) (station : option nat) (e : cdf_df) :
  frame_of_data data time = Ok df ->
  default "interp1d"%string (interp_method settings) <> "interp1d"%string ->
  inverse_lookups_ok (default true (pooled settings)) tbl time (length df) ->
  (1 <= month <= 12)%nat ->
  station ∈ loop_stations (default true (pooled settings)) (length df) ->
  table_for tbl station month = Some e ->
  inverse_normal_quantile_transform data time tbl settings = Raise NameError.
Proof.
  intros Hdf Him Hok Hm Hst Htab.
  unfold inverse_normal_quantile_transform. rewrite Hdf, bind_Ok.
  fold (loop_stations (default true (pooled settings)) (length df)).
  set (pl := default true (pooled settings)) in *.
  set (im := default "interp1d"%string (interp_method settings)) in *.
  set (me := default (Num 0.01) (min_est_value settings)).
  assert (Hstations : forall k, (1 <= k <= 12)%nat ->
            forall a, a ∈ loop_stations pl (length df) ->
              (forall st, exists st', inqt_body df time tbl im me k st a = Ok st') \/
              (forall st, inqt_body df time tbl im me k st a = Raise NameError)).
  { intros k Hk a Ha.
    destruct (inqt_body_outcome df time tbl im me k a pl Him Hok Hk Ha)
      as [[_ H]|[_ H]]; auto. }
  rewrite (for_each_raise NameError); [reflexivity | |].
  - intros k Hk. apply elem_of_seq in Hk.
    apply for_each_outcome. apply Hstations. lia.
  - exists month. split; [apply elem_of_seq; lia |].
    apply for_each_raise; [now apply Hstations |].
    exists station. split; [exact Hst |].
    destruct (inqt_body_outcome df time tbl im me month station pl Him Hok Hm Hst)
      as [[Hn _]|[_ H]]; [congruence | exact H].
Qed.

End InverseMethod.

(** X17 on the sample: every month has a usable table and the method is
    ['cubic']. *)
Lemma inverse_needs_interp1d_witness :
  inverse_normal_quantile_transform (libs := sample_libs) (Array2 sample_z_scores)
    sample_times sample_tables_all
    (mkSettings None None None None None None (Some "cubic"%string))
  = Raise NameError.
Proof.
  apply (inverse_needs_interp1d (libs := sample_libs) (Array2 sample_z_scores)
           sample_times sample_tables_all
           (mkSettings None None None None None None (Some "cubic"%string))
           sample_z_scores 1 None sample_table).
  - reflexivity.
  - discriminate.
  - intros month station Hm Hst. cbn in Hst.
    apply list_elem_of_singleton in Hst. subst station.
    exists (Some sample_table).
    split; [now apply sample_tables_all_lookup | discriminate].
  - lia.
  - cbn. now left.
  - reflexivity.
Defined.

Lemma transpose_matrix_of_cells n ntime c :
  (0 < ntime)%nat ->
  transpose (matrix_of_cells n ntime c)
  = map (fun j => map (c j) (seq 0 ntime)) (seq 0 n).
Proof.
  intros Hnt. unfold transpose, matrix_of_cells.
  assert (Hhd : length (hd [] (map (fun t => map (fun j => c j t) (seq 0 n))
                                   (seq 0 ntime))) = n).
  { destruct ntime as [|k]; [lia |]. cbn. now rewrite length_map, length_seq. }
  rewrite Hhd. apply map_seq_ext. intros j Hj.
  rewrite map_map. apply map_ext. intros t.
  apply (nth_map_seq (fun j0 => c j0 t)). lia.
Qed.

Lemma reshape3_length nrows ncols (l : list (list fl)) :
  length (reshape3 nrows ncols l) = nrows.
Proof.
  revert l. induction nrows as [|k IH]; intros l; cbn; [reflexivity |].
  now rewrite IH.
Qed.

Lemma reshape3_nth nrows ncols (l : list (list fl)) y x :
  (y < nrows)%nat -> (x < ncols)%nat ->
  nth x (nth y (reshape3 nrows ncols l) []) [] = nth (y * ncols + x) l [].
Proof.
  revert l y. induction nrows as [|k IH]; intros l y Hy Hx; [lia |].
  cbn [reshape3]. destruct y as [|y]; cbn [nth].
  - cbn [Nat.mul Nat.add]. rewrite nth_firstn.
    destruct (Nat.ltb_spec x ncols); [reflexivity | lia].
  - rewrite IH by lia. rewrite nth_skipn. f_equal. lia.
Qed.

Lemma reshape3_planes nrows ncols (l : list (list fl)) :
  length l = (nrows * ncols)%nat ->
  Forall (fun plane => length plane = ncols) (reshape3 nrows ncols l).
Proof.
  revert l. induction nrows as [|k IH]; intros l Hl; cbn [reshape3]; constructor.
  - rewrite length_take. lia.
  - apply IH. rewrite length_drop. lia.
Qed.

Lemma concat_rect_length {A} (a : list (list A)) nx :
  Forall (fun plane => length plane = nx) a ->
  length (concat a) = (length a * nx)%nat.
Proof.
  induction 1 as [|p a Hp _ IH]; cbn; [reflexivity |].
  rewrite length_app, IH, Hp. lia.
Qed.

Lemma concat_rect_nth {A} (a : list (list A)) nx y x (d : A) :
  Forall (fun plane => length plane = nx) a ->
  (y < length a)%nat -> (x < nx)%nat ->
  nth (y * nx + x) (concat a) d = nth x (nth y a []) d.
Proof.
  intros Hr. revert y. induction Hr as [|p a Hp _ IH]; intros y Hy Hx; cbn in Hy; [lia |].
  cbn [concat]. destruct y as [|y]; cbn [nth Nat.mul Nat.add].
  - apply app_nth1. lia.
  - rewrite app_nth2 by lia. rewrite <- (IH y) by lia. f_equal. lia.
Qed.

(** The array an inverse transform makes of its frame for a grid: the
    series of grid cell [(y, x)] is column [y * nx + x] of the frame. *)
Lemma array_of_frame_grid (a : list (list (list fl))) ny nx nt c :
  (0 < ny)%nat -> (0 < nx)%nat -> (0 < nt)%nat ->
  length a = ny -> Forall (fun plane => length plane = nx) a ->
  exists out,
    array_of_frame (Array3 a) nt (frame_of_cells (ny * nx) nt c) = Array3 out /\
    grid_shape_is ny nx nt out /\
    forall y x t, (y < ny)%nat -> (x < nx)%nat -> (t < nt)%nat ->
      nth t (nth x (nth y out []) []) NaN = c (y * nx + x)%nat t.
Proof.
  intros Hny Hnx Hnt Hlen Hplanes.
  unfold array_of_frame. rewrite to_numpy_cells, transpose_matrix_of_cells by exact Hnt.
  assert (Hhd : length (hd [] a) = nx).
  { destruct a as [|p a]; [cbn in Hlen; lia |]. now inversion Hplanes. }
  rewrite Hlen, Hhd. eexists. split; [reflexivity |].
  set (rows := map (fun j => map (c j) (seq 0 nt)) (seq 0 (ny * nx))).
  assert (Hrows : length rows = (ny * nx)%nat)
    by (unfold rows; now rewrite length_map, length_seq).
  split; [split; [apply reshape3_length | split] |].
  - now apply reshape3_planes.
  - apply Forall_reshape3. unfold rows. apply Forall_forall. intros r Hr.
    apply list_elem_of_In, in_map_iff in Hr. destruct Hr as (j & <- & _).
    now rewrite length_map, length_seq.
  - intros y x t Hy Hx Ht. rewrite reshape3_nth by assumption.
    unfold rows. rewrite nth_map_seq by nia. apply nth_map_seq. exact Ht.
Qed.

Lemma frame_of_grid (a : list (list (list fl))) time ny nx :
  (0 < ny)%nat -> (0 < nx)%nat -> time <> [] ->
  grid_shape_is ny nx (length time) a ->
  frame_of_data (Array3 a) time = Ok (concat a) /\
  length (concat a) = (ny * nx)%nat.
Proof.
  intros Hny Hnx Ht (Hlen & Hplanes & Hseries).
  assert (Hn : length (concat a) = (ny * nx)%nat)
    by (rewrite (concat_rect_length a nx Hplanes); now rewrite Hlen).
  split; [|exact Hn].
  unfold frame_of_data, flatten3, index.
  destruct a as [|p a]; [cbn in Hlen; lia |]. cbn [lookup list_lookup]. rewrite bind_Ok.
  inversion Hplanes as [|? ? Hp _]; subst.
  inversion Hseries as [|? ? Hs Hs']; subst.
  destruct p as [|s p]; [cbn in Hnx; lia |]. cbn [lookup list_lookup]. rewrite bind_Ok.
  inversion Hs as [|? ? Hs0 _]; subst.
  destruct (Nat.eqb_spec (length s) 0) as [E|_].
  { destruct time; [congruence | cbn in Hs0; lia]. }
  rewrite bind_Ok. apply make_df_rect.
  apply Forall_concat. exact Hseries.
Qed.

Section InverseGrid.
Context {libs : Libs}.

(** X18.  The inverse quantile transform keeps the layout of a grid.
    For a three-dimensional input of [ny] rows of [nx] series over the
    time stamps it returns an array of the same shape, and the value at
    row [y], column [x] and time [t] is computed from the input value at
    the same place, with the table of the month of [t]: the pooled one,
    or in the unpooled mode the one of station number [y * nx + x]. *)
Theorem inverse_transform_keeps_grid (a : list (list (list fl)))
    (time : list nat) (tbl : monthly_cdfs_t) (settings : Settings)
    (ny nx : nat) :
  (0 < ny)%nat -> (0 < nx)%nat -> time <> [] ->
  grid_shape_is ny nx (length time) a ->
  inverse_ok (default true (pooled settings))
    (default "interp1d"%string (interp_method settings)) tbl time (ny * nx) ->
  exists out,
    inverse_normal_quantile_transform (Array3 a) time tbl settings
      = Ok (Array3 out) /\
    grid_shape_is ny nx (length time) out /\
    forall y x t, (y < ny)%nat -> (x < nx)%nat -> (t < length time)%nat ->
      nth t (nth x (nth y out []) []) NaN
      = match table_for tbl
                (if default true (pooled settings) then None
                 else Some (y * nx + x)%nat)
                (month_of (nth t time 0%nat)) with
        | Some e =>
            filter_small (default (Num 0.01) (min_est_value settings))
              (interp1d_extrapolate (CDF e) (Value e)
                 (norm_cdf (nth t (nth x (nth y a []) []) NaN)))
        | None => Num 0
        end.
Proof.
  intros Hny Hnx Ht Hshape Hok.
  destruct (frame_of_grid a time ny nx Hny Hnx Ht Hshape) as [Hdf Hn].
  destruct Hshape as (Hlen & Hplanes & Hseries).
  rewrite (inverse_normal_quantile_transform_cells _ _ _ _ (concat a) Hdf)
    by (now rewrite Hn).
  rewrite Hn.
  destruct (array_of_frame_grid a ny nx (length time)
              (inverse_cell (default true (pooled settings)) (concat a) time tbl
                 (default (Num 0.01) (min_est_value settings)))
              Hny Hnx) as (out & E & Hs & Hcell); try assumption.
  { destruct time; [congruence | cbn; lia]. }
  exists out. split; [now rewrite E |]. split; [exact Hs |].
  intros y x t Hy Hx Htt. rewrite (Hcell y x t Hy Hx Htt).
  unfold inverse_cell.
  now rewrite (concat_rect_nth a nx y x [] Hplanes) by lia.
Qed.

End InverseGrid.

(** X18 on a grid of one cell and two time stamps, with a table in
    every month. *)
Lemma inverse_transform_keeps_grid_witness :
  exists out,
    inverse_normal_quantile_transform (libs := sample_libs) (Array3 sample_grid)
      sample_times sample_tables_all sample_settings = Ok (Array3 out) /\
    grid_shape_is 1 1 (length sample_times) out /\
    forall y x t, (y < 1)%nat -> (x < 1)%nat -> (t < length sample_times)%nat ->
      nth t (nth x (nth y out []) []) NaN
      = match table_for sample_tables_all
                (if default true (pooled sample_settings) then None
                 else Some (y * 1 + x)%nat)
                (month_of (nth t sample_times 0%nat)) with
        | Some e =>
            filter_small (default (Num 0.01) (min_est_value sample_settings))
              (interp1d_extrapolate (Libs := sample_libs) (CDF e) (Value e)
                 (norm_cdf (Libs := sample_libs)
                    (nth t (nth x (nth y sample_grid []) []) NaN)))
        | None => Num 0
        end.
Proof.
  apply (inverse_transform_keeps_grid (libs := sample_libs) sample_grid
           sample_times sample_tables_all sample_settings 1 1).
  - lia.
  - lia.
  - discriminate.
  - repeat constructor.
  - intros month station Hm Hst. cbn in Hst.
    apply list_elem_of_singleton in Hst. subst station.
    exists (Some sample_table).
    split; [now apply sample_tables_all_lookup | reflexivity].
Defined.

(** ** The gamma transform *)

Section GammaForward.
Context {libs : Libs}.

Lemma forallb_isnan_positive (v : nat -> fl) (L : list nat) :
  (forall t, t ∈ L -> gtb (v t) (Num 0) = true) ->
  forallb (fun tv : nat * fl => isnan tv.2) (map (fun t => (t, v t)) L)
  = match L with [] => true | _ :: _ => false end.
Proof.
  intros Hpos. destruct L as [|t L]; [reflexivity |]. cbn.
  specialize (Hpos t ltac:(now left)).
  destruct (v t); [discriminate | reflexivity].
Qed.







End GammaForward.


Section GammaErrors.
Context {libs : Libs}.

Lemma gamma_body_outcome data times gs k s :
  (forall fr, exists fr', gamma_body data times gs k fr s = Ok fr') \/
  (forall fr, gamma_body data times gs k fr s = Raise KeyError).
Proof.
  unfold gamma_body.
  destruct (forallb _ _); [left; eauto |].
  unfold getitem.
  destruct (gamma_shape gs !! (s, k)); cbn; [|now right].
  destruct (gamma_scale gs !! (s, k)); cbn; [left; eauto | now right].
Qed.

Lemma gamma_body_raise data times gs k s :
  has_positive data times s k -> gamma_station_params gs s k = None ->
  forall fr, gamma_body data times gs k fr s = Raise KeyError.
Proof.
  intros (t0 & Hin & Hpos) Hpar fr. unfold gamma_body.
  rewrite (filter_keyed (fun v => gtb v (Num 0))).
  rewrite forallb_isnan_positive
    by (intros t Ht; apply filter_elem in Ht; apply Ht).
  assert (Hne : t0 ∈ List.filter (fun t => gtb (nth t (nth s data []) NaN) (Num 0))
                       (month_rows times k))
    by (apply filter_elem; now split).
  destruct (List.filter _ (month_rows times k)) as [|t1 L]; [inversion Hne |].
  unfold gamma_station_params in Hpar. unfold getitem.
  destruct (gamma_shape gs !! (s, k)); cbn in *; [|reflexivity].
  destruct (gamma_scale gs !! (s, k)); cbn in *; [discriminate | reflexivity].
Qed.

(** X20.  [gamma_transform] raises [KeyError] when the station dataset
    lacks the shape or the scale of a station and month in which the
    station has a positive observation. *)
Theorem gamma_transform_needs_parameters (data : list (list fl))
    (times : list nat) (settings : Settings) (gamma_stations_ds : gamma_station)
    (j month : nat) :
  Forall (fun row => length row = length times) data ->
  (j < length data)%nat -> (1 <= month <= 12)%nat ->
  has_positive data times j month ->
  gamma_station_params gamma_stations_ds j month = None ->
  gamma_transform data times settings gamma_stations_ds = Raise KeyError.
Proof.
  intros Hrect Hj Hm Hpos Hpar. unfold gamma_transform.
  rewrite (make_df_rect _ _ Hrect), bind_Ok.
  rewrite (for_each_raise KeyError); [reflexivity | |].
  - intros k _. apply for_each_outcome. intros s _. apply gamma_body_outcome.
  - exists month. split; [apply elem_of_seq; lia |].
    apply for_each_raise; [intros s _; apply gamma_body_outcome |].
    exists j. split; [apply elem_of_seq; lia |].
    now apply gamma_body_raise.
Qed.

Lemma gamma_back_body_outcome (a : list (list (list fl))) df time min_est gs month :
  (forall fr, exists fr',
     gamma_back_body (Array3 a) df time min_est gs None fr month = Ok fr') \/
  (forall fr, gamma_back_body (Array3 a) df time min_est gs None fr month
              = Raise TypeError).
Proof.
  unfold gamma_back_body.
  destruct ((length (month_rows time month) =? 0)%nat || (length df =? 0)%nat);
    [left; eauto | now right].
Qed.

(** X21.  A three-dimensional (grid) input needs the gridded parameter
    dataset: called without it (the default [None]) on a grid that has a
    cell and a time stamp, [gamma_back_transform] raises [TypeError] at
    the first month that has a time stamp, whatever the station dataset
    holds. *)
Theorem gamma_back_grid_needs_gridded_dataset (a : list (list (list fl)))
    (time : list nat) (settings : Settings) (gamma_station_ds : gamma_station)
    (ny nx : nat) :
  (0 < ny)%nat -> (0 < nx)%nat -> time <> [] ->
  grid_shape_is ny nx (length time) a ->
  gamma_back_transform (Array3 a) time settings gamma_station_ds None
  = Raise TypeError.
Proof.
  intros Hny Hnx Ht Hshape.
  destruct (frame_of_grid a time ny nx Hny Hnx Ht Hshape) as [Hdf Hn].
  unfold gamma_back_transform. rewrite Hdf, bind_Ok.
  rewrite (for_each_raise TypeError); [reflexivity | |].
  - intros k _. apply gamma_back_body_outcome.
  - exists (month_of (nth 0 time 0%nat)). split.
    + apply elem_of_seq. pose proof (month_of_range (nth 0 time 0%nat)). lia.
    + intros fr. unfold gamma_back_body.
      assert (Hrows : (length (month_rows time (month_of (nth 0 time 0%nat))) =? 0)%nat
                      = false).
      { apply Nat.eqb_neq. intros E. apply length_zero_iff_nil in E.
        assert (Hin : 0%nat ∈ month_rows time (month_of (nth 0 time 0%nat))).
        { apply month_rows_elem. split; [|reflexivity].
          destruct time; [congruence | cbn; lia]. }
        rewrite E in Hin. inversion Hin. }
      assert (Hcols : (length (concat a) =? 0)%nat = false)
        by (apply Nat.eqb_neq; rewrite Hn; nia).
      now rewrite Hrows, Hcols.
Qed.

End GammaErrors.

(** X20 on the sample data with an empty station dataset: station 1 has
    the positive observation 4 in January. *)
Lemma gamma_transform_needs_parameters_witness :
  gamma_transform (libs := sample_libs) sample_data sample_times sample_settings
    (mkGammaStation ∅ ∅)
  = Raise KeyError.
Proof.
  apply (gamma_transform_needs_parameters (libs := sample_libs) sample_data
           sample_times sample_settings (mkGammaStation ∅ ∅) 1 1).
  - repeat constructor.
  - cbn. lia.
  - lia.
  - exists 0%nat. split.
    + apply month_rows_elem. split; [cbn; lia | reflexivity].
    + cbn. destruct (Rlt_dec 0 4); [reflexivity | lra].
  - reflexivity.
Defined.

(** X21 on the sample grid. *)
Lemma gamma_back_grid_needs_gridded_dataset_witness :
  gamma_back_transform (libs := sample_libs) (Array3 sample_grid) sample_times
    sample_settings sample_gamma_station None
  = Raise TypeError.
Proof.
  apply (gamma_back_grid_needs_gridded_dataset (libs := sample_libs) sample_grid
           sample_times sample_settings sample_gamma_station 1 1).
  - lia.
  - lia.
  - discriminate.
  - repeat constructor.
Defined.

Section GammaGrid.
Context {libs : Libs}.

Lemma broadcast_to_same n (l : list fl) : length l = n -> broadcast_to n l = Ok l.
Proof. intros H. unfold broadcast_to. now rewrite H, Nat.eqb_refl. Qed.

Lemma gamma_params_grid (a : list (list (list fl))) gs gg month ny nx A S :
  grid_shape gg !! month = Some A -> grid_scale gg !! month = Some S ->
  length A = ny -> Forall (fun row => length row = nx) A ->
  length S = ny -> Forall (fun row => length row = nx) S ->
  gamma_params (Array3 a) (ny * nx) gs (Some gg) month
  = Ok (concat A, concat (map (map (fun _ => Num 0)) S), concat S).
Proof.
  intros HA HS HlA HrA HlS HrS. unfold gamma_params.
  rewrite bind_Ok, (getitem_some _ _ _ HA), bind_Ok, (getitem_some _ _ _ HS), bind_Ok.
  assert (LA : length (concat A) = (ny * nx)%nat)
    by (rewrite (concat_rect_length A nx HrA); now rewrite HlA).
  assert (LS : length (concat S) = (ny * nx)%nat)
    by (rewrite (concat_rect_length S nx HrS); now rewrite HlS).
  assert (LZ : length (concat (map (map (fun _ : fl => Num 0)) S)) = (ny * nx)%nat).
  { rewrite (concat_rect_length _ nx).
    - now rewrite length_map, HlS.
    - apply Forall_map. eapply Forall_impl; [exact HrS |].
      intros row Hrow. cbn. now rewrite length_map. }
  rewrite (broadcast_to_same _ _ LA), bind_Ok.
  rewrite (broadcast_to_same _ _ LZ), bind_Ok.
  now rewrite (broadcast_to_same _ _ LS), bind_Ok.
Qed.

Lemma zeros_like_nth (S : list (list fl)) nx y x :
  Forall (fun row => length row = nx) S ->
  (y < length S)%nat -> (x < nx)%nat ->
  nth (y * nx + x) (concat (map (map (fun _ => Num 0)) S)) NaN = Num 0.
Proof.
  intros Hr Hy Hx.
  rewrite (concat_rect_nth _ nx y x NaN).
  - rewrite (nth_map_default _ _ _ []) by exact Hy.
    rewrite (nth_map_default _ _ _ NaN); [reflexivity |].
    rewrite Forall_forall in Hr. rewrite (Hr (nth y S [])); [exact Hx |].
    apply list_elem_of_In, nth_In. exact Hy.
  - apply Forall_map. eapply Forall_impl; [exact Hr |].
    intros row Hrow. cbn. now rewrite length_map.
  - now rewrite length_map.
  - exact Hx.
Qed.

(** X22.  On a grid the gamma inverse transform keeps the layout and
    pairs every cell with its own parameters.  For an input of [ny] rows
    of [nx] series and a gridded dataset whose monthly shape and scale
    arrays have [ny] rows of [nx] cells, the result has the shape of the
    input, and its value at row [y], column [x] and time [t] is
    [gamma.ppf] of the clipped normal probability of the input value at
    the same place, with the shape and the scale of cell [(y, x)] in the
    month of [t] and location 0, small values set to 0. *)
Theorem gamma_back_keeps_grid (a : list (list (list fl))) (time : list nat)
    (settings : Settings) (gamma_station_ds : gamma_station)
    (gamma_gridded_ds : gamma_gridded) (ny nx : nat) :
  (0 < ny)%nat -> (0 < nx)%nat -> time <> [] ->
  grid_shape_is ny nx (length time) a ->
  grid_params_ok gamma_gridded_ds time ny nx ->
  exists out,
    gamma_back_transform (Array3 a) time settings gamma_station_ds
      (Some gamma_gridded_ds) = Ok (Array3 out) /\
    grid_shape_is ny nx (length time) out /\
    forall y x t A S,
      (y < ny)%nat -> (x < nx)%nat -> (t < length time)%nat ->
      grid_shape gamma_gridded_ds !! month_of (nth t time 0%nat) = Some A ->
      grid_scale gamma_gridded_ds !! month_of (nth t time 0%nat) = Some S ->
      nth t (nth x (nth y out []) []) NaN
      = filter_small (default (Num 0.01) (min_est_value settings))
          (gamma_ppf
             (clip (norm_cdf (nth t (nth x (nth y a []) []) NaN)) 0 0.99999)
             (nth x (nth y A []) NaN) (Num 0) (nth x (nth y S []) NaN)).
Proof.
  intros Hny Hnx Ht Hshape Hpar.
  destruct (frame_of_grid a time ny nx Hny Hnx Ht Hshape) as [Hdf Hn].
  destruct Hshape as (Hlen & Hplanes & Hseries).
  rewrite (gamma_back_transform_cells _ _ _ _ _ (concat a) Hdf).
  2:{ intros month _ Hrows _. rewrite Hn.
      destruct (Hpar month Hrows) as (A & S & HA & HS & HlA & HrA & HlS & HrS).
      eexists. now apply (gamma_params_grid a _ _ _ ny nx A S). }
  rewrite Hn.
  destruct (array_of_frame_grid a ny nx (length time)
              (gamma_back_cell (Array3 a) (concat a) time
                 (default (Num 0.01) (min_est_value settings)) gamma_station_ds
                 (Some gamma_gridded_ds))
              Hny Hnx) as (out & E & Hs & Hcell); try assumption.
  { destruct time; [congruence | cbn; lia]. }
  exists out. split; [now rewrite E |]. split; [exact Hs |].
  intros y x t A S Hy Hx Htt HA HS. rewrite (Hcell y x t Hy Hx Htt).
  assert (Hrows : month_rows time (month_of (nth t time 0%nat)) <> []).
  { intros E0. assert (Hin : t ∈ month_rows time (month_of (nth t time 0%nat)))
      by now apply month_rows_elem.
    rewrite E0 in Hin. inversion Hin. }
  destruct (Hpar _ Hrows) as (A' & S' & HA' & HS' & HlA & HrA & HlS & HrS).
  rewrite HA in HA'. rewrite HS in HS'. inversion HA'. inversion HS'. subst A' S'.
  unfold gamma_back_cell. rewrite Hn.
  rewrite (gamma_params_grid a _ _ _ ny nx A S) by assumption.
  cbn [cum_probs_of]. unfold cum_probs_grid.
  rewrite (concat_rect_nth a nx y x [] Hplanes) by lia.
  rewrite (concat_rect_nth A nx y x NaN HrA) by lia.
  rewrite (concat_rect_nth S nx y x NaN HrS) by lia.
  now rewrite (zeros_like_nth S nx y x HrS) by lia.
Qed.

End GammaGrid.

(** X22 on the sample grid of one cell with shape 2 and scale 3. *)
Lemma gamma_back_keeps_grid_witness :
  exists out,
    gamma_back_transform (libs := sample_libs) (Array3 sample_grid) sample_times
      sample_settings sample_gamma_station (Some sample_gamma_gridded)
      = Ok (Array3 out) /\
    grid_shape_is 1 1 (length sample_times) out /\
    forall y x t A S,
      (y < 1)%nat -> (x < 1)%nat -> (t < length sample_times)%nat ->
      grid_shape sample_gamma_gridded !! month_of (nth t sample_times 0%nat) = Some A ->
      grid_scale sample_gamma_gridded !! month_of (nth t sample_times 0%nat) = Some S ->
      nth t (nth x (nth y out []) []) NaN
      = filter_small (default (Num 0.01) (min_est_value sample_settings))
          (gamma_ppf (Libs := sample_libs)
             (clip (norm_cdf (Libs := sample_libs)
                      (nth t (nth x (nth y sample_grid []) []) NaN)) 0 0.99999)
             (nth x (nth y A []) NaN) (Num 0) (nth x (nth y S []) NaN)).
Proof.
  apply (gamma_back_keeps_grid (libs := sample_libs) sample_grid sample_times
           sample_settings sample_gamma_station sample_gamma_gridded 1 1).
  - lia.
  - lia.
  - discriminate.
  - repeat constructor.
  - intros month Hrows.
    assert (Hm : month = 1%nat \/ month = 2%nat).
    { destruct (month_rows sample_times month) as [|t rows] eqn:E; [congruence |].
      assert (Hin : t ∈ month_rows sample_times month) by (rewrite E; now left).
      apply month_rows_elem in Hin. destruct Hin as [Ht Hmo].
      destruct t as [|[|t]]; cbn in Ht, Hmo; try lia; auto. }
    exists [[Num 2]], [[Num 3]].
    destruct Hm as [-> | ->]; repeat split; repeat constructor.
Defined.

(** ** The dispatcher on the gamma method: there and back *)




Section GammaRoundTrip.
Context {libs : Libs}.




End GammaRoundTrip.


(** ** The dispatcher and its input *)

Section DispatcherStore.
Context {libs : Libs}.

(** X25.  The methods ['ecdf'] and ['gamma_monthly'] take an array
    object only, and not of every dimension.  Given a nested list, which
    the power transforms accept, both modes raise [AttributeError]; given
    a three-dimensional array, ['transform'] raises [ValueError]; given a
    one-dimensional array, ['back_transform'] raises [NameError].  In
    each case nothing is printed and the store is as before. *)
Theorem data_transformation_rejects (method : string) (settings : Settings)
    (times : list nat) (cdfs : monthly_cdfs_t) (gamma_stations_ds : gamma_station)
    (gamma_gridded_ds : option gamma_gridded) (w : world) :
  method = "ecdf"%string \/ method = "gamma_monthly"%string ->
  (forall a mode, mode = "transform"%string \/ mode = "back_transform"%string ->
     data_transformation (PyList a) method settings mode times cdfs
       gamma_stations_ds gamma_gridded_ds w = (Raise AttributeError, w)) /\
  (forall l a, heap w !! l = Some (Array3 a) ->
     data_transformation (Ref l) method settings "transform" times cdfs
       gamma_stations_ds gamma_gridded_ds w = (Raise ValueError, w)) /\
  (forall l a, heap w !! l = Some (Array1 a) ->
     data_transformation (Ref l) method settings "back_transform" times cdfs
       gamma_stations_ds gamma_gridded_ds w = (Raise NameError, w)).
Proof.
  intros Hm. split; [|split].
  - intros a mode Hmode.
    destruct Hm as [-> | ->], Hmode as [-> | ->]; reflexivity.
  - intros l a Hl. unfold data_transformation.
    destruct Hm as [-> | ->].
    + change (String.eqb "ecdf" "boxcox") with false.
      change (String.eqb "ecdf" "ecdf") with true.
      change (String.eqb "transform" "transform") with true. cbv iota.
      unfold deref. rewrite bind_run, (load_run l _ w Hl). reflexivity.
    + change (String.eqb "gamma_monthly" "boxcox") with false.
      change (String.eqb "gamma_monthly" "ecdf") with false.
      change (String.eqb "gamma_monthly" "gamma_monthly") with true.
      change (String.eqb "transform" "transform") with true. cbv iota.
      unfold deref. rewrite bind_run, (load_run l _ w Hl). reflexivity.
  - intros l a Hl. unfold data_transformation.
    destruct Hm as [-> | ->].
    + change (String.eqb "ecdf" "boxcox") with false.
      change (String.eqb "ecdf" "ecdf") with true.
      change (String.eqb "back_transform" "transform") with false.
      change (String.eqb "back_transform" "back_transform") with true. cbv iota.
      unfold deref. rewrite bind_run, (load_run l _ w Hl). reflexivity.
    + change (String.eqb "gamma_monthly" "boxcox") with false.
      change (String.eqb "gamma_monthly" "ecdf") with false.
      change (String.eqb "gamma_monthly" "gamma_monthly") with true.
      change (String.eqb "back_transform" "transform") with false.
      change (String.eqb "back_transform" "back_transform") with true. cbv iota.
      unfold deref. rewrite bind_run, (load_run l _ w Hl). reflexivity.
Qed.

End DispatcherStore.

(** X25 on the method ['ecdf'] and the sample store. *)
Lemma data_transformation_rejects_witness :
  (forall a mode, mode = "transform"%string \/ mode = "back_transform"%string ->
     data_transformation (libs := sample_libs) (PyList a) "ecdf" sample_settings
       mode sample_times sample_tables sample_gamma_station None sample_world
     = (Raise AttributeError, sample_world)) /\
  (forall l a, heap sample_world !! l = Some (Array3 a) ->
     data_transformation (libs := sample_libs) (Ref l) "ecdf" sample_settings
       "transform" sample_times sample_tables sample_gamma_station None sample_world
     = (Raise ValueError, sample_world)) /\
  (forall l a, heap sample_world !! l = Some (Array1 a) ->
     data_transformation (libs := sample_libs) (Ref l) "ecdf" sample_settings
       "back_transform" sample_times sample_tables sample_gamma_station None
       sample_world
     = (Raise NameError, sample_world)).
Proof.
  apply (data_transformation_rejects (libs := sample_libs) "ecdf" sample_settings
           sample_times sample_tables sample_gamma_station None sample_world).
  now left.
Defined.

(** ** The pooling of sparse stations: tables that are not sparse, and a
    neighbour without table *)

Lemma add_nearby_as_pairs cdfs measured_var nearby min_obs :
  add_nearby_stations_to_cdfs cdfs measured_var nearby min_obs
  = for_each (pool_pairs measured_var) (pool_step nearby min_obs) cdfs.
Proof.
  unfold add_nearby_stations_to_cdfs, pool_pairs, pool_step.
  apply (for_each_nested (seq 1 12) (stations_with_values measured_var)
           (fun i cdfs s => pool_station nearby min_obs i cdfs s)).
Qed.

Lemma pool_step_dense cdfs nearby min_obs p :
  enough_obs cdfs min_obs p -> pool_step nearby min_obs cdfs p = Ok cdfs.
Proof.
  intros (t & Ht & Hlen). unfold pool_step, pool_station.
  unfold table_at in Ht.
  destruct (cdfs !! Z.of_nat p.2) as [months|] eqn:E; [|discriminate]. cbn in Ht.
  rewrite (getitem_some _ _ _ E), bind_Ok, (getitem_some _ _ _ Ht), bind_Ok.
  unfold Value. rewrite length_map.
  destruct (Z.ltb_spec (Z.of_nat (length t)) min_obs); [lia | reflexivity].
Qed.

Lemma pool_steps_dense cdfs nearby min_obs (l : list (nat * nat)) :
  Forall (enough_obs cdfs min_obs) l ->
  for_each l (pool_step nearby min_obs) cdfs = Ok cdfs.
Proof.
  induction 1 as [|p l Hp _ IH]; [reflexivity |].
  cbn [for_each]. now rewrite (pool_step_dense _ _ _ _ Hp), bind_Ok.
Qed.

(** X26.  When every table of the stations in the loop has at least
    [min_obs] rows, [add_nearby_stations_to_cdfs] returns the dict as it
    was given and never looks at the neighbour table, which may be empty
    or hold indices that are no keys. *)
Theorem add_nearby_leaves_dense_tables (cdfs : station_cdfs)
    (measured_var : list (list fl)) (nearby : list (list Z)) (min_obs : Z) :
  Forall (enough_obs cdfs min_obs) (pool_pairs measured_var) ->
  add_nearby_stations_to_cdfs cdfs measured_var nearby min_obs = Ok cdfs.
Proof.
  intros H. rewrite add_nearby_as_pairs. now apply pool_steps_dense.
Qed.

(** X27.  A sparse table whose first neighbour has no table stops the
    pooling with [KeyError].  Let the month [i] and the station [s] be the
    first turn of the loop whose table has fewer than [min_obs] rows; if
    the first index in the station's row of the neighbour table is no key
    of the dict (the fill value of a station without neighbour, say), or
    has no table for the month, the call raises [KeyError]. *)
Theorem add_nearby_needs_neighbour_table (cdfs : station_cdfs)
    (measured_var : list (list fl)) (nearby : list (list Z)) (min_obs : Z)
    (before after : list (nat * nat)) (i s : nat) (own : cdf_df)
    (row : list Z) (near : Z) :
  pool_pairs measured_var = before ++ (i, s) :: after ->
  Forall (enough_obs cdfs min_obs) before ->
  table_at cdfs (Z.of_nat s) i = Some own ->
  (Z.of_nat (length own) < min_obs)%Z ->
  nearby !! s = Some row -> row !! 0%nat = Some near ->
  table_at cdfs near i = None ->
  add_nearby_stations_to_cdfs cdfs measured_var nearby min_obs = Raise KeyError.
Proof.
  intros Hpairs Hbefore Hown Hsparse Hrow Hnear Hnone.
  rewrite add_nearby_as_pairs, Hpairs, for_each_app.
  rewrite (pool_steps_dense _ _ _ _ Hbefore), bind_Ok. cbn [for_each].
  assert (Hstep : pool_step nearby min_obs cdfs (i, s) = Raise KeyError).
  { unfold pool_step, pool_station. cbn [fst snd].
    pose proof Hown as Hown'. unfold table_at in Hown'.
    destruct (cdfs !! Z.of_nat s) as [months|] eqn:E; [|discriminate]. cbn in Hown'.
    rewrite (getitem_some _ _ _ E), bind_Ok, (getitem_some _ _ _ Hown'), bind_Ok.
    unfold Value. rewrite length_map.
    destruct (Z.ltb_spec (Z.of_nat (length own)) min_obs) as [Hlt|]; [|lia].
    cbn [pool_while num_obs iteration].
    destruct (Z.ltb_spec (Z.of_nat (length own)) min_obs); [|lia].
    cbn [andb Nat.ltb Nat.leb].
    unfold pool_body, index. cbn [iteration].
    rewrite Hrow, bind_Ok, Hnear, bind_Ok.
    unfold table_at in Hnone. unfold getitem.
    destruct (cdfs !! near) as [nm|]; cbn in Hnone |- *; [|reflexivity].
    now rewrite Hnone. }
  now rewrite Hstep.
Qed.

(** X26 on the sample with threshold 1: the one table of each month has
    one row. *)
Lemma add_nearby_leaves_dense_tables_witness :
  add_nearby_stations_to_cdfs sample_cdfs sample_measured_var [] 1 = Ok sample_cdfs.
Proof.
  apply (add_nearby_leaves_dense_tables sample_cdfs sample_measured_var [] 1).
  change (pool_pairs sample_measured_var)
    with (map (fun i => (i, 1%nat)) (seq 1 12)). cbn [map seq].
  repeat (apply Forall_cons_2); [ .. | apply Forall_nil_2];
    (exists [(Num 3, Num 1)]; split; [reflexivity | cbn; lia]).
Defined.

(** X27 on the sample with threshold 2 and the neighbour index -1. *)
Lemma add_nearby_needs_neighbour_table_witness :
  add_nearby_stations_to_cdfs sample_cdfs sample_measured_var
    [[1; 1; 1; 1; 1]; [-1; -1; -1; -1; -1]]%Z 2
  = Raise KeyError.
Proof.
  apply (add_nearby_needs_neighbour_table sample_cdfs sample_measured_var
           [[1; 1; 1; 1; 1]; [-1; -1; -1; -1; -1]]%Z 2
           [] (map (fun i => (i, 1%nat)) (seq 2 11)) 1 1 [(Num 3, Num 1)]
           [-1; -1; -1; -1; -1]%Z (-1)%Z).
  - reflexivity.
  - constructor.
  - reflexivity.
  - cbn. lia.
  - reflexivity.
  - reflexivity.
  - reflexivity.
Defined.

(** ** More on the quantile transforms: strata without table on the way
    back, the dispatcher's layout, and the order of the z-scores *)




Section MoreQuantile.
Context {libs : Libs}.

(** X28.  On the way back, in the unpooled mode, a station's empty
    table gives zeros.  When every station has a table for every month
    (and the interpolation method is ['interp1d'] where a table has
    rows), the inverse quantile transform of a two-dimensional input
    returns one row per time stamp, and the cell of a station and time
    stamp whose table has no row is exactly 0 whatever z-score it holds.
    The pooled mode assigns a one-dimensional array of zeros to a block
    of rows and columns in that case (line 238), which pandas can refuse:
    nothing is stated for it. *)
Theorem inverse_without_usable_table (a : list (list fl)) (time : list nat)
    (tbl : monthly_cdfs_t) (settings : Settings) (j t : nat) :
  default true (pooled settings) = false ->
  Forall (fun row => length row = length time) a ->
  (forall s month, (s < length a)%nat -> (1 <= month <= 12)%nat ->
     exists e, lookup_cdf tbl (Some s) month = Ok (Some e) /\
       (empty e = false ->
        default "interp1d"%string (interp_method settings) = "interp1d"%string)) ->
  (j < length a)%nat -> (t < length time)%nat ->
  lookup_cdf tbl (Some j) (month_of (nth t time 0%nat)) = Ok (Some []) ->
  exists out,
    inverse_normal_quantile_transform (Array2 a) time tbl settings
      = Ok (Array2 out) /\
    length out = length time /\
    out !! t ≫= (.!! j) = Some (Num 0).
Proof.
  intros Hp Hrect Htabs Hj Ht Htab.
  assert (Hdf : frame_of_data (Array2 a) time = Ok a) by now apply make_df_rect.
  assert (Hok : inverse_ok (default true (pooled settings))
                  (default "interp1d"%string (interp_method settings))
                  tbl time (length a)).
  { rewrite Hp. intros month station Hm Hst. unfold loop_stations in Hst.
    apply list_elem_of_fmap in Hst. destruct Hst as (s & -> & Hs).
    apply elem_of_seq in Hs.
    destruct (Htabs s month) as (e & He & Hi); [lia | exact Hm |].
    exists (Some e). split; [exact He |]. unfold usable.
    destruct (empty e); [discriminate | now apply Hi]. }
  rewrite (inverse_normal_quantile_transform_cells _ _ _ _ a Hdf Hok).
  unfold array_of_frame. rewrite to_numpy_cells.
  eexists. split; [reflexivity |]. split; [apply matrix_of_cells_length |].
  rewrite matrix_of_cells_lookup by assumption.
  unfold inverse_cell, table_for. now rewrite Hp, Htab.
Qed.

Lemma dispatch_ecdf_transform_run w l a times settings cdfs gs gg rows out :
  heap w !! l = Some a -> station_rows a = Ok rows ->
  normal_quantile_transform rows times cdfs settings = Ok out ->
  data_transformation (Ref l) "ecdf" settings "transform" times cdfs gs gg w
  = (Ok (fresh (dom (heap w))),
     mkWorld (<[fresh (dom (heap w)) := Array2 (transpose out)]> (heap w)) (stdout w)).
Proof.
  intros Hl Hrows Hout. unfold data_transformation.
  change (String.eqb "ecdf" "boxcox") with false.
  change (String.eqb "ecdf" "ecdf") with true.
  change (String.eqb "transform" "transform") with true. cbv iota.
  unfold deref. rewrite bind_run, (load_run l a w Hl).
  rewrite bind_run. unfold lift at 1. rewrite Hrows.
  rewrite bind_run. unfold lift at 1. rewrite Hout. reflexivity.
Qed.

(** X29.  Through the dispatcher the forward quantile transform returns
    its result in the layout of the input.  For a two-dimensional array
    with one row per station the new array has one row per station, and
    its cell for station [j] and time [t] is the transform of the input
    cell for [j] and [t] (blank for a station without any value).  A
    one-dimensional array is taken as a single station and comes back as
    a two-dimensional array of one row.  The input is left as it was. *)
Theorem ecdf_transform_through_dispatcher (w : world) (l : loc) (a : ndarray)
    (rows : list (list fl)) (times : list nat) (settings : Settings)
    (cdfs : monthly_cdfs_t) (gs : gamma_station) (gg : option gamma_gridded) :
  heap w !! l = Some a -> station_rows a = Ok rows ->
  times <> [] ->
  Forall (fun row => length row = length times) rows ->
  tables_ok (default true (pooled settings)) cdfs (length rows) ->
  exists l1 w1 out,
    data_transformation (Ref l) "ecdf" settings "transform" times cdfs gs gg w
      = (Ok l1, w1) /\
    heap w1 !! l1 = Some (Array2 out) /\
    heap w1 !! l = Some a /\
    length out = length rows /\
    forall j t, (j < length rows)%nat -> (t < length times)%nat ->
      nth t (nth j out []) NaN
      = if forallb isnan (nth j rows []) then NaN
        else nan_to_num (default (Num (-4)) (min_z_value settings))
               (forward_cell (default true (pooled settings)) rows times cdfs j t).
Proof.
  intros Hl Hrows Hne Hrect Hok.
  pose proof (normal_quantile_transform_cells rows times cdfs settings Hne Hrect Hok)
    as Hrun.
  rewrite (dispatch_ecdf_transform_run w l a times settings cdfs gs gg rows _
             Hl Hrows Hrun).
  unfold forward_output.
  rewrite transpose_matrix_of_cells by (destruct times; [congruence | cbn; lia]).
  do 3 eexists. split; [reflexivity |].
  cbn [heap]. rewrite lookup_insert_eq. split; [reflexivity |].
  split; [now apply insert_fresh_lookup |].
  split; [now rewrite length_map, length_seq |].
  intros j t Hj Ht.
  rewrite (nth_map_seq _ (length rows) j []) by exact Hj.
  now rewrite (nth_map_seq _ (length times) t NaN) by exact Ht.
Qed.


End MoreQuantile.

(** X28 on the sample z-scores: the table of station 0 for February has
    no row. *)
Lemma inverse_without_usable_table_witness :
  exists out,
    inverse_normal_quantile_transform (libs := sample_libs) (Array2 sample_z_scores)
      sample_times sample_tables_station sample_settings_unpooled
    = Ok (Array2 out) /\
    length out = length sample_times /\
    out !! 1%nat ≫= (.!! 0%nat) = Some (Num 0).
Proof.
  apply (inverse_without_usable_table (libs := sample_libs) sample_z_scores
           sample_times sample_tables_station sample_settings_unpooled 0 1).
  - reflexivity.
  - repeat constructor.
  - intros s month Hs Hm. cbn in Hs. assert (s = 0%nat) by lia. subst s.
    months_1_12 month Hm ltac:(eexists; split; [reflexivity | reflexivity]).
  - cbn. lia.
  - cbn. lia.
  - reflexivity.
Defined.

(** X29 on a store with one station of two time stamps. *)
Lemma ecdf_transform_through_dispatcher_witness :
  exists l1 w1 out,
    data_transformation (libs := sample_libs) (Ref 1%positive) "ecdf"
      sample_settings "transform" sample_times sample_tables sample_gamma_station
      None sample_world_station = (Ok l1, w1) /\
    heap w1 !! l1 = Some (Array2 out) /\
    heap w1 !! 1%positive = Some (Array2 [[Num 2; NaN]]) /\
    length out = length [[Num 2; NaN]] /\
    forall j t, (j < length [[Num 2; NaN]])%nat -> (t < length sample_times)%nat ->
      nth t (nth j out []) NaN
      = if forallb isnan (nth j [[Num 2; NaN]] []) then NaN
        else nan_to_num (default (Num (-4)) (min_z_value sample_settings))
               (forward_cell (libs := sample_libs)
                  (default true (pooled sample_settings)) [[Num 2; NaN]]
                  sample_times sample_tables j t).
Proof.
  apply (ecdf_transform_through_dispatcher (libs := sample_libs)
           sample_world_station 1%positive (Array2 [[Num 2; NaN]]) [[Num 2; NaN]]
           sample_times sample_settings sample_tables sample_gamma_station None).
  - reflexivity.
  - reflexivity.
  - discriminate.
  - repeat constructor.
  - intros month _. eexists. reflexivity.
Defined.

